(** * Grinder TLS result ingestion: a shallow embedding of [grinder/tlsparser.py]

    The first part is the program: exceptions, the fragment of [re] the
    parser relies on, Python values and dictionaries, the two catalogs,
    [TlsParser._parse_attacks], [_search_vulnerabilities], the loop of
    [load_tls_scan_results], [count_unique_entities] and the
    serializers, each under the name it has in the module.  The second
    part states and proves what the program does: the loop over the
    files and the caller's dataset, the resolver, the frequency tables,
    the decoder, and the grouped report with the files written.  The
    third part goes further into the same functions: the tables entry by
    entry, the rows of the CSV files, when the loop and the resolver
    raise, what a call may change in the dataset and in the files, the
    file-name pattern, and a second call over the same files.  The last
    two rest on it: which entries of the directory the loop skips, once
    each is opened and read as the loop does, and how the rows of the
    grouped file count the hosts of an attack. *)

From Stdlib Require Import List String Ascii Bool Arith ZArith Lia Sorted Permutation.
Import ListNotations.

Set Implicit Arguments.
Set Warnings "-register-all".
Local Open Scope string_scope.
Local Open Scope list_scope.
Local Open Scope nat_scope.

(** ** Exceptions and fallible computations *)

Inductive exn : Type :=
| TypeError
| AttributeError
| ValueError
| Exception (msg : string).

Inductive result (A : Type) : Type :=
| Ok (a : A)
| Raise (e : exn).

Arguments Ok {A} a.
Arguments Raise {A} e.

Definition bind {A B : Type} (m : result A) (k : A -> result B) : result B :=
  match m with
  | Ok a => k a
  | Raise e => Raise e
  end.

Notation "x <- m ;; k" := (bind m (fun x => k))
  (at level 61, m at next level, right associativity).
Notation "' p <- m ;; k" := (bind m (fun x => let p := x in k))
  (at level 61, p pattern, m at next level, right associativity).

Fixpoint mapM {A B : Type} (f : A -> result B) (l : list A) : result (list B) :=
  match l with
  | [] => Ok []
  | x :: r => y <- f x ;; ys <- mapM f r ;; Ok (y :: ys)
  end.

(** ** Text

    A Python [str] is modelled by a Rocq [string]; the scanner output and
    the file names are taken to hold code points below 256, and the
    character classes are those of [re] on that range. *)

Definition chars (s : string) : list ascii := list_ascii_of_string s.
Definition text (l : list ascii) : string := string_of_list_ascii l.

Module Re.

Definition code (c : ascii) : nat := nat_of_ascii c.

Definition between (lo hi n : nat) : bool := (lo <=? n) && (n <=? hi).

(** [\d] *)
Definition is_digit (c : ascii) : bool := between 48 57 (code c).

(** [\s]: the six ASCII blanks, the separators 0x1c-0x1f, NEL and NBSP. *)
Definition is_space (c : ascii) : bool :=
  let n := code c in
  between 9 13 n || between 28 32 n || (n =? 133) || (n =? 160).

(** [\w]: letters, digits and the underscore, with the Latin-1 letters
    and numerics [str.isalnum] accepts. *)
Definition is_word (c : ascii) : bool :=
  let n := code c in
  between 48 57 n || between 65 90 n || (n =? 95) || between 97 122 n
  || (n =? 170) || between 178 179 n || (n =? 181) || between 185 186 n
  || between 188 190 n || between 192 214 n || between 216 246 n
  || between 248 255 n.

Inductive cclass : Type :=
| CLit (c : ascii)
| CDigit
| CWord
| CSpace
| CAny.

Definition accepts (k : cclass) (c : ascii) : bool :=
  match k with
  | CLit d => Ascii.eqb d c
  | CDigit => is_digit c
  | CWord => is_word c
  | CSpace => is_space c
  | CAny => negb (code c =? 10)
  end.

(** The patterns of the module are sequences of one-character atoms,
    each taken once or repeated greedily ([+]), with capturing groups
    around runs of atoms. *)
Inductive tok : Type :=
| One (k : cclass)
| Many1 (k : cclass)
| GOpen
| GClose.

(** *** Reading a pattern *)

Inductive ptok : Type :=
| PAtom (k : cclass)
| PPlus
| POpen
| PClose.

Definition escape_class (c : ascii) : cclass :=
  if Ascii.eqb c "d"%char then CDigit
  else if Ascii.eqb c "w"%char then CWord
  else if Ascii.eqb c "s"%char then CSpace
  else CLit c.

Fixpoint lex (escaped : bool) (s : list ascii) : list ptok :=
  match s with
  | [] => []
  | c :: r =>
      if escaped then PAtom (escape_class c) :: lex false r
      else if Ascii.eqb c "\"%char then lex true r
      else if Ascii.eqb c "("%char then POpen :: lex false r
      else if Ascii.eqb c ")"%char then PClose :: lex false r
      else if Ascii.eqb c "+"%char then PPlus :: lex false r
      else if Ascii.eqb c "."%char then PAtom CAny :: lex false r
      else PAtom (CLit c) :: lex false r
  end.

Fixpoint quantify (l : list ptok) : list tok :=
  match l with
  | [] => []
  | PAtom k :: r =>
      match r with
      | PPlus :: r' => Many1 k :: quantify r'
      | _ => One k :: quantify r
      end
  | POpen :: r => GOpen :: quantify r
  | PClose :: r => GClose :: quantify r
  | PPlus :: r => quantify r
  end.

Definition compile (pattern : string) : list tok :=
  quantify (lex false (chars pattern)).

(** *** Matching at a position

    Backtracking as [re] does it: a greedy repetition first takes the
    longest run and gives characters back one at a time. *)

Fixpoint run (k : cclass) (s : list ascii) : nat :=
  match s with
  | c :: r => if accepts k c then S (run k r) else 0
  | [] => 0
  end.

Fixpoint try_down {A : Type} (n : nat) (f : nat -> option A) : option A :=
  match n with
  | 0 => None
  | S n' =>
      match f n with
      | Some r => Some r
      | None => try_down n' f
      end
  end.

(** [cur] holds, reversed, the text consumed since the last [GOpen]. *)
Fixpoint rmatch (ts : list tok) (s : list ascii)
         (cur : list ascii) (caps : list (list ascii))
  : option (list (list ascii) * list ascii) :=
  match ts with
  | [] => Some (rev caps, s)
  | GOpen :: r => rmatch r s [] caps
  | GClose :: r => rmatch r s [] (rev cur :: caps)
  | One k :: r =>
      match s with
      | c :: s' => if accepts k c then rmatch r s' (c :: cur) caps else None
      | [] => None
      end
  | Many1 k :: r =>
      try_down (run k s)
        (fun j => rmatch r (skipn j s) (rev (firstn j s) ++ cur) caps)
  end.

Definition match_here (ts : list tok) (s : list ascii)
  : option (list (list ascii) * list ascii) :=
  rmatch ts s [] [].

(** *** [re.findall]: the groups of every match, scanning left to right;
    a match resumes the scan where it ended.  (The patterns of the
    module consume at least one character, so no match is empty.) *)

Fixpoint findall_from (ts : list tok) (s : list ascii) (skip : nat)
  : list (list (list ascii)) :=
  match s with
  | [] => []
  | _ :: s' =>
      match skip with
      | S k => findall_from ts s' k
      | 0 =>
          match match_here ts s with
          | Some (caps, rest) =>
              caps :: findall_from ts s' (List.length s' - List.length rest)
          | None => findall_from ts s' 0
          end
      end
  end.

Definition findall (pattern str : string) : list (list string) :=
  map (map text) (findall_from (compile pattern) (chars str) 0).

End Re.

(** ** Python values

    Hashable scalars are kept apart from containers, so that what may
    enter a [set] or key a [Counter] is a matter of type. *)

Inductive atom : Type :=
| ANone
| ABool (b : bool)
| AInt (z : Z)
| AStr (s : string)
| ABytes (s : string).

Inductive pyval : Type :=
| VAtom (a : atom)
| VList (l : list pyval)
| VDict (d : list (string * pyval)).

Definition VNone : pyval := VAtom ANone.
Definition VTrue : pyval := VAtom (ABool true).
Definition VStr (s : string) : pyval := VAtom (AStr s).

(** [bool(v)] *)
Definition atom_truthy (a : atom) : bool :=
  match a with
  | ANone => false
  | ABool b => b
  | AInt z => negb (Z.eqb z 0)
  | AStr s => negb (String.eqb s "")
  | ABytes s => negb (String.eqb s "")
  end.

Definition truthy (v : pyval) : bool :=
  match v with
  | VAtom a => atom_truthy a
  | VList l => match l with [] => false | _ => true end
  | VDict d => match d with [] => false | _ => true end
  end.

(** [x == y] on scalars: [True] and [False] are the integers 1 and 0. *)
Definition atom_num (a : atom) : option Z :=
  match a with
  | ABool b => Some (Z.b2z b)
  | AInt z => Some z
  | _ => None
  end.

Definition atom_eqb (x y : atom) : bool :=
  match x, y with
  | ANone, ANone => true
  | AStr a, AStr b => String.eqb a b
  | ABytes a, ABytes b => String.eqb a b
  | _, _ =>
      match atom_num x, atom_num y with
      | Some a, Some b => Z.eqb a b
      | _, _ => false
      end
  end.

(** ** Insertion-ordered dictionaries *)

Section Dict.
Variables K V : Type.
Variable eqb : K -> K -> bool.

Definition dict : Type := list (K * V).

Fixpoint dict_get (d : dict) (k : K) : option V :=
  match d with
  | [] => None
  | (k', v) :: r => if eqb k' k then Some v else dict_get r k
  end.

(** [d[k] = v]: an existing key keeps its place, a new one goes last. *)
Fixpoint dict_set (d : dict) (k : K) (v : V) : dict :=
  match d with
  | [] => [(k, v)]
  | (k', v') :: r =>
      if eqb k' k then (k', v) :: r else (k', v') :: dict_set r k v
  end.

(** [d.update(e)] *)
Definition dict_update (d e : dict) : dict :=
  fold_left (fun acc kv => dict_set acc (fst kv) (snd kv)) e d.

Definition keys (d : dict) : list K := map fst d.
Definition values (d : dict) : list V := map snd d.
End Dict.

Definition sdict (V : Type) : Type := dict string V.
Definition sget {V} (d : sdict V) (k : string) : option V := dict_get String.eqb d k.
Definition sset {V} (d : sdict V) (k : string) (v : V) : sdict V := dict_set String.eqb d k v.
Definition supdate {V} (d e : sdict V) : sdict V := dict_update String.eqb d e.

(** [v.get(k)]: only a mapping has the method. *)
Definition py_get (v : pyval) (k : string) : result pyval :=
  match v with
  | VDict d => Ok (match sget d k with Some x => x | None => VNone end)
  | _ => Raise AttributeError
  end.

(** [x or y] *)
Definition py_or (x y : pyval) : pyval := if truthy x then x else y.

Definition singletons (s : string) : list pyval :=
  map (fun c => VStr (String c EmptyString)) (chars s).

Definition byte_values (s : string) : list pyval :=
  map (fun c => VAtom (AInt (Z.of_nat (nat_of_ascii c)))) (chars s).

(** [x + y] *)
Definition py_add (x y : pyval) : result pyval :=
  match x, y with
  | VList a, VList b => Ok (VList (a ++ b))
  | VAtom (AStr a), VAtom (AStr b) => Ok (VStr (a ++ b)%string)
  | VAtom (ABytes a), VAtom (ABytes b) => Ok (VAtom (ABytes (a ++ b)%string))
  | VAtom a, VAtom b =>
      match atom_num a, atom_num b with
      | Some m, Some n => Ok (VAtom (AInt (m + n)%Z))
      | _, _ => Raise TypeError
      end
  | _, _ => Raise TypeError
  end.

(** [list(x)], and what a [for] over [x] visits: the items of a list, the
    keys of a mapping, the characters of a string, the bytes of a
    [bytes]; the other scalars are not iterable. *)
Definition py_list (x : pyval) : result (list pyval) :=
  match x with
  | VList l => Ok l
  | VDict d => Ok (map VStr (keys d))
  | VAtom (AStr s) => Ok (singletons s)
  | VAtom (ABytes s) => Ok (byte_values s)
  | VAtom _ => Raise TypeError
  end.

(** Only scalars hash. *)
Definition hashable (x : pyval) : result atom :=
  match x with
  | VAtom a => Ok a
  | _ => Raise TypeError
  end.

(** ** Iteration order of a [set]

    [list(set(l))] visits each distinct element of [l] once, in an order
    the language leaves open; the model is parametric in it. *)

Inductive distinct : list atom -> Prop :=
| distinct_nil : distinct []
| distinct_cons x l :
    (forall y, In y l -> atom_eqb x y = false) -> distinct l -> distinct (x :: l).

Record SetOrder : Type := {
  set_iter : list atom -> list atom;
  set_iter_sound : forall l x, In x (set_iter l) -> In x l;
  set_iter_complete :
    forall l x, In x l -> exists y, In y (set_iter l) /\ atom_eqb x y = true;
  set_iter_distinct : forall l, distinct (set_iter l)
}.

(** [list(set(l))] *)
Definition list_set (so : SetOrder) (l : list pyval) : result (list atom) :=
  items <- mapM hashable l ;; Ok (set_iter so items).

Definition as_str (a : atom) : string :=
  match a with AStr s => s | _ => "" end.

(** The same over strings. *)
Definition list_set_str (so : SetOrder) (l : list string) : list string :=
  map as_str (set_iter so (map AStr l)).

(** ** The catalogs *)

Definition LIST_OF_ATTACKS : list string :=
  [ "Padding Oracle";
    "Bleichenbacher";
    "CRIME";
    "Breach";
    "Invalid Curve";
    "Invalid Curve Ephemerals";
    "SSL Poodle";
    "TLS Poodle";
    "CVE-20162107";
    "Logjam";
    "Sweet 32";
    "DROWN";
    "Heartbleed";
    "EarlyCcs" ].

Definition LIST_OF_BUGS : list string :=
  [ "Version Intolerant";
    "Ciphersuite Intolerant";
    "Extension Intolerant";
    "CS Length Intolerant \(>512 Byte\)";
    "Compression Intolerant";
    "ALPN Intolerant";
    "CH Length Intolerant";
    "NamedGroup Intolerant";
    "Empty last Extension Intolerant";
    "SigHashAlgo Intolerant";
    "Big ClientHello Intolerant";
    "2nd Ciphersuite Byte Bug";
    "Ignores offered Ciphersuites";
    "Reflects offered Ciphersuites";
    "Ignores offered NamedGroups";
    "Ignores offered SigHashAlgos" ].

(** ** [TlsParser._parse_attacks] *)

(** [needle in hay] *)
Fixpoint contains (needle hay : string) : bool :=
  String.prefix needle hay
  || match hay with
     | EmptyString => false
     | String _ r => contains needle r
     end.

(** [r"{entry}\s+: (\w+)".format(entry=entry)] *)
Definition entry_pattern (entry : string) : string :=
  (entry ++ "\s+: (\w+)")%string.

(** With one group [findall] lists the captured strings themselves. *)
Definition findall1 (pattern str : string) : list string :=
  map (fun groups => nth 0 groups "") (Re.findall pattern str).

(** One of the two loops over a catalog. *)
Definition scan_catalog (catalog : list string) (results : string)
  : sdict pyval :=
  fold_left
    (fun found entry =>
       match findall1 (entry_pattern entry) results with
       | [] => found
       | first :: _ =>
           if String.eqb first "true" then supdate found [(entry, VTrue)]
           else found
       end)
    catalog [].

(** What the decoder returns: the pair [("error", "error")], or the two
    mappings. *)
Inductive parsed : Type :=
| ParseError
| Parsed (attacks bugs : sdict pyval).

Definition _parse_attacks (results : string) : parsed :=
  if contains "Cannot reach the Server" results then ParseError
  else if contains "Server does not seem to support SSL" results then ParseError
  else
    Parsed (scan_catalog LIST_OF_ATTACKS results)
           (scan_catalog LIST_OF_BUGS results).

(** ** [TlsParser._search_vulnerabilities] *)

Definition hosts_t : Type := sdict pyval.

(** [d.get(k)] on the dataset *)
Definition hosts_get (hosts : hosts_t) (k : string) : pyval :=
  match sget hosts k with
  | Some v => v
  | None => VNone
  end.

Definition keys_if_dict (v : pyval) : pyval :=
  match v with
  | VDict d => if truthy v then VList (map VStr (keys d)) else v
  | _ => v
  end.

Definition _search_vulnerabilities (so : SetOrder) (hosts : hosts_t)
           (host_ip : string) : result (list atom) :=
  if negb (truthy (hosts_get hosts host_ip)) then Ok []
  else
    field <- py_get (hosts_get hosts host_ip) "vulnerabilities" ;;
    if negb (truthy field) then Ok []
    else
      vulns <- py_get (hosts_get hosts host_ip) "vulnerabilities" ;;
      shodan <- py_get vulns "shodan_vulnerabilities" ;;
      let shodan_vulns := py_or shodan (VList []) in
      vulners <- py_get vulns "vulners_vulnerabilities" ;;
      let vulners_vulns := py_or vulners (VList []) in
      let shodan_vulns := keys_if_dict shodan_vulns in
      let vulners_vulns := keys_if_dict vulners_vulns in
      both <- py_add shodan_vulns vulners_vulns ;;
      items <- py_list both ;;
      list_set so items.

(** ** Host records of the result map

    A record is the [dict(vendor=..., ..., vulnerabilities=...)] built by
    the loop.  Its [attacks] and [bugs] are the decoder's mappings until
    [save_results_csv] replaces them by lists of names, and it has no
    ["ip"] key until [save_results_csv] adds one. *)

Inductive names : Type :=
| AsDict (d : sdict pyval)
| AsList (l : list string).

Definition names_val (n : names) : pyval :=
  match n with
  | AsDict d => VDict d
  | AsList l => VList (map VStr l)
  end.

(** What iterating the field visits. *)
Definition names_items (n : names) : list string :=
  match n with
  | AsDict d => keys d
  | AsList l => l
  end.

Record HostRecord : Type := mkHost {
  vendor : string;
  product : string;
  port : string;
  attacks : names;
  bugs : names;
  vulnerabilities : list atom;
  ip : option string
}.

Definition results_t : Type := sdict HostRecord.

(** [host.get(k)] *)
Definition host_get (h : HostRecord) (k : string) : pyval :=
  if String.eqb k "vendor" then VStr (vendor h)
  else if String.eqb k "product" then VStr (product h)
  else if String.eqb k "port" then VStr (port h)
  else if String.eqb k "attacks" then names_val (attacks h)
  else if String.eqb k "bugs" then names_val (bugs h)
  else if String.eqb k "vulnerabilities" then VList (map VAtom (vulnerabilities h))
  else if String.eqb k "ip" then
    match ip h with Some i => VStr i | None => VNone end
  else VNone.

(** ** The ingestion loop of [load_tls_scan_results] *)

Definition FILENAME_PATTERN : string := "(\d+.\d+.\d+.\d+)-(\d+)-(\w+)-(.+).txt".

(** [s.replace("_", " ")] *)
Definition underscores_to_spaces (s : string) : string :=
  text (map (fun c => if Ascii.eqb c "_"%char then " "%char else c) (chars s)).

(** [self.hosts[ip].update({field: value})] *)
Definition hosts_update_field (hosts : hosts_t) (ip field : string)
           (value : pyval) : result hosts_t :=
  match hosts_get hosts ip with
  | VDict entry => Ok (sset hosts ip (VDict (supdate entry [(field, value)])))
  | _ => Raise AttributeError
  end.

(** The body of the loop, for a file [file] holding [results].  A record
    is never an empty mapping, so [all_results.get(ip)] is falsy exactly
    when [ip] has no record yet. *)
Definition ingest_file (so : SetOrder) (all_results : results_t)
           (hosts : hosts_t) (file results : string)
  : result (results_t * hosts_t) :=
  match _parse_attacks results with
  | ParseError => Ok (all_results, hosts)
  | Parsed attacks bugs =>
    match Re.findall FILENAME_PATTERN file with
    | [] => Ok (all_results, hosts)
    | found :: _ =>
        let ip := nth 0 found "" in
        let port := nth 1 found "" in
        let vendor := nth 2 found "" in
        let product := nth 3 found "" in
        let vendor := underscores_to_spaces vendor in
        let product := underscores_to_spaces product in
        vulnerabilities <- _search_vulnerabilities so hosts ip ;;
        let all_results :=
          match sget all_results ip with
          | Some _ => all_results
          | None =>
              supdate all_results
                [(ip, mkHost vendor product port (AsDict attacks) (AsDict bugs)
                             vulnerabilities None)]
          end in
        if truthy (hosts_get hosts ip) then
          hosts <- (if truthy (VDict attacks)
                    then hosts_update_field hosts ip "attacks" (VDict attacks)
                    else Ok hosts) ;;
          hosts <- (if truthy (VDict bugs)
                    then hosts_update_field hosts ip "bugs" (VDict bugs)
                    else Ok hosts) ;;
          Ok (all_results, hosts)
        else Ok (all_results, hosts)
    end
  end.

(** The loop over the directory listing: [files] pairs each name with
    the text read from it.  The dataset is the caller's and keeps the
    updates made before an exception. *)
Fixpoint ingest (so : SetOrder) (files : list (string * string))
         (all_results : results_t) (hosts : hosts_t)
  : hosts_t * result results_t :=
  match files with
  | [] => (hosts, Ok all_results)
  | (file, results) :: rest =>
      match ingest_file so all_results hosts file results with
      | Ok (all_results, hosts) => ingest so rest all_results hosts
      | Raise e => (hosts, Raise e)
      end
  end.

(** ** [TlsParser.count_unique_entities] *)

Definition table : Type := dict atom nat.

(** [[item for sublist in lists for item in sublist]] *)
Definition flatten (lists : list pyval) : result (list pyval) :=
  ls <- mapM py_list lists ;; Ok (List.concat ls).

Definition count_one (c : table) (x : atom) : table :=
  dict_set atom_eqb c x
    (S (match dict_get atom_eqb c x with Some n => n | None => 0 end)).

(** [Counter(l)]: one count per distinct element, in order of first
    appearance. *)
Definition Counter (l : list pyval) : result table :=
  items <- mapM hashable l ;; Ok (fold_left count_one items []).

(** [sorted], by insertion from the right: the result is the stable
    arrangement in which [before x y] never holds for [y] placed ahead
    of [x]. *)
Section Sorted.
Variable A : Type.
Variable before : A -> A -> bool.

Fixpoint insert (x : A) (l : list A) : list A :=
  match l with
  | [] => [x]
  | y :: r => if before y x then y :: insert x r else x :: y :: r
  end.

Definition sorted (l : list A) : list A := fold_right insert [] l.
End Sorted.

(** [key=lambda x: x[1], reverse=True] *)
Definition by_count_desc (y x : atom * nat) : bool := snd x <? snd y.

Definition count_unique_entities (results : results_t) (ent_type : string)
  : result table :=
  let all_attacks := map (fun host => host_get host ent_type) (values results) in
  flat_list <- flatten all_attacks ;;
  counter <- Counter flat_list ;;
  Ok (sorted by_count_desc counter).

(** ** Output files *)

Record product_info : Type := mkInfo {
  ips : list string;
  quantity : nat
}.

Record grouped_row : Type := mkRow {
  row_attack : atom;
  row_vendor : string;
  row_product : string;
  row_versions : pyval;
  row_ips : list string;
  row_quantity : nat
}.

(** What [save_results_json] is given: the result map or a table. *)
Inductive json_data : Type :=
| JResults (r : results_t)
| JTable (t : table).

(** A file is [Opened] once [open(path, "w")] has truncated it; it holds
    its document once the writer is through. *)
Inductive content : Type :=
| Opened
| Json (data : json_data)
| CsvRecords (rows : list HostRecord)
| CsvCounts (rows : list (atom * nat))
| CsvGrouped (rows : list grouped_row).

Definition file_system : Type := sdict content.

(** Computations that write files and may raise. *)
Definition IO (A : Type) : Type := file_system -> file_system * result A.

Definition io_ret {A} (a : A) : IO A := fun fs => (fs, Ok a).

Definition io_bind {A B} (m : IO A) (k : A -> IO B) : IO B :=
  fun fs =>
    match m fs with
    | (fs', Ok a) => k a fs'
    | (fs', Raise e) => (fs', Raise e)
    end.

Definition io_lift {A} (r : result A) : IO A := fun fs => (fs, r).

Definition io_write (path : string) (c : content) : IO unit :=
  fun fs => (sset fs path c, Ok tt).

Notation "x <~ m ;; k" := (io_bind m (fun x => k))
  (at level 61, m at next level, right associativity).
Notation "m ;;; k" := (io_bind m (fun _ => k))
  (at level 61, right associativity).

Module DefaultValues.
Definition RESULTS_DIRECTORY : string := "results".
End DefaultValues.

Module DefaultTlsParserValues.
Definition PARSED_RESULTS_DIR : string := "tls_processed_data".
Definition FULL_RESULTS_JSON : string := "tls_scanner_results.json".
Definition UNIQUE_ATTACKS_JSON : string := "tls_scanner_attacks.json".
Definition UNIQUE_BUGS_JSON : string := "tls_scanner_bugs.json".
Definition UNIQUE_VULNERABILITIES_JSON : string := "tls_scanner_vulnerabilities.json".
Definition FULL_RESULTS_CSV : string := "tls_scanner_results.csv".
Definition UNIQUE_ATTACKS_CSV : string := "tls_scanner_attacks.csv".
Definition UNIQUE_BUGS_CSV : string := "tls_scanner_bugs.csv".
Definition UNIQUE_VULNERABILITIES_CSV : string := "tls_scanner_vulnerabilities.csv".
Definition UNIQUE_GROUPPED_PRODUCTS_RESULTS_CSV : string := "tls_scanner_groupped.csv".
End DefaultTlsParserValues.

(** [Path(".").joinpath(dest_dir).joinpath(sub_dir).joinpath(filename)] *)
Definition full_path (filename : string) : string :=
  (DefaultValues.RESULTS_DIRECTORY ++ "/"
   ++ DefaultTlsParserValues.PARSED_RESULTS_DIR ++ "/" ++ filename)%string.

(** *** What [json.dump] can encode: every value but [bytes], under keys
    that are scalars other than [bytes]. *)

Definition atom_json_ok (a : atom) : bool :=
  match a with
  | ABytes _ => false
  | _ => true
  end.

Fixpoint json_ok (v : pyval) : bool :=
  match v with
  | VAtom a => atom_json_ok a
  | VList l => forallb json_ok l
  | VDict d => forallb (fun kv => json_ok (snd kv)) d
  end.

Definition record_json_ok (h : HostRecord) : bool :=
  json_ok (names_val (attacks h)) && json_ok (names_val (bugs h))
  && forallb atom_json_ok (vulnerabilities h).

Definition json_data_ok (data : json_data) : bool :=
  match data with
  | JResults r => forallb record_json_ok (values r)
  | JTable t => forallb atom_json_ok (keys t)
  end.

(** ** [TlsParser.save_results_json] *)

Definition save_results_json (results : json_data) (filename : string)
  : IO unit :=
  io_write (full_path filename) Opened ;;;
  if json_data_ok results then io_write (full_path filename) (Json results)
  else io_lift (Raise (Exception "Can not save hosts to json file")).

(** ** [TlsParser.save_results_csv] *)

(** [key=lambda item: item[1].get("product")] *)
Definition by_product (y x : string * HostRecord) : bool :=
  String.ltb (product (snd y)) (product (snd x)).

(** [list(v.keys())] *)
Definition names_keys (n : names) : result names :=
  match n with
  | AsDict d => Ok (AsList (keys d))
  | AsList _ => Raise AttributeError
  end.

(** The three updates of one record, which is also the row written. *)
Definition csv_record (ip_key : string) (data : HostRecord)
  : result HostRecord :=
  let data := mkHost (vendor data) (product data) (port data) (attacks data)
                     (bugs data) (vulnerabilities data) (Some ip_key) in
  a <- names_keys (attacks data) ;;
  let data := mkHost (vendor data) (product data) (port data) a
                     (bugs data) (vulnerabilities data) (ip data) in
  b <- names_keys (bugs data) ;;
  Ok (mkHost (vendor data) (product data) (port data) (attacks data)
             b (vulnerabilities data) (ip data)).

(** The loop over the sorted items.  The records it updates are the
    caller's own objects: [store] is the caller's map, and each record is
    written back under its key. *)
Fixpoint csv_records (items : list (string * HostRecord)) (store : results_t)
  : result (list HostRecord * results_t) :=
  match items with
  | [] => Ok ([], store)
  | (ip_key, data) :: rest =>
      data' <- csv_record ip_key data ;;
      out <- csv_records rest (sset store ip_key data') ;;
      Ok (data' :: fst out, snd out)
  end.

(** Returns the caller's map as the call leaves it. *)
Definition save_results_csv (results : results_t) (filename : string)
  : IO results_t :=
  io_write (full_path filename) Opened ;;;
  let sorted_by_vendor := sorted by_product results in
  out <~ io_lift (csv_records sorted_by_vendor results) ;;
  io_write (full_path filename) (CsvRecords (fst out)) ;;;
  io_ret (snd out).

(** ** [TlsParser.save_unique_results_csv] *)

Definition save_unique_results_csv (results : table) (filename : string)
  : IO unit :=
  io_write (full_path filename) Opened ;;;
  io_write (full_path filename) (CsvCounts results).

(** ** [TlsParser.save_unique_groupped_results_csv] *)

Fixpoint foldM {A B : Type} (f : B -> A -> result B) (l : list A) (b : B)
  : result B :=
  match l with
  | [] => Ok b
  | x :: r => b' <- f b x ;; foldM f r b'
  end.

Definition grouped_t : Type := dict atom (sdict (sdict product_info)).

(** [attack in host.get("attacks")] *)
Definition has_attack (attack : atom) (host : HostRecord) : bool :=
  existsb (fun name => atom_eqb attack (AStr name)) (names_items (attacks host)).

(** [host.get("ip") + ":" + host.get("port")]; without an ["ip"] key the
    left operand is [None]. *)
Definition ip_port (host : HostRecord) : result string :=
  match ip host with
  | Some i => Ok (i ++ ":" ++ port host)%string
  | None => Raise TypeError
  end.

(** [key=lambda item: item[1].get("quantity"), reverse=True] *)
Definition by_quantity_desc (y x : string * product_info) : bool :=
  quantity (snd x) <? quantity (snd y).

(** The body of the loop over [attack_products]; [products] is
    [groupped_results[attack][vendor]]. *)
Definition group_product (with_attack : list HostRecord) (v : string)
           (products : sdict product_info) (p : string)
  : result (sdict product_info) :=
  ips <- mapM ip_port
           (filter (fun host => String.eqb (vendor host) v
                                && String.eqb (product host) p) with_attack) ;;
  let quantity := List.length ips in
  let sorted_ips := [(p, mkInfo ips quantity)] in
  let sorted_ips_by_quantity := sorted by_quantity_desc sorted_ips in
  Ok (supdate products sorted_ips_by_quantity).

(** The body of the loop over [attack_vendors]; [vendors] is
    [groupped_results[attack]].  The mapping of the vendor is filled by
    the inner loop and stored under the key where
    [update({vendor: {}})] put the empty one. *)
Definition group_vendor (so : SetOrder) (with_attack : list HostRecord)
           (vendors : sdict (sdict product_info)) (v : string)
  : result (sdict (sdict product_info)) :=
  let attack_products :=
    list_set_str so
      (map product (filter (fun host => String.eqb (vendor host) v) with_attack)) in
  products <- foldM (group_product with_attack v) attack_products [] ;;
  Ok (supdate vendors [(v, products)]).

(** The body of the loop over the attacks of the table; the mapping of
    the attack, likewise, is stored once it is filled. *)
Definition group_attack (so : SetOrder) (results : results_t)
           (groupped_results : grouped_t) (attack : atom)
  : result grouped_t :=
  let products_with_this_attack := filter (has_attack attack) (values results) in
  let attack_vendors :=
    list_set_str so (map vendor products_with_this_attack) in
  vendors <- foldM (group_vendor so products_with_this_attack) attack_vendors [] ;;
  Ok (dict_update atom_eqb groupped_results [(attack, vendors)]).

Definition group_results (so : SetOrder) (results : results_t)
  : result grouped_t :=
  let all_attacks := map (fun host => host_get host "attacks") (values results) in
  flat_list <- flatten all_attacks ;;
  counter <- Counter flat_list ;;
  let entities_sorted_by_value := sorted by_count_desc counter in
  foldM (group_attack so results) (keys entities_sorted_by_value) [].

(** The row of a vendor's total under one attack. *)
Definition vendor_total_row (attack : atom) (v : string)
           (products : sdict product_info) : grouped_row :=
  let all_ips := map ips (values products) in
  mkRow attack (v ++ " " ++ "(total)")%string "" VNone
        (List.concat all_ips)
        (list_sum (map quantity (values products))).

(** The rows of one vendor under one attack: the total, then one row for
    each product. *)
Definition vendor_rows (attack : atom) (v : string)
           (products : sdict product_info) : list grouped_row :=
  vendor_total_row attack v products
    :: map (fun entry => mkRow attack v (fst entry) VNone
                               (ips (snd entry)) (quantity (snd entry)))
           products.

Definition grouped_rows (groupped_results : grouped_t) : list grouped_row :=
  flat_map
    (fun by_attack =>
       flat_map (fun by_vendor =>
                   vendor_rows (fst by_attack) (fst by_vendor) (snd by_vendor))
                (snd by_attack))
    groupped_results.

Definition save_unique_groupped_results_csv (so : SetOrder)
           (results : results_t) (filename : string) : IO unit :=
  groupped_results <~ io_lift (group_results so results) ;;
  io_write (full_path filename) Opened ;;;
  io_write (full_path filename) (CsvGrouped (grouped_rows groupped_results)).

(** ** [TlsParser.load_tls_scan_results] *)

Import DefaultTlsParserValues.

(** Everything after the loop, over the finished result map. *)
Definition save_all (so : SetOrder) (all_results : results_t) : IO unit :=
  unique_attacks <~ io_lift (count_unique_entities all_results "attacks") ;;
  unique_bugs <~ io_lift (count_unique_entities all_results "bugs") ;;
  unique_vulnerabilities <~
    io_lift (count_unique_entities all_results "vulnerabilities") ;;
  save_results_json (JResults all_results) FULL_RESULTS_JSON ;;;
  save_results_json (JTable unique_attacks) UNIQUE_ATTACKS_JSON ;;;
  save_results_json (JTable unique_bugs) UNIQUE_BUGS_JSON ;;;
  save_results_json (JTable unique_vulnerabilities) UNIQUE_VULNERABILITIES_JSON ;;;
  all_results <~ save_results_csv all_results FULL_RESULTS_CSV ;;
  save_unique_results_csv unique_attacks UNIQUE_ATTACKS_CSV ;;;
  save_unique_results_csv unique_bugs UNIQUE_BUGS_CSV ;;;
  save_unique_results_csv unique_vulnerabilities UNIQUE_VULNERABILITIES_CSV ;;;
  save_unique_groupped_results_csv so all_results UNIQUE_GROUPPED_PRODUCTS_RESULTS_CSV.

(** The state a call leaves behind, and how it ended. *)
Record outcome : Type := mkOutcome {
  out_hosts : hosts_t;
  out_files : file_system;
  out_status : result unit
}.

Definition load_tls_scan_results (so : SetOrder)
           (files : list (string * string)) (hosts : hosts_t)
           (fs : file_system) : outcome :=
  match ingest so files [] hosts with
  | (hosts, Raise e) => mkOutcome hosts fs (Raise e)
  | (hosts, Ok all_results) =>
      let (fs, status) := save_all so all_results fs in
      mkOutcome hosts fs status
  end.

(** ** The entries of the directory

    The loop opens and reads every entry that [listdir] gives before it
    looks at the text or at the name.  An entry is its name with what
    [open] and [read] give for it: the text, or the exception raised (a
    sub-directory, a file that is not text in the encoding of the
    locale, a file that may not be read). *)
Definition listing : Type := list (string * result string).

(** The loop over the entries: an exception of [open] or [read] leaves
    the loop as one of the body does. *)
Fixpoint ingest_entries (so : SetOrder) (entries : listing)
         (all_results : results_t) (hosts : hosts_t)
  : hosts_t * result results_t :=
  match entries with
  | [] => (hosts, Ok all_results)
  | (file, Raise e) :: _ => (hosts, Raise e)
  | (file, Ok results) :: rest =>
      match ingest_file so all_results hosts file results with
      | Ok (all_results, hosts) => ingest_entries so rest all_results hosts
      | Raise e => (hosts, Raise e)
      end
  end.

(** The call over the entries. *)
Definition load_tls_scan_results_entries (so : SetOrder)
           (entries : listing) (hosts : hosts_t) (fs : file_system)
  : outcome :=
  match ingest_entries so entries [] hosts with
  | (hosts, Raise e) => mkOutcome hosts fs (Raise e)
  | (hosts, Ok all_results) =>
      let (fs, status) := save_all so all_results fs in
      mkOutcome hosts fs status
  end.

(** The entries of files that can all be read. *)
Definition readable (files : list (string * string)) : listing :=
  map (fun entry => (fst entry, Ok (snd entry))) files.

(** ** An iteration order: first occurrences

    One of the orders a set may be iterated in, for running the program
    on sample inputs. *)

Lemma atom_eqb_refl (x : atom) : atom_eqb x x = true.
Proof.
  destruct x; simpl; auto using String.eqb_refl, Z.eqb_refl.
Qed.

Lemma atom_eqb_sym (x y : atom) : atom_eqb x y = atom_eqb y x.
Proof.
  destruct x, y; simpl; auto using String.eqb_sym, Z.eqb_sym.
Qed.

Lemma atom_eqb_trans (x y z : atom) :
  atom_eqb x y = true -> atom_eqb y z = true -> atom_eqb x z = true.
Proof.
  destruct x, y, z; simpl; try discriminate; auto;
    rewrite ?String.eqb_eq, ?Z.eqb_eq; congruence.
Qed.

Lemma atom_eqb_str (a b : string) : atom_eqb (AStr a) (AStr b) = String.eqb a b.
Proof. reflexivity. Qed.

Fixpoint first_seen (l : list atom) : list atom :=
  match l with
  | [] => []
  | x :: r => x :: filter (fun y => negb (atom_eqb x y)) (first_seen r)
  end.

Lemma distinct_filter (f : atom -> bool) (l : list atom) :
  distinct l -> distinct (filter f l).
Proof.
  induction 1 as [|x l Hx Hd IH]; simpl; [constructor|].
  destruct (f x); auto.
  constructor; auto.
  intros y Hy. apply filter_In in Hy. apply Hx, Hy.
Qed.

Lemma first_seen_sound (l : list atom) (x : atom) :
  In x (first_seen l) -> In x l.
Proof.
  induction l as [|a l IH]; simpl; auto.
  intros [H|H]; auto.
  apply filter_In in H. right. apply IH, H.
Qed.

Lemma first_seen_complete (l : list atom) (x : atom) :
  In x l -> exists y, In y (first_seen l) /\ atom_eqb x y = true.
Proof.
  induction l as [|a l IH]; simpl; [tauto|].
  intros [H|H].
  - subst. exists x. split; auto using atom_eqb_refl.
  - destruct (IH H) as (y & Hy & Hxy).
    destruct (atom_eqb a y) eqn:E.
    + exists a. split; auto.
      apply atom_eqb_trans with y; auto. rewrite atom_eqb_sym. exact E.
    + exists y. split; auto. right. apply filter_In. rewrite E. auto.
Qed.

Lemma first_seen_distinct (l : list atom) : distinct (first_seen l).
Proof.
  induction l as [|a l IH]; simpl; constructor.
  - intros y Hy. apply filter_In in Hy. destruct Hy as [_ Hy].
    now apply negb_true_iff in Hy.
  - now apply distinct_filter.
Qed.

Definition first_seen_order : SetOrder :=
  Build_SetOrder first_seen first_seen_sound first_seen_complete
                 first_seen_distinct.

(** ** Sample inputs *)

(** Two reports for one ip, on two ports. *)
Definition two_ports : list (string * string) :=
  [ ("10.0.0.1-443-Acme-Box.txt", "Heartbleed : true");
    ("10.0.0.1-8443-Acme-Box.txt", "CRIME : true") ].

Definition two_ports_results : results_t :=
  [ ("10.0.0.1",
     mkHost "Acme" "Box" "443" (AsDict [("Heartbleed", VTrue)]) (AsDict [])
            [] None) ].

(** A dataset whose entry for the ip is an empty mapping. *)
Definition empty_entry_hosts : hosts_t := [ ("10.0.0.1", VDict []) ].

(** A dataset with both kinds of vulnerability source. *)
Definition sample_hosts : hosts_t :=
  [ ("10.0.0.1",
     VDict
       [ ("ip", VStr "10.0.0.1");
         ("vulnerabilities",
          VDict
            [ ("shodan_vulnerabilities",
               VList [VStr "CVE-2014-0160"; VStr "CVE-2015-0204"]);
              ("vulners_vulnerabilities",
               VDict [("CVE-2015-0204", VTrue); ("CVE-2016-2107", VNone)]) ]);
         ("attacks", VDict [("CRIME", VTrue)]) ]) ].

Definition sample_entry : sdict pyval :=
  [ ("ip", VStr "10.0.0.1");
    ("vulnerabilities",
     VDict
       [ ("shodan_vulnerabilities",
          VList [VStr "CVE-2014-0160"; VStr "CVE-2015-0204"]);
         ("vulners_vulnerabilities",
          VDict [("CVE-2015-0204", VTrue); ("CVE-2016-2107", VNone)]) ]);
    ("attacks", VDict [("CRIME", VTrue)]) ].

Definition sample_results : results_t :=
  [ ("10.0.0.1",
     mkHost "Acme" "Box" "443" (AsDict [("Heartbleed", VTrue)]) (AsDict [])
            [AStr "CVE-2014-0160"; AStr "CVE-2015-0204"; AStr "CVE-2016-2107"]
            None) ].

Definition sample_hosts_after : hosts_t :=
  [ ("10.0.0.1",
     VDict
       [ ("ip", VStr "10.0.0.1");
         ("vulnerabilities",
          VDict
            [ ("shodan_vulnerabilities",
               VList [VStr "CVE-2014-0160"; VStr "CVE-2015-0204"]);
              ("vulners_vulnerabilities",
               VDict [("CVE-2015-0204", VTrue); ("CVE-2016-2107", VNone)]) ]);
         ("attacks", VDict [("Heartbleed", VTrue)]) ]) ].

(** A dataset with a vulnerability identifier that is a [bytes]. *)
Definition bytes_hosts : hosts_t :=
  [ ("10.0.0.1",
     VDict
       [ ("vulnerabilities",
          VDict [("shodan_vulnerabilities",
                  VList [VAtom (ABytes "CVE-2014-0160")])]) ]) ].

Definition one_report : list (string * string) :=
  [ ("10.0.0.1-443-Acme-Box.txt", "Heartbleed : true") ].

Definition bytes_results : results_t :=
  [ ("10.0.0.1",
     mkHost "Acme" "Box" "443" (AsDict [("Heartbleed", VTrue)]) (AsDict [])
            [ABytes "CVE-2014-0160"] None) ].

Definition bytes_hosts_after : hosts_t :=
  [ ("10.0.0.1",
     VDict
       [ ("vulnerabilities",
          VDict [("shodan_vulnerabilities",
                  VList [VAtom (ABytes "CVE-2014-0160")])]);
         ("attacks", VDict [("Heartbleed", VTrue)]) ]) ].

(** Three hosts of one vendor with the same attack: one of product
    [Box1], two of product [Box2]. *)
Definition three_reports : list (string * string) :=
  [ ("10.0.0.1-443-Acme-Box1.txt", "Heartbleed : true");
    ("10.0.0.2-443-Acme-Box2.txt", "Heartbleed : true");
    ("10.0.0.3-443-Acme-Box2.txt", "Heartbleed : true") ].

Definition three_reports_grouped : list grouped_row :=
  [ mkRow (AStr "Heartbleed") "Acme (total)" "" VNone
          ["10.0.0.1:443"; "10.0.0.2:443"; "10.0.0.3:443"] 3;
    mkRow (AStr "Heartbleed") "Acme" "Box1" VNone ["10.0.0.1:443"] 1;
    mkRow (AStr "Heartbleed") "Acme" "Box2" VNone
          ["10.0.0.2:443"; "10.0.0.3:443"] 2 ].

Definition three_reports_results : results_t :=
  [ ("10.0.0.1",
     mkHost "Acme" "Box1" "443" (AsDict [("Heartbleed", VTrue)]) (AsDict [])
            [] None);
    ("10.0.0.2",
     mkHost "Acme" "Box2" "443" (AsDict [("Heartbleed", VTrue)]) (AsDict [])
            [] None);
    ("10.0.0.3",
     mkHost "Acme" "Box2" "443" (AsDict [("Heartbleed", VTrue)]) (AsDict [])
            [] None) ].

(** Two vendors, two attacks: [Heartbleed] on three hosts, [CRIME] on
    two of them. *)
Definition two_vendors : list (string * string) :=
  [ ("10.0.0.1-443-Acme-Box1.txt", "Heartbleed : true");
    ("10.0.0.2-443-Acme-Box2.txt", "Heartbleed : true, CRIME : true");
    ("10.0.0.3-8443-Bolt_Inc-Hub.txt", "CRIME : true, Heartbleed : true") ].

Definition two_vendors_results : results_t :=
  [ ("10.0.0.1",
     mkHost "Acme" "Box1" "443" (AsDict [("Heartbleed", VTrue)]) (AsDict [])
            [] None);
    ("10.0.0.2",
     mkHost "Acme" "Box2" "443"
            (AsDict [("CRIME", VTrue); ("Heartbleed", VTrue)]) (AsDict [])
            [] None);
    ("10.0.0.3",
     mkHost "Bolt Inc" "Hub" "8443"
            (AsDict [("CRIME", VTrue); ("Heartbleed", VTrue)]) (AsDict [])
            [] None) ].

(** A map that is not the loop's: two records with one ip, both with
    listed attacks, and a record without attacks, ip or product. *)
Definition listed_results : results_t :=
  [ ("a", mkHost "Acme" "Box1" "443" (AsList ["Heartbleed"]) (AsList [])
                 [] (Some "10.0.0.1"));
    ("b", mkHost "Acme" "Box1" "8443" (AsList ["CRIME"; "Heartbleed"])
                 (AsList []) [] (Some "10.0.0.1"));
    ("c", mkHost "Bolt" "" "80" (AsList []) (AsList []) [] None) ].

(** * Properties *)

Unset Implicit Arguments.

(** ** Dictionaries keyed by strings *)

Lemma sget_sset_same {V} (d : sdict V) (k : string) (v : V) :
  sget (sset d k v) k = Some v.
Proof.
  unfold sget, sset.
  induction d as [|[k' v'] d IH]; simpl.
  - now rewrite String.eqb_refl.
  - destruct (String.eqb k' k) eqn:E; simpl; rewrite E; auto.
Qed.

Lemma sget_sset_other {V} (d : sdict V) (k k' : string) (v : V) :
  k <> k' -> sget (sset d k v) k' = sget d k'.
Proof.
  unfold sget, sset. intros Hk.
  induction d as [|[k0 v0] d IH]; simpl.
  - destruct (String.eqb_spec k k'); congruence.
  - destruct (String.eqb_spec k0 k); simpl.
    + subst. destruct (String.eqb_spec k k'); congruence.
    + now rewrite IH.
Qed.

Lemma sget_none_iff {V} (d : sdict V) (k : string) :
  sget d k = None <-> ~ In k (keys d).
Proof.
  unfold sget, keys.
  induction d as [|[k' v'] d IH]; simpl; [tauto|].
  destruct (String.eqb_spec k' k); split; intros H.
  - discriminate.
  - exfalso. apply H. now left.
  - intros [?|?]; [congruence|]. now apply IH.
  - apply IH. tauto.
Qed.

Lemma sget_in {V} (d : sdict V) (k : string) (v : V) :
  sget d k = Some v -> In (k, v) d.
Proof.
  unfold sget.
  induction d as [|[k' v'] d IH]; simpl; [discriminate|].
  destruct (String.eqb_spec k' k); intros H.
  - left. congruence.
  - right. now apply IH.
Qed.

Lemma in_sget {V} (d : sdict V) (k : string) (v : V) :
  NoDup (keys d) -> In (k, v) d -> sget d k = Some v.
Proof.
  unfold sget, keys.
  induction d as [|[k' v'] d IH]; simpl; [tauto|].
  intros Hnd [H|H]; inversion Hnd; subst.
  - inversion H; subst. now rewrite String.eqb_refl.
  - destruct (String.eqb_spec k' k).
    + subst. exfalso. apply H2. apply in_map_iff. now exists (k, v).
    + now apply IH.
Qed.

Lemma sset_absent {V} (d : sdict V) (k : string) (v : V) :
  sget d k = None -> sset d k v = d ++ [(k, v)].
Proof.
  unfold sget, sset.
  induction d as [|[k' v'] d IH]; simpl; auto.
  destruct (String.eqb k' k); [discriminate|].
  intros H. now rewrite IH.
Qed.

Lemma keys_sset_present {V} (d : sdict V) (k : string) (v : V) :
  sget d k <> None -> keys (sset d k v) = keys d.
Proof.
  unfold sget, sset, keys.
  induction d as [|[k' v'] d IH]; simpl; [congruence|].
  destruct (String.eqb k' k); simpl; auto.
  intros H. now rewrite IH.
Qed.

Lemma supdate_one {V} (d : sdict V) (k : string) (v : V) :
  supdate d [(k, v)] = sset d k v.
Proof. reflexivity. Qed.

Lemma keys_app {K V} (d e : dict K V) : keys (d ++ e) = keys d ++ keys e.
Proof. apply map_app. Qed.

(** ** Unusable files are skipped *)

Lemma ingest_file_skips (so : SetOrder) (all_results : results_t)
      (hosts : hosts_t) (file results : string) :
  contains "Cannot reach the Server" results = true
  \/ contains "Server does not seem to support SSL" results = true
  \/ Re.findall FILENAME_PATTERN file = [] ->
  ingest_file so all_results hosts file results = Ok (all_results, hosts).
Proof.
  unfold ingest_file, _parse_attacks.
  intros [H|[H|H]].
  - now rewrite H.
  - rewrite H. now destruct (contains "Cannot reach the Server" results).
  - rewrite H.
    destruct (contains "Cannot reach the Server" results); auto.
    now destruct (contains "Server does not seem to support SSL" results).
Qed.

Lemma ingest_app (so : SetOrder) (files1 files2 : list (string * string))
      (all_results : results_t) (hosts : hosts_t) :
  ingest so (files1 ++ files2) all_results hosts =
  match ingest so files1 all_results hosts with
  | (hosts', Ok all_results') => ingest so files2 all_results' hosts'
  | (hosts', Raise e) => (hosts', Raise e)
  end.
Proof.
  revert all_results hosts.
  induction files1 as [|[file results] files1 IH]; intros; simpl; auto.
  destruct (ingest_file so all_results hosts file results) as [[ar h]|e]; auto.
Qed.

Lemma sset_sset_same {V} (d : sdict V) (k : string) (v w : V) :
  sset (sset d k v) k w = sset d k w.
Proof.
  unfold sset.
  induction d as [|[k' v'] d IH]; simpl.
  - now rewrite String.eqb_refl.
  - destruct (String.eqb k' k) eqn:E; simpl; rewrite E; auto.
    now rewrite IH.
Qed.

Lemma sset_id {V} (d : sdict V) (k : string) (v : V) :
  sget d k = Some v -> sset d k v = d.
Proof.
  unfold sget, sset.
  induction d as [|[k' v'] d IH]; simpl; [discriminate|].
  destruct (String.eqb_spec k' k); intros H.
  - congruence.
  - now rewrite IH.
Qed.

(** ** What the loop body does to the caller's dataset *)

Definition write_fields (entry attacks bugs : sdict pyval) : sdict pyval :=
  let entry := if truthy (VDict attacks)
               then sset entry "attacks" (VDict attacks) else entry in
  if truthy (VDict bugs) then sset entry "bugs" (VDict bugs) else entry.

(** The file name as the loop body reads it. *)
Definition file_key (file : string)
  : option (string * string * string * string) :=
  match Re.findall FILENAME_PATTERN file with
  | [] => None
  | found :: _ =>
      Some (nth 0 found "", nth 1 found "",
            underscores_to_spaces (nth 2 found ""),
            underscores_to_spaces (nth 3 found ""))
  end.

(** The record a file yields, if it yields one. *)
Definition built_record (so : SetOrder) (hosts : hosts_t)
           (file results : string) : result (option (string * HostRecord)) :=
  match _parse_attacks results with
  | ParseError => Ok None
  | Parsed attacks bugs =>
      match file_key file with
      | None => Ok None
      | Some (ip, port, vendor, product) =>
          vulnerabilities <- _search_vulnerabilities so hosts ip ;;
          Ok (Some (ip, mkHost vendor product port (AsDict attacks)
                               (AsDict bugs) vulnerabilities None))
      end
  end.

Lemma hosts_get_sset (hosts : hosts_t) (k : string) (v : pyval) :
  hosts_get (sset hosts k v) k = v.
Proof. unfold hosts_get. now rewrite sget_sset_same. Qed.

Lemma hosts_get_dict (hosts : hosts_t) (k : string) (entry : sdict pyval) :
  hosts_get hosts k = VDict entry -> sget hosts k = Some (VDict entry).
Proof.
  unfold hosts_get. destruct (sget hosts k); [congruence|discriminate].
Qed.

Lemma hosts_write_back {X} (hosts : hosts_t) (ip : string)
      (entry attacks bugs : sdict pyval) (k : hosts_t -> result X) :
  hosts_get hosts ip = VDict entry ->
  (hosts1 <- (if truthy (VDict attacks)
             then hosts_update_field hosts ip "attacks" (VDict attacks)
             else Ok hosts) ;;
   hosts2 <- (if truthy (VDict bugs)
             then hosts_update_field hosts1 ip "bugs" (VDict bugs)
             else Ok hosts1) ;;
   k hosts2)
  = k (sset hosts ip (VDict (write_fields entry attacks bugs))).
Proof.
  intros H. pose proof (hosts_get_dict _ _ _ H) as Hs.
  unfold write_fields, hosts_update_field.
  destruct attacks, bugs; cbn [truthy bind]; rewrite ?H; cbn [bind];
    rewrite ?hosts_get_sset; cbn [bind]; rewrite ?sset_sset_same; auto.
  now rewrite sset_id.
Qed.

Lemma search_vulnerabilities_not_dict (so : SetOrder) (hosts : hosts_t)
      (ip : string) (vs : list atom) :
  _search_vulnerabilities so hosts ip = Ok vs ->
  truthy (hosts_get hosts ip) = true ->
  exists entry, hosts_get hosts ip = VDict entry.
Proof.
  unfold _search_vulnerabilities. intros H Ht. rewrite Ht in H. simpl in H.
  destruct (hosts_get hosts ip) as [a|l|d]; simpl in H; try discriminate.
  now exists d.
Qed.

(** The loop body in one equation. *)
Lemma ingest_file_eq (so : SetOrder) (all_results : results_t)
      (hosts : hosts_t) (file results : string) :
  ingest_file so all_results hosts file results =
  (built <- built_record so hosts file results ;;
   match built with
   | None => Ok (all_results, hosts)
   | Some (ip, record) =>
       let all_results' :=
         match sget all_results ip with
         | Some _ => all_results
         | None => all_results ++ [(ip, record)]
         end in
       match hosts_get hosts ip, attacks record, bugs record with
       | VDict ((_ :: _) as entry), AsDict a, AsDict b =>
           Ok (all_results', sset hosts ip (VDict (write_fields entry a b)))
       | _, _, _ => Ok (all_results', hosts)
       end
   end).
Proof.
  unfold ingest_file, built_record, file_key.
  destruct (_parse_attacks results) as [|a b]; auto.
  destruct (Re.findall FILENAME_PATTERN file) as [|found rest]; auto.
  destruct (_search_vulnerabilities so hosts (nth 0 found "")) as [vs|e] eqn:Hs;
    cbn [bind]; auto.
  assert (Hins : forall record : HostRecord,
    match sget all_results (nth 0 found "") with
    | Some _ => all_results
    | None => supdate all_results [(nth 0 found "", record)]
    end =
    match sget all_results (nth 0 found "") with
    | Some _ => all_results
    | None => all_results ++ [(nth 0 found "", record)]
    end).
  { intros record. destruct (sget all_results (nth 0 found "")) eqn:E; auto.
    rewrite supdate_one. now apply sset_absent. }
  rewrite Hins. clear Hins.
  destruct (truthy (hosts_get hosts (nth 0 found ""))) eqn:Ht.
  - destruct (search_vulnerabilities_not_dict _ _ _ _ Hs Ht) as [entry He].
    rewrite (hosts_write_back _ _ _ a b _ He). cbn [attacks bugs].
    rewrite He in *. destruct entry; [discriminate|reflexivity].
  - cbn [attacks bugs].
    destruct (hosts_get hosts (nth 0 found "")) as [x|l|d]; auto.
    destruct d; [reflexivity|discriminate].
Qed.

Lemma write_fields_other (entry attacks bugs : sdict pyval) (k : string) :
  k <> "attacks" -> k <> "bugs" ->
  sget (write_fields entry attacks bugs) k = sget entry k.
Proof.
  intros Ha Hb. unfold write_fields.
  destruct (truthy (VDict attacks)), (truthy (VDict bugs));
    rewrite ?sget_sset_other; auto.
Qed.

Lemma write_fields_attacks (entry attacks bugs : sdict pyval) :
  sget (write_fields entry attacks bugs) "attacks" =
  if truthy (VDict attacks) then Some (VDict attacks) else sget entry "attacks".
Proof.
  unfold write_fields.
  destruct (truthy (VDict attacks)), (truthy (VDict bugs));
    rewrite ?sget_sset_other by discriminate; rewrite ?sget_sset_same; auto.
Qed.

Lemma write_fields_bugs (entry attacks bugs : sdict pyval) :
  sget (write_fields entry attacks bugs) "bugs" =
  if truthy (VDict bugs) then Some (VDict bugs) else sget entry "bugs".
Proof.
  unfold write_fields.
  destruct (truthy (VDict attacks)), (truthy (VDict bugs));
    rewrite ?sget_sset_same; rewrite ?sget_sset_other by discriminate; auto.
Qed.

Lemma sset_nonempty {V} (d : sdict V) (k : string) (v : V) : sset d k v <> [].
Proof.
  unfold sset. destruct d as [|[k' v'] d]; simpl; [discriminate|].
  destruct (String.eqb k' k); discriminate.
Qed.

Lemma write_fields_nonempty (entry attacks bugs : sdict pyval) :
  entry <> [] -> write_fields entry attacks bugs <> [].
Proof.
  intros H. unfold write_fields.
  destruct (truthy (VDict attacks)), (truthy (VDict bugs));
    auto using sset_nonempty.
Qed.

Lemma truthy_dict_nonempty (d : sdict pyval) : d <> [] -> truthy (VDict d) = true.
Proof. destruct d; simpl; congruence. Qed.

Lemma built_record_some (so : SetOrder) (hosts : hosts_t)
      (file results ip : string) (record : HostRecord) :
  built_record so hosts file results = Ok (Some (ip, record)) ->
  exists a b port vendor product vs,
    _parse_attacks results = Parsed a b
    /\ file_key file = Some (ip, port, vendor, product)
    /\ _search_vulnerabilities so hosts ip = Ok vs
    /\ record = mkHost vendor product port (AsDict a) (AsDict b) vs None.
Proof.
  unfold built_record.
  destruct (_parse_attacks results) as [|a b]; [discriminate|].
  destruct (file_key file) as [[[[ip0 port] vendor] product]|]; [|discriminate].
  destruct (_search_vulnerabilities so hosts ip0) as [vs|e] eqn:Hs;
    cbn [bind]; [|discriminate].
  intros H. inversion H; subst.
  exists a, b, port, vendor, product, vs. auto.
Qed.

(** What the loop body may do with a file that yields a record. *)
Lemma ingest_file_cases (so : SetOrder) (all_results all_results' : results_t)
      (hosts hosts' : hosts_t) (file results : string) :
  ingest_file so all_results hosts file results = Ok (all_results', hosts') ->
  (built_record so hosts file results = Ok None
   /\ all_results' = all_results /\ hosts' = hosts)
  \/ exists ip record,
      built_record so hosts file results = Ok (Some (ip, record))
      /\ all_results' = match sget all_results ip with
                        | Some _ => all_results
                        | None => all_results ++ [(ip, record)]
                        end
      /\ ((exists entry a b,
              hosts_get hosts ip = VDict entry /\ entry <> []
              /\ attacks record = AsDict a /\ bugs record = AsDict b
              /\ hosts' = sset hosts ip (VDict (write_fields entry a b)))
          \/ (truthy (hosts_get hosts ip) = false /\ hosts' = hosts)).
Proof.
  rewrite ingest_file_eq.
  destruct (built_record so hosts file results) as [[[ip record]|]|e] eqn:Hb;
    cbn [bind]; [|intros [= <- <-]; auto|discriminate].
  intros H. right. exists ip, record. split; auto.
  destruct (built_record_some _ _ _ _ _ _ Hb)
    as (a & b & port & vendor & product & vs & _ & _ & Hs & ->).
  cbn [attacks bugs] in *.
  destruct (truthy (hosts_get hosts ip)) eqn:Ht.
  - destruct (search_vulnerabilities_not_dict _ _ _ _ Hs Ht) as [entry Hg].
    rewrite Hg in H, Ht.
    destruct entry as [|p entry]; [discriminate|].
    injection H as <- <-. split; auto. left.
    exists (p :: entry), a, b. repeat split; auto. discriminate.
  - destruct (hosts_get hosts ip) as [x|l|[|p entry]];
      try discriminate; injection H as <- <-; auto.
Qed.

(** C6, as the code has it.  When the loop body handles a file decoded
    to [ip]: the dataset keeps its ips; every other entry is untouched;
    if the entry of [ip] is a non-empty mapping, its ["attacks"] field is
    overwritten exactly when the decoded attacks are non-empty, its
    ["bugs"] field exactly when the decoded bugs are non-empty, and
    every other field is unchanged; if [ip] is absent or its entry is an
    empty mapping, the dataset is left as it is. *)
Theorem dataset_write_back_frame
        (so : SetOrder) (all_results all_results' : results_t)
        (hosts hosts' : hosts_t) (file results : string)
        (a b : sdict pyval) (ip port vendor product : string) :
  _parse_attacks results = Parsed a b ->
  file_key file = Some (ip, port, vendor, product) ->
  ingest_file so all_results hosts file results = Ok (all_results', hosts') ->
  keys hosts' = keys hosts
  /\ (forall ip', ip' <> ip -> sget hosts' ip' = sget hosts ip')
  /\ (forall entry,
        sget hosts ip = Some (VDict entry) -> entry <> [] ->
        exists entry',
          sget hosts' ip = Some (VDict entry')
          /\ sget entry' "attacks" =
             (if truthy (VDict a) then Some (VDict a) else sget entry "attacks")
          /\ sget entry' "bugs" =
             (if truthy (VDict b) then Some (VDict b) else sget entry "bugs")
          /\ forall k, k <> "attacks" -> k <> "bugs" ->
                       sget entry' k = sget entry k)
  /\ (sget hosts ip = None \/ sget hosts ip = Some (VDict []) -> hosts' = hosts).
Proof.
  intros Hp Hk H.
  destruct (ingest_file_cases _ _ _ _ _ _ _ H) as [(Hb & _ & _)|(ip0 & record & Hb & _ & Hh)].
  { unfold built_record in Hb. rewrite Hp, Hk in Hb.
    destruct (_search_vulnerabilities so hosts ip); discriminate. }
  assert (ip0 = ip /\ attacks record = AsDict a /\ bugs record = AsDict b)
    as (-> & Hra & Hrb).
  { destruct (built_record_some _ _ _ _ _ _ Hb)
      as (a1 & b1 & p1 & v1 & pr1 & vs & Hp1 & Hk1 & _ & ->).
    rewrite Hp in Hp1. rewrite Hk in Hk1.
    inversion Hp1; inversion Hk1; subst. auto. }
  destruct Hh as [(entry & a' & b' & Hg & Hne & Ha & Hbu & ->)|(Ht & ->)].
  - assert (a' = a) by congruence. assert (b' = b) by congruence. subst a' b'.
    pose proof (hosts_get_dict _ _ _ Hg) as Hs.
    repeat split.
    + apply keys_sset_present. congruence.
    + intros ip' Hne'. apply sget_sset_other. congruence.
    + intros entry0 Hs0 _. assert (entry0 = entry) by congruence. subst entry0.
      exists (write_fields entry a b). rewrite sget_sset_same.
      repeat split; auto using write_fields_attacks, write_fields_bugs.
      intros. now apply write_fields_other.
    + intros [Hn|Hn]; rewrite Hn in Hs; congruence.
  - repeat split; auto.
    intros entry Hs Hne. unfold hosts_get in Ht. rewrite Hs in Ht.
    rewrite truthy_dict_nonempty in Ht; [discriminate|auto].
Qed.

(** ** Which record the result map keeps (C1) *)

(** What [_search_vulnerabilities] reads of the dataset. *)
Definition same_view (hosts1 hosts2 : hosts_t) : Prop :=
  forall ip,
    truthy (hosts_get hosts1 ip) = truthy (hosts_get hosts2 ip)
    /\ py_get (hosts_get hosts1 ip) "vulnerabilities"
       = py_get (hosts_get hosts2 ip) "vulnerabilities".

Lemma same_view_refl (hosts : hosts_t) : same_view hosts hosts.
Proof. intros ip. auto. Qed.

Lemma same_view_trans (h1 h2 h3 : hosts_t) :
  same_view h1 h2 -> same_view h2 h3 -> same_view h1 h3.
Proof.
  intros H12 H23 ip. destruct (H12 ip), (H23 ip). split; congruence.
Qed.

Lemma search_vulnerabilities_same_view (so : SetOrder) (h1 h2 : hosts_t)
      (ip : string) :
  same_view h1 h2 ->
  _search_vulnerabilities so h1 ip = _search_vulnerabilities so h2 ip.
Proof.
  intros H. destruct (H ip) as [Ht Hg].
  unfold _search_vulnerabilities. now rewrite Ht, Hg.
Qed.

Lemma built_record_same_view (so : SetOrder) (h1 h2 : hosts_t)
      (file results : string) :
  same_view h1 h2 ->
  built_record so h1 file results = built_record so h2 file results.
Proof.
  intros H. unfold built_record.
  destruct (_parse_attacks results); auto.
  destruct (file_key file) as [[[[ip ?] ?] ?]|]; auto.
  now rewrite (search_vulnerabilities_same_view so _ _ ip H).
Qed.

Lemma ingest_file_same_view (so : SetOrder) (all_results all_results' : results_t)
      (hosts hosts' : hosts_t) (file results : string) :
  ingest_file so all_results hosts file results = Ok (all_results', hosts') ->
  same_view hosts' hosts.
Proof.
  intros H.
  destruct (ingest_file_cases _ _ _ _ _ _ _ H)
    as [(_ & _ & ->)|(ip & record & _ & _ & Hh)]; [apply same_view_refl|].
  destruct Hh as [(entry & a & b & Hg & Hne & _ & _ & ->)|(_ & ->)];
    [|apply same_view_refl].
  intros ip'. destruct (String.eqb_spec ip ip') as [<-|Hd].
  - rewrite hosts_get_sset, Hg. split.
    + rewrite !truthy_dict_nonempty; auto using write_fields_nonempty.
    + unfold py_get. rewrite write_fields_other; auto; discriminate.
  - unfold hosts_get. now rewrite sget_sset_other.
Qed.

(** The record of the first file of the listing that decodes to [ip]. *)
Fixpoint first_record (so : SetOrder) (hosts : hosts_t)
         (files : list (string * string)) (ip : string) : option HostRecord :=
  match files with
  | [] => None
  | (file, results) :: rest =>
      match built_record so hosts file results with
      | Ok (Some (ip', record)) =>
          if String.eqb ip' ip then Some record
          else first_record so hosts rest ip
      | _ => first_record so hosts rest ip
      end
  end.

(** The record of the last such file. *)
Definition last_record (so : SetOrder) (hosts : hosts_t)
           (files : list (string * string)) (ip : string) : option HostRecord :=
  first_record so hosts (rev files) ip.

Lemma first_record_same_view (so : SetOrder) (h1 h2 : hosts_t)
      (files : list (string * string)) (ip : string) :
  same_view h1 h2 -> first_record so h1 files ip = first_record so h2 files ip.
Proof.
  intros H. induction files as [|[file results] rest IH]; simpl; auto.
  now rewrite (built_record_same_view so _ _ file results H), IH.
Qed.

Lemma sget_app_new {V} (d : sdict V) (k k' : string) (v : V) :
  sget d k = None ->
  sget (d ++ [(k, v)]) k' = if String.eqb k k' then Some v else sget d k'.
Proof.
  intros H. rewrite <- (sset_absent _ _ v H).
  destruct (String.eqb_spec k k') as [<-|Hd].
  - apply sget_sset_same.
  - now apply sget_sset_other.
Qed.

Lemma ingest_keeps_first (so : SetOrder) (files : list (string * string)) :
  forall (all_results0 all_results : results_t) (hosts hosts' : hosts_t),
    ingest so files all_results0 hosts = (hosts', Ok all_results) ->
    NoDup (keys all_results0) ->
    NoDup (keys all_results)
    /\ same_view hosts' hosts
    /\ forall ip,
        sget all_results ip =
        match sget all_results0 ip with
        | Some record => Some record
        | None => first_record so hosts files ip
        end.
Proof.
  induction files as [|[file results] rest IH]; simpl; intros ar0 ar hosts hosts' H Hnd.
  - injection H as <- <-. repeat split; auto using same_view_refl.
    intros ip. now destruct (sget ar0 ip).
  - destruct (ingest_file so ar0 hosts file results) as [[ar1 hosts1]|e] eqn:Hf;
      [|discriminate].
    pose proof (ingest_file_same_view _ _ _ _ _ _ _ Hf) as Hv.
    destruct (ingest_file_cases _ _ _ _ _ _ _ Hf)
      as [(Hb & -> & ->)|(ip0 & record & Hb & -> & _)].
    + destruct (IH _ _ _ _ H Hnd) as (Hnd' & Hv' & Hget).
      rewrite Hb. auto.
    + rewrite Hb.
      assert (Hnd1 : NoDup (keys match sget ar0 ip0 with
                                 | Some _ => ar0
                                 | None => ar0 ++ [(ip0, record)]
                                 end)).
      { destruct (sget ar0 ip0) eqn:E; auto.
        rewrite keys_app. simpl.
        apply NoDup_app; auto.
        - repeat constructor. simpl. tauto.
        - intros x Hx [<-|[]]. now apply sget_none_iff in E. }
      destruct (IH _ _ _ _ H Hnd1) as (Hnd' & Hv' & Hget).
      split; auto. split; [eapply same_view_trans; eauto|].
      intros ip. rewrite Hget.
      rewrite (first_record_same_view so _ _ rest ip Hv).
      destruct (sget ar0 ip0) eqn:E0.
      * destruct (sget ar0 ip) eqn:E; auto.
        destruct (String.eqb_spec ip0 ip); auto. congruence.
      * rewrite sget_app_new by assumption.
        destruct (String.eqb_spec ip0 ip) as [<-|Hd].
        -- now rewrite E0.
        -- reflexivity.
Qed.

(** C1, as the code has it.  When the loop ends normally the result map
    holds at most one record for each ip, and the record it holds for
    an ip is the one built from the first file of the listing that
    decodes to that ip: later files for the same ip leave it alone. *)
Theorem result_map_keeps_first_file
        (so : SetOrder) (files : list (string * string))
        (hosts hosts' : hosts_t) (all_results : results_t) :
  ingest so files [] hosts = (hosts', Ok all_results) ->
  NoDup (keys all_results)
  /\ forall ip, sget all_results ip = first_record so hosts files ip.
Proof.
  intros H.
  destruct (ingest_keeps_first so files _ _ _ _ H) as (Hnd & _ & Hget).
  - constructor.
  - split; auto.
Qed.

Lemma result_map_keeps_first_file_witness :
  ingest first_seen_order two_ports [] [] = ([], Ok two_ports_results)
  /\ NoDup (keys two_ports_results)
  /\ forall ip,
      sget two_ports_results ip = first_record first_seen_order [] two_ports ip.
Proof.
  split; [vm_compute; reflexivity|].
  apply (result_map_keeps_first_file first_seen_order two_ports [] []).
  vm_compute. reflexivity.
Defined.

(** C1 as stated fails: of two files for 10.0.0.1 the map keeps the
    record of the first (port 443), not of the last (port 8443). *)
Lemma last_file_does_not_win :
  ingest first_seen_order two_ports [] [] = ([], Ok two_ports_results)
  /\ option_map port (sget two_ports_results "10.0.0.1") = Some "443"
  /\ option_map port (last_record first_seen_order [] two_ports "10.0.0.1")
     = Some "8443".
Proof. vm_compute. auto. Qed.

Lemma dataset_write_back_frame_witness :
  _parse_attacks "Heartbleed : true" = Parsed [("Heartbleed", VTrue)] []
  /\ file_key "10.0.0.1-443-Acme-Box.txt" = Some ("10.0.0.1", "443", "Acme", "Box")
  /\ ingest_file first_seen_order [] sample_hosts "10.0.0.1-443-Acme-Box.txt"
                 "Heartbleed : true"
     = Ok (sample_results, sample_hosts_after)
  /\ keys sample_hosts_after = keys sample_hosts
  /\ (forall ip', ip' <> "10.0.0.1" ->
                  sget sample_hosts_after ip' = sget sample_hosts ip')
  /\ (forall entry,
        sget sample_hosts "10.0.0.1" = Some (VDict entry) -> entry <> [] ->
        exists entry',
          sget sample_hosts_after "10.0.0.1" = Some (VDict entry')
          /\ sget entry' "attacks" =
             (if truthy (VDict [("Heartbleed", VTrue)])
              then Some (VDict [("Heartbleed", VTrue)])
              else sget entry "attacks")
          /\ sget entry' "bugs" =
             (if truthy (VDict []) then Some (VDict []) else sget entry "bugs")
          /\ forall k, k <> "attacks" -> k <> "bugs" ->
                       sget entry' k = sget entry k)
  /\ (sget sample_hosts "10.0.0.1" = None
      \/ sget sample_hosts "10.0.0.1" = Some (VDict []) ->
      sample_hosts_after = sample_hosts).
Proof.
  assert (H1 : _parse_attacks "Heartbleed : true"
               = Parsed [("Heartbleed", VTrue)] []) by (vm_compute; reflexivity).
  assert (H2 : file_key "10.0.0.1-443-Acme-Box.txt"
               = Some ("10.0.0.1", "443", "Acme", "Box"))
    by (vm_compute; reflexivity).
  assert (H3 : ingest_file first_seen_order [] sample_hosts
                           "10.0.0.1-443-Acme-Box.txt" "Heartbleed : true"
               = Ok (sample_results, sample_hosts_after))
    by (vm_compute; reflexivity).
  split; [exact H1|]. split; [exact H2|]. split; [exact H3|].
  exact (dataset_write_back_frame first_seen_order [] sample_results
           sample_hosts sample_hosts_after "10.0.0.1-443-Acme-Box.txt"
           "Heartbleed : true" [("Heartbleed", VTrue)] []
           "10.0.0.1" "443" "Acme" "Box" H1 H2 H3).
Defined.

(** C6 as stated fails where the entry of the ip is an empty mapping:
    the ip is in the dataset and the decoded attacks are not empty, yet
    nothing is written. *)
Lemma empty_entry_is_not_written :
  sget empty_entry_hosts "10.0.0.1" = Some (VDict [])
  /\ ingest_file first_seen_order [] empty_entry_hosts
                 "10.0.0.1-443-Acme-Box.txt" "Heartbleed : true"
     = Ok (two_ports_results, empty_entry_hosts).
Proof. vm_compute. auto. Qed.

(** ** The vulnerability resolver (C7) *)

Fixpoint all_atoms (l : list pyval) : option (list atom) :=
  match l with
  | [] => Some []
  | VAtom a :: r => option_map (cons a) (all_atoms r)
  | _ :: _ => None
  end.

(** The identifiers a sub-source contributes: nothing when it is missing
    or [None], its elements when it is a list, its keys when it is a
    mapping. *)
Definition source_ids (source : option pyval) : option (list atom) :=
  match source with
  | None => Some []
  | Some (VAtom ANone) => Some []
  | Some (VList l) => all_atoms l
  | Some (VDict d) => Some (map AStr (keys d))
  | Some (VAtom _) => None
  end.

Lemma all_atoms_map (l : list pyval) (ids : list atom) :
  all_atoms l = Some ids -> l = map VAtom ids.
Proof.
  revert ids. induction l as [|[a|l'|d] l IH]; simpl; intros ids H;
    try discriminate.
  - now injection H as <-.
  - destruct (all_atoms l) as [ids'|]; [|discriminate].
    injection H as <-. simpl. now rewrite (IH ids').
Qed.

Lemma mapM_hashable_atoms (ids : list atom) :
  mapM hashable (map VAtom ids) = Ok ids.
Proof.
  induction ids as [|a ids IH]; simpl; auto. now rewrite IH.
Qed.

Lemma source_as_list (vulns : sdict pyval) (k : string) (ids : list atom) :
  source_ids (sget vulns k) = Some ids ->
  exists source,
    py_get (VDict vulns) k = Ok source
    /\ keys_if_dict (py_or source (VList [])) = VList (map VAtom ids).
Proof.
  unfold py_get, source_ids. intros H.
  destruct (sget vulns k) as [[a|l|d]|]; eexists; split; try reflexivity.
  - destruct a; try discriminate. now injection H as <-.
  - apply all_atoms_map in H. subst l. now destruct ids.
  - injection H as <-. destruct d as [|p d]; [reflexivity|].
    unfold py_or. cbn [truthy keys_if_dict]. now rewrite map_map.
  - now injection H as <-.
Qed.

(** C7.  The resolver returns the empty list when the ip is absent from
    the dataset or when its entry has no ["vulnerabilities"] field (the
    key is missing, or bound to [None]).
    When the field is a mapping, it returns the union of what the two
    sub-sources contribute (a list its elements, a mapping its keys, a
    missing one nothing), each identifier once: every element returned
    comes from a sub-source, every identifier of a sub-source is
    returned, and no two elements returned are equal. *)
Theorem vulnerability_resolver_union
        (so : SetOrder) (hosts : hosts_t) (host_ip : string) :
  (sget hosts host_ip = None -> _search_vulnerabilities so hosts host_ip = Ok [])
  /\ (forall entry,
        sget hosts host_ip = Some (VDict entry) ->
        sget entry "vulnerabilities" = None
        \/ sget entry "vulnerabilities" = Some VNone ->
        _search_vulnerabilities so hosts host_ip = Ok [])
  /\ (forall entry vulns shodan vulners,
        sget hosts host_ip = Some (VDict entry) ->
        sget entry "vulnerabilities" = Some (VDict vulns) ->
        source_ids (sget vulns "shodan_vulnerabilities") = Some shodan ->
        source_ids (sget vulns "vulners_vulnerabilities") = Some vulners ->
        exists found,
          _search_vulnerabilities so hosts host_ip = Ok found
          /\ distinct found
          /\ (forall x, In x found -> In x (shodan ++ vulners))
          /\ (forall x, In x (shodan ++ vulners) ->
                        exists y, In y found /\ atom_eqb x y = true)).
Proof.
  unfold _search_vulnerabilities, hosts_get.
  split; [|split].
  - now intros ->.
  - intros entry -> He.
    destruct (truthy (VDict entry)); auto.
    cbn [negb py_get bind]. now destruct He as [-> | ->].
  - intros entry vulns shodan vulners -> He Hs Hv.
    assert (Ht : truthy (VDict entry) = true).
    { destruct entry; [discriminate|reflexivity]. }
    rewrite Ht. cbn [negb py_get bind]. rewrite He. cbn [bind].
    destruct (truthy (VDict vulns)) eqn:Htv; cbn [negb].
    + destruct (source_as_list _ _ _ Hs) as (s1 & Hg1 & Hk1).
      destruct (source_as_list _ _ _ Hv) as (s2 & Hg2 & Hk2).
      rewrite Hg1. cbn [bind]. rewrite Hg2. cbn [bind]. rewrite Hk1, Hk2.
      cbn [py_add bind py_list]. unfold list_set.
      rewrite <- map_app, mapM_hashable_atoms. cbn [bind].
      exists (set_iter so (shodan ++ vulners)).
      repeat split.
      * apply set_iter_distinct.
      * apply set_iter_sound.
      * apply set_iter_complete.
    + destruct vulns; [|discriminate].
      injection Hs as <-. injection Hv as <-.
      exists []. repeat split; auto using distinct_nil.
      intros x [].
Qed.

Lemma vulnerability_resolver_union_witness :
  sget sample_hosts "10.0.0.1" = Some (VDict sample_entry)
  /\ exists found,
      _search_vulnerabilities first_seen_order sample_hosts "10.0.0.1" = Ok found
      /\ distinct found
      /\ (forall x, In x found ->
                    In x ([AStr "CVE-2014-0160"; AStr "CVE-2015-0204"]
                            ++ [AStr "CVE-2015-0204"; AStr "CVE-2016-2107"]))
      /\ (forall x, In x ([AStr "CVE-2014-0160"; AStr "CVE-2015-0204"]
                            ++ [AStr "CVE-2015-0204"; AStr "CVE-2016-2107"]) ->
                    exists y, In y found /\ atom_eqb x y = true).
Proof.
  split; [reflexivity|].
  apply (proj2 (proj2 (vulnerability_resolver_union first_seen_order sample_hosts
                                                    "10.0.0.1"))
               sample_entry
               [ ("shodan_vulnerabilities",
                  VList [VStr "CVE-2014-0160"; VStr "CVE-2015-0204"]);
                 ("vulners_vulnerabilities",
                  VDict [("CVE-2015-0204", VTrue); ("CVE-2016-2107", VNone)]) ]);
    reflexivity.
Defined.

(** ** The frequency aggregator (C4) *)

(** The entries of a counted field in one record. *)
Definition field_items (host : HostRecord) (ent_type : string) : list atom :=
  if String.eqb ent_type "attacks" then map AStr (names_items (attacks host))
  else if String.eqb ent_type "bugs" then map AStr (names_items (bugs host))
  else if String.eqb ent_type "vulnerabilities" then vulnerabilities host
  else [].

Definition descending (t : table) : Prop :=
  Sorted.StronglySorted (fun a b => snd b <= snd a) t.

Lemma py_list_names (n : names) :
  py_list (names_val n) = Ok (map VAtom (map AStr (names_items n))).
Proof.
  destruct n as [d|l]; simpl; now rewrite map_map.
Qed.

Lemma py_list_field (host : HostRecord) (ent_type : string) :
  In ent_type ["attacks"; "bugs"; "vulnerabilities"] ->
  py_list (host_get host ent_type) = Ok (map VAtom (field_items host ent_type)).
Proof.
  intros [<-|[<-|[<-|[]]]]; unfold host_get, field_items; simpl String.eqb;
    cbv iota; auto using py_list_names.
Qed.

Lemma mapM_ok {A B} (f : A -> result B) (g : A -> B) (l : list A) :
  (forall x, In x l -> f x = Ok (g x)) -> mapM f l = Ok (map g l).
Proof.
  induction l as [|x l IH]; simpl; intros H; auto.
  rewrite (H x), IH; auto.
Qed.

Lemma concat_map_map {A B C} (f : B -> C) (g : A -> list B) (l : list A) :
  List.concat (map (fun x => map f (g x)) l) = map f (List.concat (map g l)).
Proof.
  induction l as [|x l IH]; simpl; auto. now rewrite IH, map_app.
Qed.

Lemma flatten_field (hosts : list HostRecord) (ent_type : string) :
  In ent_type ["attacks"; "bugs"; "vulnerabilities"] ->
  flatten (map (fun host => host_get host ent_type) hosts)
  = Ok (map VAtom (List.concat (map (fun host => field_items host ent_type) hosts))).
Proof.
  intros H. unfold flatten.
  rewrite (mapM_ok py_list (fun v => match py_list v with Ok l => l | Raise _ => [] end)).
  - cbn [bind]. f_equal. rewrite map_map. rewrite <- concat_map_map. f_equal.
    apply map_ext. intros host. now rewrite py_list_field.
  - intros v Hv. apply in_map_iff in Hv. destruct Hv as (host & <- & _).
    now rewrite py_list_field.
Qed.

Lemma Counter_atoms (items : list atom) :
  Counter (map VAtom items) = Ok (fold_left count_one items []).
Proof. unfold Counter. now rewrite mapM_hashable_atoms. Qed.

Lemma count_one_sum (c : table) (x : atom) :
  list_sum (values (count_one c x)) = S (list_sum (values c)).
Proof.
  unfold count_one, values.
  induction c as [|[k n] c IH]; simpl; auto.
  destruct (atom_eqb k x); simpl; auto.
  rewrite IH. lia.
Qed.

Lemma fold_count_sum (items : list atom) (c : table) :
  list_sum (values (fold_left count_one items c))
  = list_sum (values c) + List.length items.
Proof.
  revert c. induction items as [|x items IH]; intros c; simpl; [lia|].
  rewrite IH, count_one_sum. lia.
Qed.

Lemma insert_sum {A} (before : A -> A -> bool) (f : A -> nat) (x : A)
      (l : list A) :
  list_sum (map f (insert before x l)) = f x + list_sum (map f l).
Proof.
  induction l as [|y l IH]; simpl; auto.
  destruct (before y x); simpl; auto. rewrite IH. lia.
Qed.

Lemma sorted_sum {A} (before : A -> A -> bool) (f : A -> nat) (l : list A) :
  list_sum (map f (sorted before l)) = list_sum (map f l).
Proof.
  induction l as [|x l IH]; simpl; auto. now rewrite insert_sum, IH.
Qed.

Lemma insert_in {A} (before : A -> A -> bool) (x y : A) (l : list A) :
  In y (insert before x l) <-> y = x \/ In y l.
Proof.
  induction l as [|z l IH]; simpl; [intuition|].
  destruct (before z x); simpl; rewrite ?IH; intuition.
Qed.

Lemma sorted_in {A} (before : A -> A -> bool) (y : A) (l : list A) :
  In y (sorted before l) <-> In y l.
Proof.
  induction l as [|x l IH]; simpl; [tauto|].
  rewrite insert_in, IH. intuition.
Qed.

Lemma insert_descending (x : atom * nat) (t : table) :
  descending t -> descending (insert by_count_desc x t).
Proof.
  unfold descending.
  induction 1 as [|y t Hs IH Hy]; simpl.
  - repeat constructor.
  - unfold by_count_desc at 1.
    destruct (Nat.ltb_spec (snd x) (snd y)).
    + constructor; auto.
      apply Forall_forall. intros z Hz. apply insert_in in Hz.
      destruct Hz as [->|Hz]; [lia|].
      rewrite Forall_forall in Hy. now apply Hy.
    + constructor.
      * constructor; auto.
      * constructor; auto.
        rewrite Forall_forall in *. intros z Hz. specialize (Hy z Hz). lia.
Qed.

Lemma sorted_descending (t : table) : descending (sorted by_count_desc t).
Proof.
  induction t as [|x t IH]; simpl.
  - constructor.
  - now apply insert_descending.
Qed.

Lemma count_unique_entities_eq (results : results_t) (ent_type : string) :
  In ent_type ["attacks"; "bugs"; "vulnerabilities"] ->
  count_unique_entities results ent_type
  = Ok (sorted by_count_desc
          (fold_left count_one
             (List.concat (map (fun host => field_items host ent_type)
                               (values results))) [])).
Proof.
  intros H. unfold count_unique_entities.
  rewrite flatten_field by assumption. cbn [bind].
  now rewrite Counter_atoms.
Qed.

(** C4.  For each of the three counted fields the aggregator returns a
    table; its counts add up to the number of entries of that field
    over all the records of the map, and its entries come in descending
    order of count. *)
Theorem frequency_table_sum_and_order
        (results : results_t) (ent_type : string) :
  In ent_type ["attacks"; "bugs"; "vulnerabilities"] ->
  exists t,
    count_unique_entities results ent_type = Ok t
    /\ list_sum (values t)
       = list_sum (map (fun host => List.length (field_items host ent_type))
                       (values results))
    /\ descending t.
Proof.
  intros H. eexists. split; [now apply count_unique_entities_eq|]. split.
  - unfold values at 1. rewrite sorted_sum.
    change (map snd ?t) with (values t).
    rewrite fold_count_sum. simpl.
    induction (values results) as [|host hosts IH]; simpl; auto.
    rewrite length_app. now rewrite IH.
  - apply sorted_descending.
Qed.

Lemma frequency_table_sum_and_order_witness :
  In "attacks" ["attacks"; "bugs"; "vulnerabilities"]
  /\ exists t,
      count_unique_entities two_ports_results "attacks" = Ok t
      /\ list_sum (values t)
         = list_sum (map (fun host => List.length (field_items host "attacks"))
                         (values two_ports_results))
      /\ descending t.
Proof.
  assert (H : In "attacks" ["attacks"; "bugs"; "vulnerabilities"])
    by (simpl; auto).
  split; [exact H|].
  exact (frequency_table_sum_and_order two_ports_results "attacks" H).
Defined.

(** ** A failed JSON encoding (C9) *)

Definition CAN_NOT_SAVE : exn := Exception "Can not save hosts to json file".

Lemma save_results_json_fails {A} (data : json_data) (filename : string)
      (rest : IO A) (fs : file_system) :
  json_data_ok data = false ->
  (save_results_json data filename ;;; rest) fs
  = (sset fs (full_path filename) Opened, Raise CAN_NOT_SAVE).
Proof.
  intros H. unfold save_results_json, io_bind, io_write, io_lift.
  now rewrite H.
Qed.

(** C9, as the code has it.  A call of [save_results_json] whose data
    cannot be encoded leaves its file opened and empty and raises
    [Exception("Can not save hosts to json file")]; nothing that follows
    the call runs.  In [load_tls_scan_results] the exception of the
    first artifact ends the call: that file is the only one touched and
    none of the other nine artifacts is attempted. *)
Theorem json_failure_ends_the_run
        (so : SetOrder) (files : list (string * string))
        (hosts hosts' : hosts_t) (all_results : results_t)
        (fs : file_system) :
  ingest so files [] hosts = (hosts', Ok all_results) ->
  json_data_ok (JResults all_results) = false ->
  (forall (data : json_data) (filename : string) (rest : IO unit)
          (fs0 : file_system),
      json_data_ok data = false ->
      (save_results_json data filename ;;; rest) fs0
      = (sset fs0 (full_path filename) Opened, Raise CAN_NOT_SAVE))
  /\ load_tls_scan_results so files hosts fs
     = mkOutcome hosts'
                 (sset fs (full_path FULL_RESULTS_JSON) Opened)
                 (Raise CAN_NOT_SAVE).
Proof.
  intros Hi Hj. split.
  - intros. now apply save_results_json_fails.
  - unfold load_tls_scan_results. rewrite Hi.
    unfold save_all.
    unfold io_bind at 1, io_lift at 1.
    rewrite count_unique_entities_eq by (simpl; auto).
    unfold io_bind at 1, io_lift at 1.
    rewrite count_unique_entities_eq by (simpl; auto).
    unfold io_bind at 1, io_lift at 1.
    rewrite count_unique_entities_eq by (simpl; auto).
    now rewrite save_results_json_fails.
Qed.

Lemma json_failure_ends_the_run_witness :
  ingest first_seen_order one_report [] bytes_hosts
  = (bytes_hosts_after, Ok bytes_results)
  /\ json_data_ok (JResults bytes_results) = false
  /\ load_tls_scan_results first_seen_order one_report bytes_hosts []
     = mkOutcome bytes_hosts_after
                 (sset [] (full_path FULL_RESULTS_JSON) Opened)
                 (Raise CAN_NOT_SAVE).
Proof.
  assert (H1 : ingest first_seen_order one_report [] bytes_hosts
               = (bytes_hosts_after, Ok bytes_results))
    by (vm_compute; reflexivity).
  assert (H2 : json_data_ok (JResults bytes_results) = false)
    by (vm_compute; reflexivity).
  split; [exact H1|]. split; [exact H2|].
  exact (proj2 (json_failure_ends_the_run first_seen_order one_report
                  bytes_hosts bytes_hosts_after bytes_results [] H1 H2)).
Defined.

(** C9 as stated fails: when the encoding of the first artifact fails,
    the call ends with the exception and none of the other artifacts is
    written, neither the three tables nor any of the CSV files. *)
Lemma later_artifacts_are_not_written :
  let run := load_tls_scan_results first_seen_order one_report bytes_hosts [] in
  out_status run = Raise CAN_NOT_SAVE
  /\ out_files run = [(full_path FULL_RESULTS_JSON, Opened)]
  /\ sget (out_files run) (full_path UNIQUE_ATTACKS_JSON) = None
  /\ sget (out_files run) (full_path UNIQUE_BUGS_JSON) = None
  /\ sget (out_files run) (full_path FULL_RESULTS_CSV) = None
  /\ sget (out_files run) (full_path UNIQUE_ATTACKS_CSV) = None
  /\ sget (out_files run) (full_path UNIQUE_GROUPPED_PRODUCTS_RESULTS_CSV) = None.
Proof. vm_compute. repeat split. Qed.

(** ** The report decoder (C2) *)

(** *** The pattern of a catalog entry *)

Definition lits (name : list ascii) : list Re.tok :=
  map (fun c => Re.One (Re.CLit c)) name.

Definition ENTRY_TAIL : list Re.tok :=
  [ Re.Many1 Re.CSpace; Re.One (Re.CLit ":"); Re.One (Re.CLit " ");
    Re.GOpen; Re.Many1 Re.CWord; Re.GClose ].

(** The text an entry matches when it is read as a pattern: the entry
    without the backslashes that escape its parentheses. *)
Fixpoint unescape (escaped : bool) (s : list ascii) : list ascii :=
  match s with
  | [] => []
  | c :: r =>
      if escaped then c :: unescape false r
      else if Ascii.eqb c "\"%char then unescape true r
      else c :: unescape false r
  end.

Definition entry_text (entry : string) : list ascii :=
  unescape false (chars entry).

Lemma compile_entry (entry : string) :
  In entry (LIST_OF_ATTACKS ++ LIST_OF_BUGS) ->
  Re.compile (entry_pattern entry) = lits (entry_text entry) ++ ENTRY_TAIL.
Proof.
  intros H. simpl in H.
  repeat (destruct H as [<-|H]; [vm_compute; reflexivity|]).
  contradiction.
Qed.

(** All entries but one are their own text. *)
Lemma entry_text_plain (entry : string) :
  In entry (LIST_OF_ATTACKS ++ LIST_OF_BUGS) ->
  entry <> "CS Length Intolerant \(>512 Byte\)" ->
  entry_text entry = chars entry.
Proof.
  intros H Hne. simpl in H.
  repeat (destruct H as [<-|H]; [try (vm_compute; reflexivity); congruence|]).
  contradiction.
Qed.

Lemma entry_text_escaped :
  entry_text "CS Length Intolerant \(>512 Byte\)"
  = chars "CS Length Intolerant (>512 Byte)".
Proof. vm_compute. reflexivity. Qed.

(** *** Matching a literal prefix *)

Fixpoint strip (p s : list ascii) : option (list ascii) :=
  match p with
  | [] => Some s
  | c :: p' =>
      match s with
      | d :: s' => if Ascii.eqb c d then strip p' s' else None
      | [] => None
      end
  end.

Lemma strip_iff (p s s' : list ascii) : strip p s = Some s' <-> s = p ++ s'.
Proof.
  revert s. induction p as [|c p IH]; simpl; intros s.
  - split; congruence.
  - destruct s as [|d s]; [split; discriminate|].
    destruct (Ascii.eqb_spec c d) as [<-|Hd].
    + rewrite IH. split; congruence.
    + split; [discriminate|congruence].
Qed.

Lemma rmatch_lits (name : list ascii) (r : list Re.tok) :
  forall s cur caps,
    Re.rmatch (lits name ++ r) s cur caps =
    match strip name s with
    | Some s' => Re.rmatch r s' (rev name ++ cur) caps
    | None => None
    end.
Proof.
  induction name as [|c name IH]; intros s cur caps; simpl; auto.
  destruct s as [|d s]; auto.
  destruct (Ascii.eqb_spec c d) as [<-|Hd]; auto.
  rewrite IH. destruct (strip name s); auto.
  now rewrite <- app_assoc.
Qed.

(** *** Greedy runs *)

Lemma run_firstn (k : Re.cclass) (s : list ascii) :
  Forall (fun c => Re.accepts k c = true) (firstn (Re.run k s) s).
Proof.
  induction s as [|c s IH]; simpl; auto.
  destruct (Re.accepts k c) eqn:E; simpl; auto.
Qed.

Lemma run_skipn (k : Re.cclass) (s : list ascii) :
  match skipn (Re.run k s) s with
  | [] => True
  | c :: _ => Re.accepts k c = false
  end.
Proof.
  induction s as [|c s IH]; simpl; auto.
  destruct (Re.accepts k c) eqn:E; simpl; auto.
Qed.

Lemma run_below (k : Re.cclass) (s : list ascii) (j : nat) :
  j < Re.run k s ->
  exists c r, skipn j s = c :: r /\ Re.accepts k c = true.
Proof.
  revert j. induction s as [|c s IH]; simpl; intros j Hj; [lia|].
  destruct (Re.accepts k c) eqn:E; [|lia].
  destruct j as [|j]; simpl; eauto.
  apply IH. lia.
Qed.

Lemma run_app (k : Re.cclass) (a b : list ascii) :
  Forall (fun c => Re.accepts k c = true) a ->
  match b with [] => True | c :: _ => Re.accepts k c = false end ->
  Re.run k (a ++ b) = List.length a.
Proof.
  intros Ha Hb. induction Ha as [|c a Hc Ha IH]; simpl.
  - destruct b as [|c b]; simpl; auto. now rewrite Hb.
  - now rewrite Hc, IH.
Qed.

Lemma try_down_top {A} (n : nat) (f : nat -> option A) :
  (forall j, 0 < j < n -> f j = None) ->
  Re.try_down n f = match n with 0 => None | S _ => f n end.
Proof.
  intros H. destruct n as [|n]; simpl; auto.
  destruct (f (S n)); auto.
  assert (Hn : forall m, m <= n -> Re.try_down m f = None).
  { induction m as [|m IHm]; intros Hm; simpl; auto.
    rewrite H by lia. apply IHm. lia. }
  now apply Hn.
Qed.

(** *** The tail [\s+: (\w+)], without backtracking *)

Definition tail_match (s : list ascii) : option (list ascii * list ascii) :=
  if Re.run Re.CSpace s =? 0 then None
  else
    match skipn (Re.run Re.CSpace s) s with
    | c1 :: c2 :: w =>
        if Ascii.eqb ":" c1 && Ascii.eqb " " c2 then
          if Re.run Re.CWord w =? 0 then None
          else Some (firstn (Re.run Re.CWord w) w, skipn (Re.run Re.CWord w) w)
        else None
    | _ => None
    end.

Lemma colon_is_no_space (c : ascii) :
  Re.is_space c = true -> Ascii.eqb ":" c = false.
Proof.
  intros H. destruct (Ascii.eqb_spec ":"%char c) as [<-|]; auto.
Qed.

Lemma rmatch_tail (s cur : list ascii) (caps : list (list ascii)) :
  Re.rmatch ENTRY_TAIL s cur caps =
  match tail_match s with
  | Some (v, rest) => Some (rev (v :: caps), rest)
  | None => None
  end.
Proof.
  unfold ENTRY_TAIL, tail_match. cbn [Re.rmatch].
  rewrite try_down_top.
  - destruct (Re.run Re.CSpace s) as [|n] eqn:En; auto.
    cbn [Nat.eqb].
    destruct (skipn (S n) s) as [|c1 [|c2 w]]; auto.
    + cbn [Re.accepts]. now destruct (Ascii.eqb ":" c1).
    + cbn [Re.accepts].
      destruct (Ascii.eqb ":" c1); auto. cbn [andb].
      destruct (Ascii.eqb " " c2); auto.
      cbn [Re.rmatch].
      destruct (Re.run Re.CWord w) as [|m] eqn:Em; auto.
      cbn [Re.try_down Re.rmatch Nat.eqb].
      now rewrite app_nil_r, rev_involutive.
  - intros j Hj.
    destruct (run_below Re.CSpace s j) as (c & r & -> & Hc); [lia|].
    cbn [Re.accepts] in *. now rewrite colon_is_no_space.
Qed.

(** *** An occurrence of [<entry><whitespace>: <value>] *)

Definition ends_word (rest : list ascii) : Prop :=
  match rest with
  | [] => True
  | c :: _ => Re.is_word c = false
  end.

(** [s] starts with the entry text, one or more blanks, a colon, a
    space and the value [v], a longest run of word characters; [rest]
    follows. *)
Definition occurs_here (name s v rest : list ascii) : Prop :=
  exists ws,
    s = name ++ ws ++ ":"%char :: " "%char :: v ++ rest
    /\ ws <> []
    /\ Forall (fun c => Re.is_space c = true) ws
    /\ v <> []
    /\ Forall (fun c => Re.is_word c = true) v
    /\ ends_word rest.

Lemma firstn_length_app {A} (a b : list A) : firstn (List.length a) (a ++ b) = a.
Proof. induction a as [|x a IH]; simpl; [now destruct b|now rewrite IH]. Qed.

Lemma skipn_length_app {A} (a b : list A) : skipn (List.length a) (a ++ b) = b.
Proof. induction a as [|x a IH]; simpl; auto. Qed.

Lemma run_positive_firstn (k : Re.cclass) (s : list ascii) :
  Re.run k s <> 0 -> firstn (Re.run k s) s <> [].
Proof.
  destruct s as [|c s]; simpl; [congruence|].
  destruct (Re.accepts k c); simpl; congruence.
Qed.

Lemma tail_match_iff (s v rest : list ascii) :
  tail_match s = Some (v, rest) <->
  exists ws,
    s = ws ++ ":"%char :: " "%char :: v ++ rest
    /\ ws <> []
    /\ Forall (fun c => Re.is_space c = true) ws
    /\ v <> []
    /\ Forall (fun c => Re.is_word c = true) v
    /\ ends_word rest.
Proof.
  unfold tail_match. split.
  - destruct (Nat.eqb_spec (Re.run Re.CSpace s) 0) as [|En]; [discriminate|].
    destruct (skipn (Re.run Re.CSpace s) s) as [|c1 [|c2 w]] eqn:Es;
      try discriminate.
    destruct (Ascii.eqb_spec ":"%char c1) as [<-|]; [|discriminate].
    destruct (Ascii.eqb_spec " "%char c2) as [<-|]; [|discriminate].
    cbn [andb].
    destruct (Nat.eqb_spec (Re.run Re.CWord w) 0) as [|Em]; [discriminate|].
    intros H. inversion H; subst v rest; clear H.
    exists (firstn (Re.run Re.CSpace s) s). repeat split.
    + rewrite firstn_skipn. rewrite <- Es. now rewrite firstn_skipn.
    + now apply run_positive_firstn.
    + apply (run_firstn Re.CSpace).
    + now apply run_positive_firstn.
    + apply (run_firstn Re.CWord).
    + apply (run_skipn Re.CWord).
  - intros (ws & -> & Hne & Hws & Hv & Hword & Hrest).
    rewrite (run_app Re.CSpace) by (auto; reflexivity).
    destruct ws as [|c ws]; [congruence|].
    cbn [List.length Nat.eqb]. rewrite (skipn_length_app (c :: ws)).
    cbn [Ascii.eqb Bool.eqb andb].
    rewrite (run_app Re.CWord) by auto.
    destruct v as [|d v]; [congruence|].
    cbn [List.length Nat.eqb].
    now rewrite (firstn_length_app (d :: v)), (skipn_length_app (d :: v)).
Qed.

Lemma match_here_entry (name s : list ascii) :
  Re.match_here (lits name ++ ENTRY_TAIL) s =
  match strip name s with
  | Some s' =>
      match tail_match s' with
      | Some (v, rest) => Some ([v], rest)
      | None => None
      end
  | None => None
  end.
Proof.
  unfold Re.match_here. rewrite rmatch_lits.
  destruct (strip name s); auto. now rewrite rmatch_tail.
Qed.

Lemma match_here_entry_iff (name s v rest : list ascii) :
  Re.match_here (lits name ++ ENTRY_TAIL) s = Some ([v], rest)
  <-> occurs_here name s v rest.
Proof.
  rewrite match_here_entry. unfold occurs_here. split.
  - destruct (strip name s) as [s'|] eqn:Es; [|discriminate].
    apply strip_iff in Es. subst s.
    destruct (tail_match s') as [[v' rest']|] eqn:Et; [|discriminate].
    intros [= <- <-]. apply tail_match_iff in Et.
    destruct Et as (ws & -> & H). exists ws. split; auto.
  - intros (ws & -> & H).
    assert (Es : strip name (name ++ ws ++ ":"%char :: " "%char :: v ++ rest)
                 = Some (ws ++ ":"%char :: " "%char :: v ++ rest))
      by now apply strip_iff.
    rewrite Es.
    assert (Et : tail_match (ws ++ ":"%char :: " "%char :: v ++ rest)
                 = Some (v, rest)).
    { apply tail_match_iff. exists ws. split; auto. }
    now rewrite Et.
Qed.

Lemma match_here_entry_none (name s : list ascii) :
  Re.match_here (lits name ++ ENTRY_TAIL) s = None
  <-> forall v rest, ~ occurs_here name s v rest.
Proof.
  split.
  - intros H v rest Ho. apply match_here_entry_iff in Ho. congruence.
  - intros H.
    destruct (Re.match_here (lits name ++ ENTRY_TAIL) s) as [[caps rest]|] eqn:E;
      auto.
    exfalso. rewrite match_here_entry in E.
    destruct (strip name s) as [s'|] eqn:Es; [|discriminate].
    destruct (tail_match s') as [[v rest']|] eqn:Et; [|discriminate].
    apply (H v rest'). apply match_here_entry_iff.
    rewrite match_here_entry, Es, Et. reflexivity.
Qed.

(** *** The first match of [findall] *)

Fixpoint first_hit (ts : list Re.tok) (s : list ascii)
  : option (list (list ascii)) :=
  match s with
  | [] => None
  | _ :: s' =>
      match Re.match_here ts s with
      | Some (caps, _) => Some caps
      | None => first_hit ts s'
      end
  end.

Lemma findall_from_head (ts : list Re.tok) (s : list ascii) :
  hd_error (Re.findall_from ts s 0) = first_hit ts s.
Proof.
  induction s as [|c s IH]; simpl; auto.
  destruct (Re.match_here ts (c :: s)) as [[caps rest]|]; auto.
Qed.

Lemma first_hit_entry_some (name s v : list ascii) :
  first_hit (lits name ++ ENTRY_TAIL) s = Some [v] <->
  exists pre suf rest,
    s = pre ++ suf
    /\ occurs_here name suf v rest
    /\ forall pre' suf' v' rest',
        s = pre' ++ suf' -> occurs_here name suf' v' rest' ->
        List.length pre <= List.length pre'.
Proof.
  induction s as [|c s IH].
  - simpl. split; [discriminate|].
    intros (pre & suf & rest & Hs & Ho & _).
    symmetry in Hs. apply app_eq_nil in Hs. destruct Hs as [-> ->].
    destruct Ho as (ws & Hs & Hne & _).
    destruct name; [destruct ws; [congruence|discriminate]|discriminate].
  - cbn [first_hit].
    destruct (Re.match_here (lits name ++ ENTRY_TAIL) (c :: s))
      as [[caps rest]|] eqn:E.
    + assert (Hshape : exists v0, caps = [v0]).
      { rewrite match_here_entry in E.
        destruct (strip name (c :: s)); [|discriminate].
        destruct (tail_match l) as [[v0 r0]|]; [|discriminate].
        injection E as <- _. eauto. }
      destruct Hshape as [v0 ->].
      pose proof (proj1 (match_here_entry_iff _ _ _ _) E) as Ho.
      split.
      * intros [= ->]. exists [], (c :: s), rest. repeat split; auto.
        intros. simpl. lia.
      * intros (pre & suf & rest' & Hs & Ho' & Hmin).
        specialize (Hmin [] (c :: s) v0 rest eq_refl Ho).
        destruct pre; [|simpl in Hmin; lia].
        simpl in Hs. subst suf.
        apply match_here_entry_iff in Ho'. congruence.
    + pose proof (proj1 (match_here_entry_none _ _) E) as Hnone.
      rewrite IH. split.
      * intros (pre & suf & rest & -> & Ho & Hmin).
        exists (c :: pre), suf, rest. repeat split; auto.
        intros pre' suf' v' rest' Hs' Ho'.
        destruct pre' as [|c' pre'].
        -- simpl in Hs'. subst suf'. now apply Hnone in Ho'.
        -- injection Hs' as <- Hs'. simpl.
           specialize (Hmin pre' suf' v' rest' Hs' Ho'). lia.
      * intros (pre & suf & rest & Hs & Ho & Hmin).
        destruct pre as [|c' pre].
        -- simpl in Hs. subst suf. now apply Hnone in Ho.
        -- injection Hs as <- ->.
           exists pre, suf, rest. repeat split; auto.
           intros pre' suf' v' rest' Hs' Ho'.
           specialize (Hmin (c :: pre') suf' v' rest').
           simpl in Hmin. rewrite Hs' in Hmin.
           specialize (Hmin eq_refl Ho'). lia.
Qed.

Lemma first_hit_entry_shape (name s : list ascii) (caps : list (list ascii)) :
  first_hit (lits name ++ ENTRY_TAIL) s = Some caps -> exists v, caps = [v].
Proof.
  induction s as [|c s IH]; [discriminate|].
  cbn [first_hit]. rewrite match_here_entry.
  destruct (strip name (c :: s)) as [s'|]; auto.
  destruct (tail_match s') as [[v rest]|]; auto.
  intros [= <-]. eauto.
Qed.

(** *** The loop over a catalog *)

(** The first capture for an entry, if the pattern matches at all. *)
Definition first_capture (entry results : string) : option string :=
  hd_error (findall1 (entry_pattern entry) results).

(** The first occurrence of the entry in the report carries the value
    [v]: an occurrence at some position, and none at an earlier one. *)
Definition first_value (entry results v : string) : Prop :=
  exists pre suf rest,
    chars results = pre ++ suf
    /\ occurs_here (entry_text entry) suf (chars v) rest
    /\ forall pre' suf' v' rest',
        chars results = pre' ++ suf' ->
        occurs_here (entry_text entry) suf' v' rest' ->
        List.length pre <= List.length pre'.

Lemma hd_error_map {A B} (f : A -> B) (l : list A) :
  hd_error (map f l) = option_map f (hd_error l).
Proof. now destruct l. Qed.

Lemma first_capture_entry (entry results v : string) :
  In entry (LIST_OF_ATTACKS ++ LIST_OF_BUGS) ->
  first_capture entry results = Some v <-> first_value entry results v.
Proof.
  intros Hin. unfold first_capture, findall1, Re.findall, first_value.
  rewrite !hd_error_map, findall_from_head, compile_entry by assumption.
  rewrite <- first_hit_entry_some.
  destruct (first_hit (lits (entry_text entry) ++ ENTRY_TAIL) (chars results))
    as [caps|] eqn:E; cbn [option_map]; [|split; discriminate].
  destruct (first_hit_entry_shape _ _ _ E) as [v0 ->]. cbn [map nth].
  unfold text, chars. split.
  - intros [= <-]. now rewrite list_ascii_of_string_of_list_ascii.
  - intros [= ->]. now rewrite string_of_list_ascii_of_string.
Qed.

Definition scan_step (results : string) (found : sdict pyval) (entry : string)
  : sdict pyval :=
  match findall1 (entry_pattern entry) results with
  | [] => found
  | first :: _ =>
      if String.eqb first "true" then supdate found [(entry, VTrue)] else found
  end.

Lemma keys_sset_iff {V} (d : sdict V) (k e : string) (v : V) :
  In e (keys (sset d k v)) <-> e = k \/ In e (keys d).
Proof.
  unfold keys, sset.
  induction d as [|[k' v'] d IH]; simpl.
  - intuition.
  - destruct (String.eqb_spec k' k) as [->|Hd]; simpl.
    + intuition.
    + rewrite IH. intuition.
Qed.

Lemma scan_step_keys (results : string) (found : sdict pyval)
      (entry e : string) :
  In e (keys (scan_step results found entry)) <->
  In e (keys found) \/ (e = entry /\ first_capture entry results = Some "true").
Proof.
  unfold scan_step, first_capture.
  destruct (findall1 (entry_pattern entry) results) as [|first l]; cbn [hd_error].
  - split; [auto|]. intros [H|[_ H]]; [auto|discriminate].
  - destruct (String.eqb_spec first "true") as [->|Hne].
    + rewrite supdate_one, keys_sset_iff. intuition.
    + split; [auto|]. intros [H|[_ H]]; [auto|congruence].
Qed.

Lemma scan_catalog_keys (results : string) (catalog : list string) (e : string) :
  forall found,
    In e (keys (fold_left (scan_step results) catalog found)) <->
    In e (keys found)
    \/ (In e catalog /\ first_capture e results = Some "true").
Proof.
  induction catalog as [|entry catalog IH]; intros found; simpl.
  - intuition.
  - rewrite IH, scan_step_keys. intuition (subst; auto).
Qed.

(** C2.  For a report without a failure marker the decoder returns the
    two mappings, and for every entry of a catalog: the entry is a key
    of its mapping exactly when the first occurrence in the report of
    the entry (read as a pattern), one or more blanks, a colon, a space
    and a run of word characters has the run ["true"]; every key of a
    mapping is an entry of its catalog. *)
Theorem report_decoder_true_entries (results : string) :
  contains "Cannot reach the Server" results = false ->
  contains "Server does not seem to support SSL" results = false ->
  exists attacks bugs,
    _parse_attacks results = Parsed attacks bugs
    /\ (forall entry, In entry LIST_OF_ATTACKS ->
          (In entry (keys attacks) <-> first_value entry results "true"))
    /\ (forall entry, In entry LIST_OF_BUGS ->
          (In entry (keys bugs) <-> first_value entry results "true"))
    /\ (forall name, In name (keys attacks) -> In name LIST_OF_ATTACKS)
    /\ (forall name, In name (keys bugs) -> In name LIST_OF_BUGS).
Proof.
  intros H1 H2. unfold _parse_attacks. rewrite H1, H2.
  do 2 eexists. split; [reflexivity|].
  change (scan_catalog ?c results) with (fold_left (scan_step results) c []).
  assert (Hkey : forall catalog entry,
             incl catalog (LIST_OF_ATTACKS ++ LIST_OF_BUGS) ->
             In entry catalog ->
             In entry (keys (fold_left (scan_step results) catalog []))
             <-> first_value entry results "true").
  { intros catalog entry Hsub Hin. rewrite scan_catalog_keys.
    rewrite <- first_capture_entry by auto. simpl. tauto. }
  split; [|split; [|split]].
  - intros entry Hin. apply Hkey; auto using incl_appl, incl_refl.
  - intros entry Hin. apply Hkey; auto using incl_appr, incl_refl.
  - intros name H. apply scan_catalog_keys in H. now destruct H as [[]|[H _]].
  - intros name H. apply scan_catalog_keys in H. now destruct H as [[]|[H _]].
Qed.

Lemma report_decoder_true_entries_witness :
  contains "Cannot reach the Server" "Heartbleed : true" = false
  /\ contains "Server does not seem to support SSL" "Heartbleed : true" = false
  /\ exists attacks bugs,
      _parse_attacks "Heartbleed : true" = Parsed attacks bugs
      /\ (forall entry, In entry LIST_OF_ATTACKS ->
            (In entry (keys attacks)
             <-> first_value entry "Heartbleed : true" "true"))
      /\ (forall entry, In entry LIST_OF_BUGS ->
            (In entry (keys bugs)
             <-> first_value entry "Heartbleed : true" "true"))
      /\ (forall name, In name (keys attacks) -> In name LIST_OF_ATTACKS)
      /\ (forall name, In name (keys bugs) -> In name LIST_OF_BUGS).
Proof.
  assert (H1 : contains "Cannot reach the Server" "Heartbleed : true" = false)
    by (vm_compute; reflexivity).
  assert (H2 : contains "Server does not seem to support SSL"
                        "Heartbleed : true" = false)
    by (vm_compute; reflexivity).
  split; [exact H1|]. split; [exact H2|].
  exact (report_decoder_true_entries "Heartbleed : true" H1 H2).
Defined.

(** The values the decoder tells apart, and the entry with escaped
    parentheses. *)
Lemma report_decoder_examples :
  _parse_attacks "Heartbleed : true
CRIME : false
Logjam : True
DROWN : TRUE
Breach : 1
Sweet 32 : trueish
EarlyCcs : false
EarlyCcs : true
CS Length Intolerant (>512 Byte) : true"
  = Parsed [("Heartbleed", VTrue)]
           [("CS Length Intolerant \(>512 Byte\)", VTrue)]
  /\ _parse_attacks "CS Length Intolerant \(>512 Byte\) : true" = Parsed [] []
  /\ _parse_attacks "Server does not seem to support SSL" = ParseError.
Proof. vm_compute. auto. Qed.

(** ** Counting (C4, C5) *)

(** How many elements of [l] equal [x]. *)
Definition occurrences (x : atom) (l : list atom) : nat :=
  List.length (filter (atom_eqb x) l).

Lemma occurrences_app (x : atom) (l1 l2 : list atom) :
  occurrences x (l1 ++ l2) = occurrences x l1 + occurrences x l2.
Proof. unfold occurrences. now rewrite filter_app, length_app. Qed.

Lemma atom_eqb_false_sym (x y : atom) :
  atom_eqb x y = false -> atom_eqb y x = false.
Proof. now rewrite atom_eqb_sym. Qed.


(** A table that counts [seen]: distinct keys, each with the number of
    its occurrences, and a key for everything seen. *)
Record counts (c : table) (seen : list atom) : Prop := {
  counts_distinct : distinct (keys c);
  counts_entries : forall k n, In (k, n) c -> n = occurrences k seen;
  counts_cover : forall x, In x seen ->
                           exists k, In k (keys c) /\ atom_eqb k x = true
}.

Lemma dict_get_atom_none {V} (c : dict atom V) (x : atom) :
  dict_get atom_eqb c x = None <->
  forall k, In k (keys c) -> atom_eqb k x = false.
Proof.
  unfold keys. induction c as [|[k n] c IH]; simpl.
  - split; auto. intros _ k [].
  - destruct (atom_eqb k x) eqn:E.
    + split; [discriminate|]. intros H.
      specialize (H k (or_introl eq_refl)). congruence.
    + rewrite IH. split.
      * intros H k2 [<-|Hk2]; auto.
      * intros H k2 Hk2. apply H. auto.
Qed.

Lemma dict_set_atom_new {V} (c : dict atom V) (x : atom) (v : V) :
  (forall k, In k (keys c) -> atom_eqb k x = false) ->
  dict_set atom_eqb c x v = c ++ [(x, v)].
Proof.
  unfold keys. induction c as [|[k n] c IH]; simpl; intros H; auto.
  rewrite (H k) by auto. rewrite IH; auto.
Qed.

Lemma distinct_snoc (l : list atom) (x : atom) :
  distinct l -> (forall k, In k l -> atom_eqb k x = false) ->
  distinct (l ++ [x]).
Proof.
  induction 1 as [|y l Hy Hd IH]; simpl; intros Hx.
  - constructor; [intros ? []|constructor].
  - constructor.
    + intros z Hz. apply in_app_or in Hz. destruct Hz as [Hz|[<-|[]]]; auto.
    + apply IH. auto.
Qed.

Lemma occurrences_none (x : atom) (l : list atom) :
  (forall y, In y l -> atom_eqb x y = false) -> occurrences x l = 0.
Proof.
  unfold occurrences. induction l as [|y l IH]; simpl; intros H; auto.
  rewrite (H y) by auto. apply IH. auto.
Qed.

Lemma occurrences_one (x y : atom) :
  occurrences x [y] = if atom_eqb x y then 1 else 0.
Proof. unfold occurrences. simpl. now destruct (atom_eqb x y). Qed.

Lemma dict_set_atom_found {V} (c : dict atom V) (x : atom) (v0 v : V) :
  dict_get atom_eqb c x = Some v0 ->
  exists c1 k0 c2,
    c = c1 ++ (k0, v0) :: c2
    /\ atom_eqb k0 x = true
    /\ (forall k, In k (keys c1) -> atom_eqb k x = false)
    /\ dict_set atom_eqb c x v = c1 ++ (k0, v) :: c2.
Proof.
  induction c as [|[k n] c IH]; simpl; [discriminate|].
  destruct (atom_eqb k x) eqn:E.
  - intros [= ->]. exists [], k, c. repeat split; auto. intros ? [].
  - intros H. destruct (IH H) as (c1 & k0 & c2 & -> & Hk0 & Hc1 & Hset).
    exists ((k, n) :: c1), k0, c2. repeat split; auto.
    + intros k2 [<-|Hk2]; auto.
    + simpl. now rewrite Hset.
Qed.

Lemma distinct_app_inv (l1 l2 : list atom) (x y : atom) :
  distinct (l1 ++ x :: l2) -> In y l2 -> atom_eqb x y = false.
Proof.
  induction l1 as [|z l1 IH]; simpl; intros H Hy; inversion H; subst; auto.
Qed.

Lemma count_one_counts (c : table) (seen : list atom) (x : atom) :
  counts c seen -> counts (count_one c x) (seen ++ [x]).
Proof.
  intros [Hd He Hc]. unfold count_one.
  destruct (dict_get atom_eqb c x) as [n0|] eqn:Eg.
  - destruct (dict_set_atom_found c x n0 (S n0) Eg)
      as (c1 & k0 & c2 & -> & Hk0 & Hc1 & ->).
    assert (Hkeys : keys (c1 ++ (k0, S n0) :: c2) = keys (c1 ++ (k0, n0) :: c2)).
    { unfold keys. now rewrite !map_app. }
    constructor.
    + now rewrite Hkeys.
    + intros k n Hin. rewrite occurrences_app, occurrences_one.
      apply in_app_or in Hin. destruct Hin as [Hin|[Hin|Hin]].
      * rewrite (Hc1 k).
        -- rewrite Nat.add_0_r. apply He. apply in_or_app. auto.
        -- unfold keys. apply in_map_iff. now exists (k, n).
      * injection Hin as <- <-. rewrite Hk0.
        rewrite (He k0 n0) at 1; [lia|]. apply in_or_app. simpl. auto.
      * assert (Hk : atom_eqb k x = false).
        { destruct (atom_eqb k x) eqn:E; auto.
          assert (Hc2 : atom_eqb k0 k = false).
          { unfold keys in Hd. rewrite map_app in Hd. simpl in Hd.
            apply (distinct_app_inv _ _ _ _ Hd).
            apply in_map_iff. now exists (k, n). }
          rewrite <- Hc2. symmetry.
          apply atom_eqb_trans with x; auto. now rewrite atom_eqb_sym. }
        rewrite Hk, Nat.add_0_r. apply He. apply in_or_app. simpl. auto.
    + rewrite Hkeys. intros y Hy. apply in_app_or in Hy.
      destruct Hy as [Hy|[<-|[]]]; auto.
      exists k0. split; auto.
      unfold keys. rewrite map_app. apply in_or_app. simpl. auto.
  - pose proof (proj1 (dict_get_atom_none c x) Eg) as Hnone.
    rewrite dict_set_atom_new by assumption.
    constructor.
    + rewrite keys_app. simpl. now apply distinct_snoc.
    + intros k n Hin. rewrite occurrences_app, occurrences_one.
      apply in_app_or in Hin. destruct Hin as [Hin|[Hin|[]]].
      * rewrite (Hnone k).
        -- rewrite Nat.add_0_r. now apply He.
        -- unfold keys. apply in_map_iff. now exists (k, n).
      * injection Hin as <- <-. rewrite atom_eqb_refl.
        rewrite occurrences_none; auto.
        intros y Hy. destruct (Hc y Hy) as (k & Hk & Hky).
        destruct (atom_eqb x y) eqn:E; auto.
        rewrite <- (Hnone k Hk). symmetry.
        apply atom_eqb_trans with y; auto. now rewrite atom_eqb_sym.
    + intros y Hy. rewrite keys_app. apply in_app_or in Hy.
      destruct Hy as [Hy|[<-|[]]].
      * destruct (Hc y Hy) as (k & Hk & Hky). exists k. split; auto.
        apply in_or_app. auto.
      * exists x. split; [apply in_or_app; simpl; auto|apply atom_eqb_refl].
Qed.

Lemma fold_count_counts (items : list atom) :
  forall c seen, counts c seen ->
                 counts (fold_left count_one items c) (seen ++ items).
Proof.
  induction items as [|x items IH]; intros c seen H; simpl.
  - now rewrite app_nil_r.
  - replace (seen ++ x :: items) with ((seen ++ [x]) ++ items)
      by now rewrite <- app_assoc.
    apply IH. now apply count_one_counts.
Qed.

Lemma counts_nil : counts [] [].
Proof. constructor; simpl; [constructor|tauto|tauto]. Qed.

Lemma distinct_insert (before : atom * nat -> atom * nat -> bool)
      (x : atom * nat) (t : table) :
  distinct (keys (x :: t)) -> distinct (keys (insert before x t)).
Proof.
  induction t as [|y t IH]; simpl; auto.
  intros H. destruct (before y x); auto.
  inversion H as [|? ? Hx Hd]; subst. inversion Hd as [|? ? Hy Hd2]; subst.
  simpl. constructor.
  - intros z Hz. change (In z (keys (insert before x t))) in Hz.
    unfold keys in Hz. apply in_map_iff in Hz. destruct Hz as (e & <- & He).
    apply insert_in in He. destruct He as [->|He].
    + apply atom_eqb_false_sym. apply Hx. simpl. auto.
    + apply Hy. apply in_map_iff. now exists e.
  - apply IH. simpl. constructor; auto.
    intros z Hz. apply Hx. simpl. auto.
Qed.

Lemma distinct_sorted (before : atom * nat -> atom * nat -> bool) (t : table) :
  distinct (keys t) -> distinct (keys (sorted before t)).
Proof.
  induction t as [|x t IH]; simpl; auto.
  intros H. apply distinct_insert. simpl.
  inversion H as [|? ? Hx Hd]; subst. constructor; auto.
  intros z Hz. unfold keys in Hz. apply in_map_iff in Hz.
  destruct Hz as (e & <- & He). apply sorted_in in He.
  apply Hx. apply in_map_iff. now exists e.
Qed.

(** The table of a field counts that field's entries. *)
Lemma frequency_table_counts (items : list atom) :
  counts (sorted by_count_desc (fold_left count_one items [])) items.
Proof.
  destruct (fold_count_counts items [] [] counts_nil) as [Hd He Hc].
  simpl in *. constructor.
  - now apply distinct_sorted.
  - intros k n Hin. apply He. now apply sorted_in in Hin.
  - intros x Hx. destruct (Hc x Hx) as (k & Hk & Hkx). exists k. split; auto.
    unfold keys in *. apply in_map_iff in Hk. destruct Hk as (e & <- & He').
    apply in_map_iff. exists e. split; auto. now apply sorted_in.
Qed.

(** ** Sets of strings *)

Lemma set_iter_strings (so : SetOrder) (l : list string) (a : atom) :
  In a (set_iter so (map AStr l)) -> exists s, a = AStr s /\ In s l.
Proof.
  intros H. apply set_iter_sound in H. apply in_map_iff in H.
  destruct H as (s & <- & Hs). eauto.
Qed.

Lemma list_set_str_in (so : SetOrder) (l : list string) (s : string) :
  In s (list_set_str so l) <-> In s l.
Proof.
  unfold list_set_str. split.
  - intros H. apply in_map_iff in H. destruct H as (a & <- & Ha).
    destruct (set_iter_strings so l a Ha) as (s' & -> & Hs'). exact Hs'.
  - intros H.
    destruct (set_iter_complete so (map AStr l) (AStr s)) as (y & Hy & Heq).
    { now apply in_map. }
    destruct (set_iter_strings so l y Hy) as (s' & -> & _).
    rewrite atom_eqb_str in Heq. apply String.eqb_eq in Heq. subst s'.
    apply in_map_iff. now exists (AStr s).
Qed.

Lemma distinct_strings_nodup (l : list atom) :
  distinct l -> (forall a, In a l -> exists s, a = AStr s) ->
  NoDup (map as_str l).
Proof.
  induction 1 as [|x l Hx Hd IH]; simpl; intros Hs; constructor.
  - intros Hin. apply in_map_iff in Hin. destruct Hin as (y & Hy & Hyl).
    destruct (Hs x) as (sx & ->); auto.
    destruct (Hs y) as (sy & ->); auto.
    simpl in Hy. subst sy.
    specialize (Hx (AStr sx) Hyl). now rewrite atom_eqb_refl in Hx.
  - apply IH. auto.
Qed.

Lemma list_set_str_nodup (so : SetOrder) (l : list string) :
  NoDup (list_set_str so l).
Proof.
  unfold list_set_str. apply distinct_strings_nodup.
  - apply set_iter_distinct.
  - intros a Ha. destruct (set_iter_strings so l a Ha) as (s & -> & _). eauto.
Qed.

(** ** The grouped report as a function of the result map *)

Definition ip_port_text (host : HostRecord) : string :=
  match ip host with
  | Some i => (i ++ ":" ++ port host)%string
  | None => ""
  end.

Definition of_vendor (v : string) (host : HostRecord) : bool :=
  String.eqb (vendor host) v.

Definition of_product (v p : string) (host : HostRecord) : bool :=
  String.eqb (vendor host) v && String.eqb (product host) p.

Definition product_entry (with_attack : list HostRecord) (v p : string)
  : string * product_info :=
  (p, mkInfo (map ip_port_text (filter (of_product v p) with_attack))
             (List.length (filter (of_product v p) with_attack))).

Definition products_of (so : SetOrder) (with_attack : list HostRecord)
           (v : string) : sdict product_info :=
  map (product_entry with_attack v)
      (list_set_str so (map product (filter (of_vendor v) with_attack))).

Definition vendors_of (so : SetOrder) (with_attack : list HostRecord)
  : sdict (sdict product_info) :=
  map (fun v => (v, products_of so with_attack v))
      (list_set_str so (map vendor with_attack)).

Definition grouped_of (so : SetOrder) (results : results_t)
           (attack_names : list atom) : grouped_t :=
  map (fun attack =>
         (attack, vendors_of so (filter (has_attack attack) (values results))))
      attack_names.

Lemma mapM_ip_port_ok (hosts : list HostRecord) :
  (forall host, In host hosts -> ip host <> None) ->
  mapM ip_port hosts = Ok (map ip_port_text hosts).
Proof.
  intros H. apply mapM_ok. intros host Hin.
  unfold ip_port, ip_port_text. specialize (H host Hin).
  now destruct (ip host).
Qed.

Lemma mapM_each {A B} (f : A -> result B) (l : list A) (ys : list B) :
  mapM f l = Ok ys -> forall x, In x l -> exists y, f x = Ok y.
Proof.
  revert ys. induction l as [|a l IH]; simpl; intros ys H x Hx; [tauto|].
  destruct (f a) as [y|e] eqn:Ef; [|discriminate]. cbn [bind] in H.
  destruct (mapM f l) as [ys'|e] eqn:Em; [|discriminate].
  destruct Hx as [<-|Hx]; eauto.
Qed.

Lemma mapM_raises {A B} (f : A -> result B) (l : list A) (e0 e : exn) :
  (forall x e', f x = Raise e' -> e' = e0) -> mapM f l = Raise e -> e = e0.
Proof.
  intros Hf. induction l as [|a l IH]; simpl; [discriminate|].
  destruct (f a) as [y|e'] eqn:Ef; cbn [bind].
  - destruct (mapM f l) as [ys|e'']; cbn [bind]; [discriminate|].
    intros [= <-]. now apply IH.
  - intros [= <-]. now apply Hf in Ef.
Qed.

Lemma foldM_each {A B} (f : B -> A -> result B) (l : list A) :
  forall b b', foldM f l b = Ok b' ->
               forall x, In x l -> exists b1 b2, f b1 x = Ok b2.
Proof.
  induction l as [|a l IH]; simpl; intros b b' H x Hx; [tauto|].
  destruct (f b a) as [b1|e] eqn:Ef; [|discriminate]. cbn [bind] in H.
  destruct Hx as [<-|Hx]; eauto.
Qed.

Lemma foldM_raises {A B} (f : B -> A -> result B) (l : list A) (e0 : exn) :
  (forall b x e', f b x = Raise e' -> e' = e0) ->
  forall b e, foldM f l b = Raise e -> e = e0.
Proof.
  intros Hf. induction l as [|a l IH]; simpl; intros b e; [discriminate|].
  destruct (f b a) as [b1|e'] eqn:Ef; cbn [bind].
  - apply IH.
  - intros [= <-]. now apply Hf in Ef.
Qed.

Lemma group_product_ok (with_attack : list HostRecord) (v : string)
      (products : sdict product_info) (p : string) :
  (forall host, In host with_attack -> ip host <> None) ->
  sget products p = None ->
  group_product with_attack v products p
  = Ok (products ++ [product_entry with_attack v p]).
Proof.
  intros Hip Hnew. unfold group_product.
  change (fun host => String.eqb (vendor host) v && String.eqb (product host) p)
    with (of_product v p).
  rewrite mapM_ip_port_ok.
  - cbn [bind sorted fold_right insert]. rewrite supdate_one.
    rewrite sset_absent by assumption. now rewrite length_map.
  - intros host Hin. apply filter_In in Hin. apply Hip, Hin.
Qed.

Lemma fold_products_ok (with_attack : list HostRecord) (v : string)
      (ps : list string) :
  (forall host, In host with_attack -> ip host <> None) ->
  NoDup ps ->
  forall products,
    (forall p, In p ps -> sget products p = None) ->
    foldM (group_product with_attack v) ps products
    = Ok (products ++ map (product_entry with_attack v) ps).
Proof.
  intros Hip. induction 1 as [|p ps Hp Hnd IH]; intros products Hnew; simpl.
  - now rewrite app_nil_r.
  - rewrite group_product_ok by (auto; apply Hnew; simpl; auto). cbn [bind].
    rewrite IH.
    + now rewrite <- app_assoc.
    + intros p' Hp'. unfold product_entry.
      rewrite sget_app_new by (apply Hnew; simpl; auto).
      destruct (String.eqb_spec p p') as [->|]; [contradiction|].
      apply Hnew. simpl. auto.
Qed.

Lemma group_vendor_ok (so : SetOrder) (with_attack : list HostRecord)
      (vendors : sdict (sdict product_info)) (v : string) :
  (forall host, In host with_attack -> ip host <> None) ->
  sget vendors v = None ->
  group_vendor so with_attack vendors v
  = Ok (vendors ++ [(v, products_of so with_attack v)]).
Proof.
  intros Hip Hnew. unfold group_vendor.
  change (fun host => String.eqb (vendor host) v) with (of_vendor v).
  rewrite fold_products_ok; auto using list_set_str_nodup.
  cbn [bind app]. rewrite supdate_one. now rewrite sset_absent.
Qed.

Lemma fold_vendors_ok (so : SetOrder) (with_attack : list HostRecord)
      (vs : list string) :
  (forall host, In host with_attack -> ip host <> None) ->
  NoDup vs ->
  forall vendors,
    (forall v, In v vs -> sget vendors v = None) ->
    foldM (group_vendor so with_attack) vs vendors
    = Ok (vendors ++ map (fun v => (v, products_of so with_attack v)) vs).
Proof.
  intros Hip. induction 1 as [|v vs Hv Hnd IH]; intros vendors Hnew; simpl.
  - now rewrite app_nil_r.
  - rewrite group_vendor_ok by (auto; apply Hnew; simpl; auto). cbn [bind].
    rewrite IH.
    + now rewrite <- app_assoc.
    + intros v' Hv'. rewrite sget_app_new by (apply Hnew; simpl; auto).
      destruct (String.eqb_spec v v') as [->|]; [contradiction|].
      apply Hnew. simpl. auto.
Qed.

Lemma has_attack_nonempty (attack : atom) (host : HostRecord) :
  has_attack attack host = true -> names_items (attacks host) <> [].
Proof.
  unfold has_attack. now destruct (names_items (attacks host)).
Qed.

Lemma group_attack_ok (so : SetOrder) (results : results_t)
      (groupped_results : grouped_t) (attack : atom) :
  (forall host, In host (values results) ->
                names_items (attacks host) <> [] -> ip host <> None) ->
  (forall k, In k (keys groupped_results) -> atom_eqb k attack = false) ->
  group_attack so results groupped_results attack
  = Ok (groupped_results ++ grouped_of so results [attack]).
Proof.
  intros Hip Hnew. unfold group_attack.
  rewrite fold_vendors_ok; auto using list_set_str_nodup.
  - cbn [bind app]. unfold dict_update. cbn [fold_left fst snd].
    now rewrite dict_set_atom_new.
  - intros host Hin. apply filter_In in Hin. destruct Hin as [Hin Hat].
    apply Hip; auto. eapply has_attack_nonempty; eauto.
Qed.

Lemma fold_attacks_ok (so : SetOrder) (results : results_t)
      (attack_names : list atom) :
  (forall host, In host (values results) ->
                names_items (attacks host) <> [] -> ip host <> None) ->
  distinct attack_names ->
  forall groupped_results,
    (forall k a, In k (keys groupped_results) -> In a attack_names ->
                 atom_eqb k a = false) ->
    foldM (group_attack so results) attack_names groupped_results
    = Ok (groupped_results ++ grouped_of so results attack_names).
Proof.
  intros Hip. induction 1 as [|a l Ha Hd IH]; intros g Hnew; simpl.
  - now rewrite app_nil_r.
  - rewrite group_attack_ok; auto.
    + cbn [bind]. rewrite IH.
      * now rewrite <- app_assoc.
      * intros k a' Hk Ha'. rewrite keys_app in Hk.
        apply in_app_or in Hk.
        destruct Hk as [Hk|[<-|[]]]; [apply Hnew; simpl; auto|apply Ha, Ha'].
    + intros k Hk. apply Hnew; simpl; auto.
Qed.

(** The attacks table, whatever shape the field has. *)
Definition attack_table (results : results_t) : table :=
  sorted by_count_desc
    (fold_left count_one
       (List.concat (map (fun host => field_items host "attacks")
                         (values results))) []).

Lemma group_results_ok (so : SetOrder) (results : results_t) :
  (forall host, In host (values results) ->
                names_items (attacks host) <> [] -> ip host <> None) ->
  group_results so results
  = Ok (grouped_of so results (keys (attack_table results))).
Proof.
  intros Hip. unfold group_results.
  rewrite flatten_field by (simpl; auto). cbn [bind].
  rewrite Counter_atoms. cbn [bind].
  rewrite fold_attacks_ok; auto.
  - apply (counts_distinct _ _ (frequency_table_counts _)).
  - intros k a [].
Qed.

(** ** Every host is counted once *)

Lemma list_sum_map_add {A} (a b : A -> nat) (l : list A) :
  list_sum (map (fun x => a x + b x) l)
  = list_sum (map a l) + list_sum (map b l).
Proof. induction l as [|x l IH]; simpl; lia. Qed.

Lemma list_sum_map_zero {A} (l : list A) : list_sum (map (fun _ => 0) l) = 0.
Proof. induction l; simpl; auto. Qed.

Lemma hits_absent (ks : list string) (x : string) :
  ~ In x ks -> list_sum (map (fun k => if String.eqb x k then 1 else 0) ks) = 0.
Proof.
  induction ks as [|k ks IH]; simpl; intros H; auto.
  destruct (String.eqb_spec x k) as [->|]; [tauto|]. apply IH. tauto.
Qed.

Lemma hits_once (ks : list string) (x : string) :
  NoDup ks -> In x ks ->
  list_sum (map (fun k => if String.eqb x k then 1 else 0) ks) = 1.
Proof.
  induction 1 as [|k ks Hk Hnd IH]; simpl; intros Hin; [tauto|].
  destruct (String.eqb_spec x k) as [->|Hne].
  - now rewrite hits_absent.
  - apply IH. destruct Hin; congruence.
Qed.

(** Classes under distinct labels that cover a list add up to the list. *)
Lemma partition_sizes {A} (f : A -> string) (ks : list string) (l : list A) :
  NoDup ks -> (forall x, In x l -> In (f x) ks) ->
  list_sum (map (fun k => List.length (filter (fun x => String.eqb (f x) k) l)) ks)
  = List.length l.
Proof.
  intros Hnd. induction l as [|x l IH]; intros Hcover; simpl.
  - apply list_sum_map_zero.
  - rewrite <- IH by (intros; apply Hcover; simpl; auto).
    rewrite <- Nat.add_1_l.
    rewrite <- (hits_once ks (f x) Hnd) by (apply Hcover; simpl; auto).
    rewrite <- list_sum_map_add. f_equal. apply map_ext. intros k.
    now destruct (String.eqb (f x) k).
Qed.

Lemma filter_filter {A} (f g : A -> bool) (l : list A) :
  filter g (filter f l) = filter (fun x => f x && g x) l.
Proof.
  induction l as [|x l IH]; simpl; auto.
  destruct (f x); simpl; [destruct (g x)|]; now rewrite IH.
Qed.

Lemma products_of_total (so : SetOrder) (with_attack : list HostRecord)
      (v : string) :
  list_sum (map quantity (values (products_of so with_attack v)))
  = List.length (filter (of_vendor v) with_attack).
Proof.
  unfold products_of, values. rewrite !map_map. cbn [product_entry snd quantity].
  rewrite <- (partition_sizes product
                (list_set_str so (map product (filter (of_vendor v) with_attack)))
                (filter (of_vendor v) with_attack)).
  - f_equal. apply map_ext. intros p. now rewrite filter_filter.
  - apply list_set_str_nodup.
  - intros host Hin. apply list_set_str_in. now apply in_map.
Qed.

Lemma vendors_of_total (so : SetOrder) (with_attack : list HostRecord) :
  list_sum (map (fun by_vendor => list_sum (map quantity (values (snd by_vendor))))
                (vendors_of so with_attack))
  = List.length with_attack.
Proof.
  unfold vendors_of. rewrite map_map. cbn [snd].
  rewrite <- (partition_sizes vendor (list_set_str so (map vendor with_attack))
                              with_attack).
  - f_equal. apply map_ext. intros v. apply products_of_total.
  - apply list_set_str_nodup.
  - intros host Hin. apply list_set_str_in. now apply in_map.
Qed.

Lemma occurrences_concat {A} (x : atom) (g : A -> list atom) (l : list A) :
  occurrences x (List.concat (map g l))
  = list_sum (map (fun y => occurrences x (g y)) l).
Proof.
  induction l as [|y l IH]; simpl; auto.
  now rewrite occurrences_app, IH.
Qed.

Lemma occurrences_names (x : atom) (l : list string) :
  NoDup l ->
  occurrences x (map AStr l)
  = if existsb (fun name => atom_eqb x (AStr name)) l then 1 else 0.
Proof.
  induction 1 as [|a l Ha Hnd IH]; auto.
  change (map AStr (a :: l)) with ([AStr a] ++ map AStr l).
  rewrite occurrences_app, occurrences_one. cbn [existsb].
  destruct (atom_eqb x (AStr a)) eqn:E; cbn [orb].
  - rewrite occurrences_none; auto.
    intros y Hy. apply in_map_iff in Hy. destruct Hy as (b & <- & Hb).
    destruct (atom_eqb x (AStr b)) eqn:E2; auto.
    assert (Hab : atom_eqb (AStr a) (AStr b) = true).
    { apply atom_eqb_trans with x; auto. now rewrite atom_eqb_sym. }
    rewrite atom_eqb_str in Hab. apply String.eqb_eq in Hab. congruence.
  - exact IH.
Qed.

Lemma count_filter {A} (f : A -> bool) (l : list A) :
  list_sum (map (fun x => if f x then 1 else 0) l) = List.length (filter f l).
Proof.
  induction l as [|x l IH]; simpl; auto. destruct (f x); simpl; lia.
Qed.

Lemma attack_occurrences (results : results_t) (attack : atom) :
  (forall host, In host (values results) ->
                NoDup (names_items (attacks host))) ->
  occurrences attack
    (List.concat (map (fun host => field_items host "attacks") (values results)))
  = List.length (filter (has_attack attack) (values results)).
Proof.
  intros Hnd. rewrite occurrences_concat, <- count_filter.
  apply f_equal. apply map_ext_in. intros host Hin.
  unfold field_items, has_attack. cbn [String.eqb Ascii.eqb Bool.eqb].
  now apply occurrences_names, Hnd.
Qed.

Lemma filter_split_perm {A} (p : A -> bool) (l : list A) :
  Permutation l (filter p l ++ filter (fun x => negb (p x)) l).
Proof.
  induction l as [|x l IH]; simpl; auto.
  destruct (p x); simpl.
  - now constructor.
  - rewrite IH at 1. apply Permutation_middle.
Qed.

(** Classes under distinct labels that cover a list rearrange the list. *)
Lemma partition_perm {A} (f : A -> string) (ks : list string) :
  NoDup ks ->
  forall l, (forall x, In x l -> In (f x) ks) ->
            Permutation
              (List.concat (map (fun k => filter (fun x => String.eqb (f x) k) l) ks))
              l.
Proof.
  induction 1 as [|k ks Hk Hnd IH]; intros l Hcover; simpl.
  - destruct l as [|x l]; auto. destruct (Hcover x). simpl. auto.
  - eapply Permutation_trans;
      [|apply Permutation_sym,
          (filter_split_perm (fun x => String.eqb (f x) k) l)].
    apply Permutation_app_head.
    eapply Permutation_trans;
      [|apply (IH (filter (fun x => negb (String.eqb (f x) k)) l))].
    + apply Permutation_refl'. f_equal. apply map_ext_in. intros k' Hk'.
      rewrite filter_filter. apply filter_ext. intros x.
      destruct (String.eqb_spec (f x) k'), (String.eqb_spec (f x) k);
        simpl; auto. congruence.
    + intros x Hx. apply filter_In in Hx. destruct Hx as [Hx Hne].
      destruct (Hcover x Hx) as [Heq|Hin]; auto.
      rewrite <- Heq, String.eqb_refl in Hne. discriminate.
Qed.

Lemma concat_map_perm {A B} (f g : A -> list B) (l : list A) :
  (forall x, In x l -> Permutation (f x) (g x)) ->
  Permutation (List.concat (map f l)) (List.concat (map g l)).
Proof.
  induction l as [|x l IH]; simpl; intros H; auto.
  apply Permutation_app; auto.
Qed.

Lemma products_of_ips (so : SetOrder) (with_attack : list HostRecord)
      (v : string) :
  Permutation (List.concat (map ips (values (products_of so with_attack v))))
              (map ip_port_text (filter (of_vendor v) with_attack)).
Proof.
  unfold products_of, values. rewrite !map_map. cbn [product_entry snd ips].
  rewrite concat_map_map. apply Permutation_map.
  rewrite <- (partition_perm product
                (list_set_str so (map product (filter (of_vendor v) with_attack)))
                (list_set_str_nodup so _)
                (filter (of_vendor v) with_attack)) at 2.
  - apply Permutation_refl'. f_equal. apply map_ext. intros p.
    now rewrite filter_filter.
  - intros host Hin. apply list_set_str_in. now apply in_map.
Qed.

Lemma vendors_of_ips (so : SetOrder) (with_attack : list HostRecord) :
  Permutation
    (List.concat (map (fun by_vendor => List.concat (map ips (values (snd by_vendor))))
                      (vendors_of so with_attack)))
    (map ip_port_text with_attack).
Proof.
  unfold vendors_of. rewrite map_map. cbn [snd].
  rewrite (concat_map_perm _ (fun v => map ip_port_text (filter (of_vendor v) with_attack)))
    by (intros; apply products_of_ips).
  rewrite concat_map_map. apply Permutation_map.
  apply (partition_perm vendor _ (list_set_str_nodup so _)).
  intros host Hin. apply list_set_str_in. now apply in_map.
Qed.

(** An attack of the grouped report with the sum of its vendor totals. *)
Definition attack_total (by_attack : atom * sdict (sdict product_info))
  : atom * nat :=
  (fst by_attack,
   list_sum
     (map (fun by_vendor =>
             row_quantity (vendor_total_row (fst by_attack) (fst by_vendor)
                                            (snd by_vendor)))
          (snd by_attack))).

Lemma grouped_totals (so : SetOrder) (results : results_t) :
  (forall host, In host (values results) ->
                NoDup (names_items (attacks host))) ->
  map attack_total (grouped_of so results (keys (attack_table results)))
  = attack_table results.
Proof.
  intros Hnd. unfold grouped_of, keys. rewrite !map_map.
  rewrite <- (map_id (attack_table results)) at 2.
  apply map_ext_in. intros [attack n] Hin.
  unfold attack_total. cbn [fst snd vendor_total_row row_quantity].
  rewrite vendors_of_total. f_equal.
  rewrite <- attack_occurrences by assumption.
  symmetry.
  apply (counts_entries _ _ (frequency_table_counts _) attack n Hin).
Qed.

(** ** What [save_results_csv] leaves in the map (C10) *)

(** A record as [save_results_csv] leaves it. *)
Definition csv_view (ip_key : string) (host : HostRecord) : HostRecord :=
  mkHost (vendor host) (product host) (port host)
         (AsList (names_items (attacks host)))
         (AsList (names_items (bugs host)))
         (vulnerabilities host) (Some ip_key).

Definition csv_mutated (results : results_t) : results_t :=
  map (fun item => (fst item, csv_view (fst item) (snd item))) results.

(** The two fields are still the decoder's mappings. *)
Definition has_mappings (host : HostRecord) : Prop :=
  exists a b, attacks host = AsDict a /\ bugs host = AsDict b.

Lemma csv_record_ok (ip_key : string) (host : HostRecord) :
  has_mappings host -> csv_record ip_key host = Ok (csv_view ip_key host).
Proof.
  intros (a & b & Ha & Hb). unfold csv_record, csv_view.
  cbn [attacks bugs vendor product port vulnerabilities ip].
  rewrite Ha, Hb. reflexivity.
Qed.

Definition write_views (items : list (string * HostRecord)) (store : results_t)
  : results_t :=
  fold_left (fun st item => sset st (fst item) (csv_view (fst item) (snd item)))
            items store.

Lemma csv_records_ok (items : list (string * HostRecord)) :
  (forall item, In item items -> has_mappings (snd item)) ->
  forall store,
    csv_records items store
    = Ok (map (fun item => csv_view (fst item) (snd item)) items,
          write_views items store).
Proof.
  induction items as [|[k h] items IH]; intros Hm store; simpl; auto.
  rewrite csv_record_ok by (apply (Hm (k, h)); simpl; auto). cbn [bind].
  rewrite IH by (intros; apply Hm; simpl; auto). reflexivity.
Qed.

Lemma write_views_spec (items : list (string * HostRecord)) :
  NoDup (keys items) ->
  forall store,
    (forall k, In k (keys items) -> sget store k <> None) ->
    keys (write_views items store) = keys store
    /\ forall q,
        sget (write_views items store) q =
        match sget items q with
        | Some h => Some (csv_view q h)
        | None => sget store q
        end.
Proof.
  unfold write_views.
  induction items as [|[k h] items IH]; intros Hnd store Hin; simpl.
  - auto.
  - inversion Hnd as [|? ? Hk Hnd']; subst.
    destruct (IH Hnd' (sset store k (csv_view k h))) as [Hkeys Hget].
    + intros q Hq. destruct (String.eqb_spec k q) as [->|Hd].
      * rewrite sget_sset_same. discriminate.
      * rewrite sget_sset_other by assumption. apply Hin. simpl. auto.
    + split.
      * rewrite Hkeys. apply keys_sset_present. apply Hin. simpl. auto.
      * intros q. rewrite Hget. unfold sget at 3. cbn [dict_get].
        fold (sget items q).
        destruct (String.eqb_spec k q) as [->|Hd].
        -- assert (Hn : sget items q = None) by now apply sget_none_iff.
           rewrite Hn. apply sget_sset_same.
        -- destruct (sget items q); auto. now apply sget_sset_other.
Qed.

Lemma insert_perm {A} (before : A -> A -> bool) (x : A) (l : list A) :
  Permutation (insert before x l) (x :: l).
Proof.
  induction l as [|y l IH]; simpl; auto.
  destruct (before y x); auto.
  rewrite IH. apply perm_swap.
Qed.

Lemma sorted_perm {A} (before : A -> A -> bool) (l : list A) :
  Permutation (sorted before l) l.
Proof.
  induction l as [|x l IH]; simpl; auto.
  rewrite insert_perm. now constructor.
Qed.

Lemma sget_iff_in {V} (d : sdict V) (k : string) (v : V) :
  NoDup (keys d) -> (sget d k = Some v <-> In (k, v) d).
Proof. intros H. split; [apply sget_in|now apply in_sget]. Qed.

Lemma sget_perm {V} (d1 d2 : sdict V) (k : string) :
  NoDup (keys d1) -> Permutation d1 d2 -> sget d1 k = sget d2 k.
Proof.
  intros Hnd Hp.
  assert (Hnd2 : NoDup (keys d2)).
  { eapply Permutation_NoDup; [|exact Hnd]. now apply Permutation_map. }
  destruct (sget d1 k) as [v|] eqn:E1.
  - symmetry. apply sget_iff_in; auto.
    eapply Permutation_in; [exact Hp|]. now apply sget_iff_in.
  - destruct (sget d2 k) as [v|] eqn:E2; auto.
    apply sget_iff_in in E2; auto.
    apply (Permutation_in _ (Permutation_sym Hp)) in E2.
    apply sget_iff_in in E2; auto. congruence.
Qed.

Lemma assoc_ext {V} (d1 : sdict V) :
  forall d2, NoDup (keys d1) -> keys d1 = keys d2 ->
             (forall k, sget d1 k = sget d2 k) -> d1 = d2.
Proof.
  induction d1 as [|[k v] d1 IH]; intros [|[k2 v2] d2] Hnd Hk Hg;
    try discriminate; auto.
  simpl in Hk. injection Hk as <- Hk.
  inversion Hnd as [|? ? Hnk Hnd']; subst.
  pose proof (Hg k) as Hgk. unfold sget in Hgk. simpl in Hgk.
  rewrite String.eqb_refl in Hgk. injection Hgk as <-.
  f_equal. apply IH; auto.
  intros q. specialize (Hg q).
  destruct (String.eqb_spec k q) as [Heq|Hd].
  - subst q.
    assert (H1 : sget d1 k = None) by now apply sget_none_iff.
    assert (H2 : sget d2 k = None).
    { apply sget_none_iff. unfold keys in *. now rewrite <- Hk. }
    congruence.
  - unfold sget in *. simpl in Hg.
    destruct (String.eqb_spec k q); [contradiction|exact Hg].
Qed.

Lemma sget_csv_mutated (results : results_t) (q : string) :
  sget (csv_mutated results) q =
  match sget results q with
  | Some h => Some (csv_view q h)
  | None => None
  end.
Proof.
  unfold sget, csv_mutated.
  induction results as [|[k h] results IH]; simpl; auto.
  destruct (String.eqb_spec k q) as [->|]; auto.
Qed.

Lemma keys_csv_mutated (results : results_t) :
  keys (csv_mutated results) = keys results.
Proof. unfold keys, csv_mutated. rewrite map_map. reflexivity. Qed.

Lemma save_results_csv_ok (results : results_t) (filename : string)
      (fs : file_system) :
  NoDup (keys results) ->
  (forall host, In host (values results) -> has_mappings host) ->
  save_results_csv results filename fs
  = (sset (sset fs (full_path filename) Opened) (full_path filename)
          (CsvRecords (map (fun item => csv_view (fst item) (snd item))
                           (sorted by_product results))),
     Ok (csv_mutated results)).
Proof.
  intros Hnd Hm. unfold save_results_csv, io_bind, io_write, io_lift, io_ret.
  pose proof (sorted_perm by_product results) as Hp.
  rewrite csv_records_ok.
  - cbn [fst snd]. f_equal. f_equal.
    destruct (write_views_spec (sorted by_product results)) with (store := results)
      as [Hkeys Hget].
    + eapply Permutation_NoDup; [|exact Hnd].
      apply Permutation_map. now apply Permutation_sym.
    + intros k Hk Hn. apply sget_none_iff in Hn. apply Hn.
      eapply Permutation_in; [|exact Hk]. now apply Permutation_map.
    + apply assoc_ext.
      * now rewrite Hkeys.
      * now rewrite Hkeys, keys_csv_mutated.
      * intros q. rewrite Hget, sget_csv_mutated.
        rewrite (sget_perm (sorted by_product results) results); auto.
        -- now destruct (sget results q).
        -- eapply Permutation_NoDup; [|exact Hnd].
           apply Permutation_map. now apply Permutation_sym.
  - intros item Hin. apply Hm. unfold values. apply in_map.
    eapply Permutation_in; eauto.
Qed.

(** ** The grouped report needs the ["ip"] key (C10) *)

Lemma ip_port_raises (host : HostRecord) (e : exn) :
  ip_port host = Raise e -> e = TypeError.
Proof. unfold ip_port. destruct (ip host); [discriminate|congruence]. Qed.

Lemma group_product_raises (with_attack : list HostRecord) (v : string)
      (products : sdict product_info) (p : string) (e : exn) :
  group_product with_attack v products p = Raise e -> e = TypeError.
Proof.
  unfold group_product.
  destruct (mapM ip_port _) as [l|e'] eqn:E; cbn [bind]; [discriminate|].
  intros [= <-]. eapply mapM_raises; [|exact E]. apply ip_port_raises.
Qed.

Lemma group_vendor_raises (so : SetOrder) (with_attack : list HostRecord)
      (vendors : sdict (sdict product_info)) (v : string) (e : exn) :
  group_vendor so with_attack vendors v = Raise e -> e = TypeError.
Proof.
  unfold group_vendor.
  destruct (foldM _ _ _) as [l|e'] eqn:E; cbn [bind]; [discriminate|].
  intros [= <-]. eapply foldM_raises; [|exact E].
  intros. eapply group_product_raises; eauto.
Qed.

Lemma group_attack_raises (so : SetOrder) (results : results_t)
      (groupped_results : grouped_t) (attack : atom) (e : exn) :
  group_attack so results groupped_results attack = Raise e -> e = TypeError.
Proof.
  unfold group_attack.
  destruct (foldM _ _ _) as [l|e'] eqn:E; cbn [bind]; [discriminate|].
  intros [= <-]. eapply foldM_raises; [|exact E].
  intros. eapply group_vendor_raises; eauto.
Qed.

Lemma group_results_raises (so : SetOrder) (results : results_t) (e : exn) :
  group_results so results = Raise e -> e = TypeError.
Proof.
  unfold group_results.
  rewrite flatten_field by (simpl; auto). cbn [bind].
  rewrite Counter_atoms. cbn [bind].
  apply foldM_raises. intros. eapply group_attack_raises; eauto.
Qed.

Lemma group_results_needs_ip (so : SetOrder) (results : results_t)
      (groupped_results : grouped_t) :
  group_results so results = Ok groupped_results ->
  forall host, In host (values results) ->
               names_items (attacks host) <> [] -> ip host <> None.
Proof.
  unfold group_results.
  rewrite flatten_field by (simpl; auto). cbn [bind].
  rewrite Counter_atoms. cbn [bind].
  intros Hok host Hin Hne.
  destruct (names_items (attacks host)) as [|name names] eqn:En; [congruence|].
  (* the attack [name] has a key in the table *)
  destruct (counts_cover _ _ (frequency_table_counts
              (List.concat (map (fun h => field_items h "attacks")
                                (values results)))) (AStr name))
    as (k & Hk & Hkn).
  { apply in_concat. exists (field_items host "attacks"). split.
    - apply in_map_iff. now exists host.
    - unfold field_items. cbn [String.eqb Ascii.eqb Bool.eqb].
      rewrite En. simpl. auto. }
  destruct (foldM_each _ _ _ _ Hok k Hk) as (g1 & g2 & Hatt).
  unfold group_attack in Hatt.
  destruct (foldM (group_vendor so (filter (has_attack k) (values results)))
                  _ _) as [vs|e] eqn:Ev; [|discriminate].
  assert (Hhost : In host (filter (has_attack k) (values results))).
  { apply filter_In. split; auto. unfold has_attack. rewrite En.
    simpl. now rewrite Hkn. }
  destruct (foldM_each _ _ _ _ Ev (vendor host)) as (v1 & v2 & Hven).
  { apply list_set_str_in. now apply in_map. }
  unfold group_vendor in Hven.
  destruct (foldM (group_product _ (vendor host)) _ _) as [ps|e] eqn:Ep;
    [|discriminate].
  destruct (foldM_each _ _ _ _ Ep (product host)) as (p1 & p2 & Hpro).
  { apply list_set_str_in. apply in_map. apply filter_In. split; auto.
    apply String.eqb_refl. }
  unfold group_product in Hpro.
  destruct (mapM ip_port _) as [l|e] eqn:Em; [|discriminate].
  destruct (mapM_each _ _ _ Em host) as [y Hy].
  { apply filter_In. split; auto. now rewrite !String.eqb_refl. }
  unfold ip_port in Hy. destruct (ip host); [discriminate|discriminate].
Qed.

Lemma group_results_without_ip (so : SetOrder) (results : results_t)
      (host : HostRecord) :
  In host (values results) -> names_items (attacks host) <> [] ->
  ip host = None ->
  group_results so results = Raise TypeError.
Proof.
  intros Hin Hne Hip.
  destruct (group_results so results) as [g|e] eqn:E.
  - exfalso. now apply (group_results_needs_ip so results g E host Hin Hne).
  - f_equal. eapply group_results_raises; eauto.
Qed.

(** Where the strings of the grouped report come from. *)
Lemma grouped_of_ips (so : SetOrder) (results : results_t)
      (attack_names : list atom) (attack : atom)
      (vendors : sdict (sdict product_info)) (v : string)
      (products : sdict product_info) (p : string) (info : product_info)
      (s : string) :
  In (attack, vendors) (grouped_of so results attack_names) ->
  In (v, products) vendors -> In (p, info) products -> In s (ips info) ->
  exists host,
    In host (values results) /\ has_attack attack host = true
    /\ vendor host = v /\ product host = p /\ s = ip_port_text host.
Proof.
  unfold grouped_of, vendors_of, products_of, product_entry.
  intros Ha Hv Hp Hs.
  apply in_map_iff in Ha. destruct Ha as (a & [= -> <-] & _).
  apply in_map_iff in Hv. destruct Hv as (v' & [= -> <-] & _).
  apply in_map_iff in Hp. destruct Hp as (p' & [= -> <-] & _).
  cbn [ips] in Hs. apply in_map_iff in Hs. destruct Hs as (host & <- & Hh).
  apply filter_In in Hh. destruct Hh as [Hh Hvp].
  apply filter_In in Hh. destruct Hh as [Hin Hat].
  unfold of_product in Hvp. apply andb_true_iff in Hvp.
  destruct Hvp as [Hv Hp]. apply String.eqb_eq in Hv, Hp.
  exists host. auto.
Qed.

Lemma values_csv_mutated (results : results_t) (host : HostRecord) :
  In host (values (csv_mutated results)) ->
  exists k h, In (k, h) results /\ host = csv_view k h.
Proof.
  unfold values, csv_mutated. rewrite map_map. cbn [snd fst].
  intros H. apply in_map_iff in H. destruct H as ([k h] & <- & Hin).
  exists k, h. auto.
Qed.

(** C10.  Over a map with distinct ips whose records still hold the
    decoder's mappings, [save_results_csv] succeeds and leaves in the
    caller's map, for every record, the ip under ["ip"] and the lists
    of names in place of the two mappings, the other fields as they
    were.  On the map so left the grouped report is built, and each of
    its ["ip:port"] strings is the key of a record, a colon and the
    port of that record.  The grouped serializer writes its file only
    on a map where every record with an attack has the ["ip"] key: on
    any other it raises [TypeError] before it opens the file. *)
Theorem csv_mutation_feeds_grouped_report
        (so : SetOrder) (results : results_t) (filename : string)
        (fs : file_system) :
  NoDup (keys results) ->
  (forall host, In host (values results) -> has_mappings host) ->
  (exists fs',
      save_results_csv results filename fs = (fs', Ok (csv_mutated results)))
  /\ (exists groupped_results,
         group_results so (csv_mutated results) = Ok groupped_results
         /\ forall attack vendors v products p info s,
             In (attack, vendors) groupped_results ->
             In (v, products) vendors -> In (p, info) products ->
             In s (ips info) ->
             exists k host,
               In (k, host) results /\ s = (k ++ ":" ++ port host)%string)
  /\ (forall any_results filename' fs' fs'',
         save_unique_groupped_results_csv so any_results filename' fs'
         = (fs'', Ok tt) ->
         forall host, In host (values any_results) ->
                      names_items (attacks host) <> [] -> ip host <> None)
  /\ (forall any_results filename' fs' host,
         In host (values any_results) -> names_items (attacks host) <> [] ->
         ip host = None ->
         save_unique_groupped_results_csv so any_results filename' fs'
         = (fs', Raise TypeError)).
Proof.
  intros Hnd Hm. split; [|split; [|split]].
  - eexists. now apply save_results_csv_ok.
  - eexists. split.
    + apply group_results_ok.
      intros host Hin _. apply values_csv_mutated in Hin.
      destruct Hin as (k & h & _ & ->). discriminate.
    + intros attack vendors v products p info s Ha Hv Hp Hs.
      destruct (grouped_of_ips _ _ _ _ _ _ _ _ _ _ Ha Hv Hp Hs)
        as (host & Hin & _ & _ & _ & ->).
      apply values_csv_mutated in Hin. destruct Hin as (k & h & Hin & ->).
      exists k, h. split; auto.
  - intros any_results filename' fs' fs''.
    unfold save_unique_groupped_results_csv, io_bind, io_lift.
    destruct (group_results so any_results) as [g|e] eqn:E; [|discriminate].
    intros _. now apply (group_results_needs_ip so any_results g).
  - intros any_results filename' fs' host Hin Hne Hip.
    unfold save_unique_groupped_results_csv, io_bind, io_lift.
    now rewrite (group_results_without_ip so any_results host).
Qed.

Lemma csv_mutation_feeds_grouped_report_witness :
  NoDup (keys two_ports_results)
  /\ (forall host, In host (values two_ports_results) -> has_mappings host)
  /\ (exists fs',
         save_results_csv two_ports_results FULL_RESULTS_CSV []
         = (fs', Ok (csv_mutated two_ports_results)))
  /\ save_unique_groupped_results_csv first_seen_order two_ports_results
        UNIQUE_GROUPPED_PRODUCTS_RESULTS_CSV []
      = ([], Raise TypeError).
Proof.
  assert (H1 : NoDup (keys two_ports_results)).
  { simpl. repeat constructor. simpl. tauto. }
  assert (H2 : forall host, In host (values two_ports_results) ->
                            has_mappings host).
  { intros host [<-|[]]. unfold has_mappings. simpl. eauto. }
  split; [exact H1|]. split; [exact H2|].
  destruct (csv_mutation_feeds_grouped_report first_seen_order
              two_ports_results FULL_RESULTS_CSV [] H1 H2) as (Ha & _ & _ & Hc).
  split; [exact Ha|].
  apply (Hc two_ports_results UNIQUE_GROUPPED_PRODUCTS_RESULTS_CSV []
            (mkHost "Acme" "Box" "443" (AsDict [("Heartbleed", VTrue)])
                    (AsDict []) [] None)).
  - simpl. auto.
  - simpl. discriminate.
  - reflexivity.
Defined.

(** ** The order of the products of a vendor (C8) *)

(** The products of a vendor come in the order in which the set of
    their names is iterated; the quantities play no part. *)
Lemma product_order_is_iteration_order
      (so : SetOrder) (results : results_t) (groupped_results : grouped_t)
      (attack : atom) (vendors : sdict (sdict product_info)) (v : string)
      (products : sdict product_info) :
  group_results so results = Ok groupped_results ->
  In (attack, vendors) groupped_results -> In (v, products) vendors ->
  keys products =
  list_set_str so
    (map product
         (filter (of_vendor v) (filter (has_attack attack) (values results)))).
Proof.
  intros Hok Ha Hv.
  rewrite group_results_ok in Hok
    by (eapply group_results_needs_ip; eauto).
  injection Hok as <-.
  unfold grouped_of in Ha. apply in_map_iff in Ha.
  destruct Ha as (a & [= -> <-] & _).
  unfold vendors_of in Hv. apply in_map_iff in Hv.
  destruct Hv as (v' & [= -> <-] & _).
  unfold products_of, keys. rewrite map_map. cbn [product_entry fst].
  apply map_id.
Qed.

(** C8 fails on the code.  With one host of product [Box1] and two of
    product [Box2] under the same vendor and attack, and a set that
    yields ["Box1"] before ["Box2"], the grouped file lists [Box1]
    (quantity 1) before [Box2] (quantity 2). *)
Theorem products_are_left_in_set_order :
  let run := load_tls_scan_results first_seen_order three_reports [] [] in
  out_status run = Ok tt
  /\ sget (out_files run) (full_path UNIQUE_GROUPPED_PRODUCTS_RESULTS_CSV)
     = Some (CsvGrouped three_reports_grouped)
  /\ map row_quantity three_reports_grouped = [3; 1; 2].
Proof. vm_compute. auto. Qed.

(** ** The result map of a run *)

Lemma scan_catalog_fold_nodup (results : string) (catalog : list string) :
  NoDup catalog ->
  forall found,
    NoDup (keys found) ->
    (forall e, In e catalog -> ~ In e (keys found)) ->
    NoDup (keys (fold_left (scan_step results) catalog found)).
Proof.
  induction 1 as [|entry catalog Hentry Hnd IH]; intros found Hf Hnew; simpl; auto.
  apply IH.
  - unfold scan_step.
    destruct (findall1 (entry_pattern entry) results) as [|first l]; auto.
    destruct (String.eqb first "true"); auto.
    rewrite supdate_one, sset_absent
      by (apply sget_none_iff, Hnew; simpl; auto).
    rewrite keys_app. apply NoDup_app; auto.
    + simpl. repeat constructor. simpl. tauto.
    + intros e He [<-|[]]. apply (Hnew entry); simpl; auto.
  - intros e He Hin. apply scan_step_keys in Hin.
    destruct Hin as [Hin|[-> _]]; [|contradiction].
    apply (Hnew e); simpl; auto.
Qed.

Lemma attacks_catalog_nodup : NoDup LIST_OF_ATTACKS.
Proof.
  unfold LIST_OF_ATTACKS.
  repeat (constructor; [simpl; intuition discriminate|]). constructor.
Qed.

Lemma parse_attacks_nodup (results : string) (a b : sdict pyval) :
  _parse_attacks results = Parsed a b -> NoDup (keys a).
Proof.
  unfold _parse_attacks.
  destruct (contains "Cannot reach the Server" results); [discriminate|].
  destruct (contains "Server does not seem to support SSL" results);
    [discriminate|].
  intros [= <- _].
  apply (scan_catalog_fold_nodup results LIST_OF_ATTACKS attacks_catalog_nodup []).
  - constructor.
  - intros e _ [].
Qed.

Lemma first_record_built (so : SetOrder) (hosts : hosts_t)
      (files : list (string * string)) (ip : string) (record : HostRecord) :
  first_record so hosts files ip = Some record ->
  exists file results,
    In (file, results) files
    /\ built_record so hosts file results = Ok (Some (ip, record)).
Proof.
  induction files as [|[file results] files IH]; simpl; [discriminate|].
  destruct (built_record so hosts file results) as [[[ip' r]|]|e] eqn:E.
  - destruct (String.eqb_spec ip' ip) as [->|].
    + intros [= ->]. exists file, results. auto.
    + intros H. destruct (IH H) as (f & r' & Hin & Hb). eauto.
  - intros H. destruct (IH H) as (f & r' & Hin & Hb). eauto.
  - intros H. destruct (IH H) as (f & r' & Hin & Hb). eauto.
Qed.

(** The records of a finished loop: one for each ip, each with the two
    mappings of the decoder and without an ["ip"] key. *)
Lemma ingest_records (so : SetOrder) (files : list (string * string))
      (hosts hosts' : hosts_t) (all_results : results_t) :
  ingest so files [] hosts = (hosts', Ok all_results) ->
  NoDup (keys all_results)
  /\ forall host, In host (values all_results) ->
                  has_mappings host
                  /\ NoDup (names_items (attacks host))
                  /\ ip host = None.
Proof.
  intros H.
  destruct (ingest_keeps_first so files _ _ _ _ H) as (Hnd & _ & Hget);
    [constructor|].
  split; auto.
  intros host Hin. unfold values in Hin. apply in_map_iff in Hin.
  destruct Hin as ([k h] & <- & Hin). cbn [snd].
  apply in_sget in Hin; auto. rewrite Hget in Hin. cbn in Hin.
  destruct (first_record_built _ _ _ _ _ Hin) as (file & results & _ & Hb).
  destruct (built_record_some _ _ _ _ _ _ Hb)
    as (a & b & port & vendor & product & vs & Hp & _ & _ & ->).
  unfold has_mappings. cbn [attacks bugs ip names_items].
  repeat split; eauto using parse_attacks_nodup.
Qed.

Lemma attack_table_csv_mutated (results : results_t) :
  attack_table (csv_mutated results) = attack_table results.
Proof.
  unfold attack_table, values, csv_mutated. rewrite !map_map. reflexivity.
Qed.

(** ** A run that ends normally *)

(** On a dataset on which the resolver does not raise, the loop ends
    normally, whatever the files. *)
Lemma ingest_returns (so : SetOrder) (files : list (string * string)) :
  forall (all_results : results_t) (hosts : hosts_t),
    (forall ip, exists vs, _search_vulnerabilities so hosts ip = Ok vs) ->
    exists hosts' all_results',
      ingest so files all_results hosts = (hosts', Ok all_results').
Proof.
  induction files as [|[file results] files IH]; intros ar hosts Hs; simpl.
  - eauto.
  - destruct (ingest_file so ar hosts file results) as [[ar1 hosts1]|e] eqn:E.
    + apply IH. intros ip.
      rewrite (search_vulnerabilities_same_view so hosts1 hosts ip); auto.
      eapply ingest_file_same_view; eauto.
    + exfalso. rewrite ingest_file_eq in E. unfold built_record in E.
      destruct (_parse_attacks results); [discriminate|].
      destruct (file_key file) as [[[[ip ?] ?] ?]|]; [|discriminate].
      destruct (Hs ip) as [vs Hv]. rewrite Hv in E. cbn [bind] in E.
      destruct (sget ar ip), (hosts_get hosts ip) as [x|l|[|p d]];
        discriminate.
Qed.

Lemma count_one_keys (c : table) (x k : atom) :
  In k (keys (count_one c x)) -> In k (keys c) \/ k = x.
Proof.
  unfold count_one.
  generalize (S match dict_get atom_eqb c x with Some n => n | None => 0 end).
  intros v. unfold keys. induction c as [|[k' n] c IH]; simpl.
  - intuition.
  - destruct (atom_eqb k' x); simpl; intuition.
Qed.

Lemma fold_count_keys (items : list atom) (k : atom) :
  forall c, In k (keys (fold_left count_one items c)) ->
            In k (keys c) \/ In k items.
Proof.
  induction items as [|x items IH]; intros c H; simpl in *; auto.
  destruct (IH _ H) as [H1|H1]; auto.
  destruct (count_one_keys _ _ _ H1); auto.
Qed.

Lemma table_json_ok (items : list atom) :
  forallb atom_json_ok items = true ->
  json_data_ok (JTable (sorted by_count_desc (fold_left count_one items [])))
  = true.
Proof.
  intros H. cbn [json_data_ok]. apply forallb_forall. intros k Hk.
  unfold keys in Hk. apply in_map_iff in Hk. destruct Hk as (e & <- & He).
  apply sorted_in in He.
  destruct (fold_count_keys items (fst e) []) as [[]|Hin].
  - unfold keys. now apply in_map.
  - rewrite forallb_forall in H. now apply H.
Qed.

Lemma forallb_concat {A B} (f : B -> bool) (g : A -> list B) (l : list A) :
  (forall x, In x l -> forallb f (g x) = true) ->
  forallb f (List.concat (map g l)) = true.
Proof.
  induction l as [|x l IH]; simpl; intros H; auto.
  rewrite forallb_app, H, IH; auto.
Qed.

Lemma names_json_ok (host : HostRecord) (ent_type : string) :
  ent_type = "attacks" \/ ent_type = "bugs" ->
  forallb atom_json_ok (field_items host ent_type) = true.
Proof.
  intros [-> | ->]; unfold field_items; cbn [String.eqb Ascii.eqb Bool.eqb];
    apply forallb_forall; intros x Hx; apply in_map_iff in Hx;
    now destruct Hx as (s & <- & _).
Qed.

(** When every identifier can be encoded, a run whose loop ends
    normally writes its nine files and ends normally; the grouped file
    holds the report of the map left by [save_results_csv], and the
    attacks file the table counted before it. *)
Lemma run_returns (so : SetOrder) (files : list (string * string))
      (hosts hosts' : hosts_t) (all_results : results_t) (fs : file_system) :
  ingest so files [] hosts = (hosts', Ok all_results) ->
  json_data_ok (JResults all_results) = true ->
  exists fs',
    load_tls_scan_results so files hosts fs = mkOutcome hosts' fs' (Ok tt)
    /\ sget fs' (full_path UNIQUE_GROUPPED_PRODUCTS_RESULTS_CSV)
       = Some (CsvGrouped
                 (grouped_rows
                    (grouped_of so (csv_mutated all_results)
                                (keys (attack_table all_results)))))
    /\ sget fs' (full_path UNIQUE_ATTACKS_CSV)
       = Some (CsvCounts (attack_table all_results)).
Proof.
  intros Hi Hj. destruct (ingest_records so files _ _ _ Hi) as [Hnd Hrec].
  unfold load_tls_scan_results. rewrite Hi. unfold save_all.
  unfold io_bind at 1, io_lift at 1.
  rewrite count_unique_entities_eq by (simpl; auto).
  unfold io_bind at 1, io_lift at 1.
  rewrite count_unique_entities_eq by (simpl; auto).
  unfold io_bind at 1, io_lift at 1.
  rewrite count_unique_entities_eq by (simpl; auto).
  fold (attack_table all_results).
  assert (Ha : json_data_ok (JTable (attack_table all_results)) = true).
  { apply table_json_ok. apply forallb_concat. intros. apply names_json_ok. auto. }
  assert (Hb : json_data_ok
                 (JTable (sorted by_count_desc
                    (fold_left count_one
                       (List.concat (map (fun host => field_items host "bugs")
                                         (values all_results))) []))) = true).
  { apply table_json_ok. apply forallb_concat. intros. apply names_json_ok. auto. }
  assert (Hv : json_data_ok
                 (JTable (sorted by_count_desc
                    (fold_left count_one
                       (List.concat
                          (map (fun host => field_items host "vulnerabilities")
                               (values all_results))) []))) = true).
  { apply table_json_ok. apply forallb_concat. intros host Hin.
    cbn [json_data_ok] in Hj. rewrite forallb_forall in Hj.
    specialize (Hj host Hin). unfold record_json_ok in Hj.
    apply andb_true_iff in Hj. apply Hj. }
  unfold save_results_json, save_unique_results_csv,
    save_unique_groupped_results_csv.
  unfold io_bind, io_write, io_lift. rewrite Hj, Ha, Hb, Hv.
  rewrite save_results_csv_ok
    by (auto; intros host Hin; apply (Hrec host Hin)).
  rewrite group_results_ok.
  - rewrite attack_table_csv_mutated. eexists. split; [reflexivity|].
    split.
    + apply sget_sset_same.
    + rewrite !sget_sset_other by (vm_compute; discriminate).
      apply sget_sset_same.
  - intros host Hin _. apply values_csv_mutated in Hin.
    destruct Hin as (k & h & _ & ->). discriminate.
Qed.

(** ** File names, by example *)

(** The name of the format decodes as expected; so does a name that only
    resembles it, since the dots of the pattern stand for any character
    and the pattern may match anywhere in the name. *)
Lemma file_key_examples :
  file_key "1.2.3.4-443-Acme_Corp-Widget_X.txt"
  = Some ("1.2.3.4", "443", "Acme Corp", "Widget X")
  /\ file_key "scan 1a2b3c4-5-v-pxtxt"
     = Some ("1a2b3c4", "5", "v", "p")
  /\ file_key "1.2.3.4-443-Acme.txt" = None
  /\ file_key "notes.txt" = None.
Proof. vm_compute. auto. Qed.
(** * Further properties of the module *)

(** ** The frequency tables, entry by entry *)

(** The entries counted for a field over a whole map. *)
Definition counted_items (results : results_t) (ent_type : string) : list atom :=
  List.concat (map (fun host => field_items host ent_type) (values results)).

Lemma occurrences_self (x : atom) (l : list atom) :
  In x l -> 0 < occurrences x l.
Proof.
  unfold occurrences. induction l as [|y l IH]; simpl; [tauto|].
  intros [->|H].
  - rewrite atom_eqb_refl. simpl. lia.
  - destruct (atom_eqb x y); simpl; auto. lia.
Qed.

(** X1.  For each of the three counted fields, every entry of the table
    pairs an entity with the exact number of its occurrences over the
    records of the map, which is at least one; no two entries are for
    equal entities; and every entity that occurs has an entry. *)
Theorem frequency_table_is_exact (results : results_t) (ent_type : string) :
  In ent_type ["attacks"; "bugs"; "vulnerabilities"] ->
  exists t,
    count_unique_entities results ent_type = Ok t
    /\ distinct (keys t)
    /\ (forall k n, In (k, n) t ->
                    n = occurrences k (counted_items results ent_type) /\ 0 < n)
    /\ (forall x, In x (counted_items results ent_type) ->
                  exists k n, In (k, n) t /\ atom_eqb k x = true).
Proof.
  intros H. eexists. split; [now apply count_unique_entities_eq|].
  fold (counted_items results ent_type).
  destruct (frequency_table_counts (counted_items results ent_type))
    as [Hd He Hc].
  split; [exact Hd|]. split.
  - intros k n Hin. split; [now apply He|].
    rewrite (He k n Hin). apply occurrences_self.
    apply sorted_in in Hin.
    destruct (fold_count_keys (counted_items results ent_type) k []) as [[]|Hk];
      auto.
    unfold keys. apply in_map_iff. now exists (k, n).
  - intros x Hx. destruct (Hc x Hx) as (k & Hk & Hkx).
    unfold keys in Hk. apply in_map_iff in Hk.
    destruct Hk as ([k' n] & <- & Hin). exists k', n. auto.
Qed.

Lemma frequency_table_is_exact_witness :
  In "attacks" ["attacks"; "bugs"; "vulnerabilities"]
  /\ exists t,
      count_unique_entities three_reports_results "attacks" = Ok t
      /\ distinct (keys t)
      /\ (forall k n, In (k, n) t ->
            n = occurrences k (counted_items three_reports_results "attacks")
            /\ 0 < n)
      /\ (forall x, In x (counted_items three_reports_results "attacks") ->
                    exists k n, In (k, n) t /\ atom_eqb k x = true).
Proof.
  assert (H : In "attacks" ["attacks"; "bugs"; "vulnerabilities"])
    by (simpl; auto).
  split; [exact H|].
  exact (frequency_table_is_exact three_reports_results "attacks" H).
Defined.

(** ** The order of a table among equal counts *)

(** No key of [c] equals [y]. *)
Definition fresh_for (c : table) (y : atom) : bool :=
  forallb (fun k => negb (atom_eqb k y)) (keys c).

Lemma fresh_for_spec (c : table) (y : atom) :
  fresh_for c y = true <-> forall k, In k (keys c) -> atom_eqb k y = false.
Proof.
  unfold fresh_for. rewrite forallb_forall. split; intros H k Hk.
  - now apply negb_true_iff, H.
  - now apply negb_true_iff, H.
Qed.

Lemma fresh_for_get (c : table) (y : atom) :
  fresh_for c y = true <-> dict_get atom_eqb c y = None.
Proof. now rewrite fresh_for_spec, dict_get_atom_none. Qed.

Lemma filter_ext_in_bool {A} (f g : A -> bool) (l : list A) :
  (forall x, In x l -> f x = g x) -> filter f l = filter g l.
Proof.
  induction l as [|x l IH]; simpl; intros H; auto.
  rewrite (H x) by auto. rewrite IH; auto.
Qed.

(** The keys of a [Counter] come in order of first appearance. *)
Lemma fold_count_order (items : list atom) :
  forall c,
    keys (fold_left count_one items c)
    = keys c ++ filter (fresh_for c) (first_seen items).
Proof.
  induction items as [|x items IH]; intros c; simpl.
  - now rewrite app_nil_r.
  - rewrite IH. unfold count_one.
    destruct (dict_get atom_eqb c x) as [n0|] eqn:Eg.
    + destruct (dict_set_atom_found c x n0 (S n0) Eg)
        as (c1 & k0 & c2 & Hc & Hk0 & Hc1 & Hset).
      rewrite Hset.
      assert (Hkeys : keys (c1 ++ (k0, S n0) :: c2) = keys c).
      { rewrite Hc. unfold keys. now rewrite !map_app. }
      assert (Hfresh : forall y, fresh_for (c1 ++ (k0, S n0) :: c2) y
                                 = fresh_for c y).
      { intros y. unfold fresh_for. now rewrite Hkeys. }
      rewrite Hkeys. f_equal.
      assert (Hx : fresh_for c x = false).
      { destruct (fresh_for c x) eqn:E; auto.
        apply fresh_for_get in E. congruence. }
      rewrite Hx. rewrite filter_filter.
      apply filter_ext_in_bool. intros y _. rewrite Hfresh.
      destruct (fresh_for c y) eqn:Ey; [|now rewrite andb_false_r].
      rewrite andb_true_r.
      destruct (atom_eqb x y) eqn:Exy; auto.
      rewrite fresh_for_spec in Ey.
      assert (Hin : In k0 (keys c)).
      { rewrite Hc. unfold keys. rewrite map_app. apply in_or_app.
        simpl. auto. }
      specialize (Ey k0 Hin).
      rewrite (atom_eqb_trans k0 x y Hk0 Exy) in Ey. discriminate.
    + pose proof (proj1 (dict_get_atom_none c x) Eg) as Hnone.
      rewrite dict_set_atom_new by assumption.
      assert (Hx : fresh_for c x = true) by now apply fresh_for_get.
      rewrite Hx. rewrite keys_app. simpl. rewrite <- app_assoc. simpl.
      f_equal. f_equal. rewrite filter_filter.
      apply filter_ext_in_bool. intros y _.
      unfold fresh_for. rewrite keys_app, forallb_app. simpl.
      rewrite andb_true_r. apply andb_comm.
Qed.

Lemma filter_true {A} (l : list A) : filter (fun _ => true) l = l.
Proof. induction l as [|x l IH]; simpl; congruence. Qed.

(** Sorting by count leaves entries of equal count in the order they had. *)
Lemma insert_keeps_ties (n : nat) (x : atom * nat) (t : table) :
  filter (fun e => snd e =? n) (insert by_count_desc x t)
  = filter (fun e => snd e =? n) (x :: t).
Proof.
  induction t as [|y t IH]; auto.
  cbn [insert]. unfold by_count_desc at 1.
  destruct (Nat.ltb_spec (snd x) (snd y)) as [Hlt|Hge]; auto.
  cbn [filter] in *. rewrite IH.
  destruct (Nat.eqb_spec (snd x) n), (Nat.eqb_spec (snd y) n); auto. lia.
Qed.

Lemma sorted_keeps_ties (n : nat) (t : table) :
  filter (fun e => snd e =? n) (sorted by_count_desc t)
  = filter (fun e => snd e =? n) t.
Proof.
  induction t as [|x t IH]; auto.
  cbn [sorted fold_right]. rewrite insert_keeps_ties.
  cbn [filter]. fold (sorted by_count_desc t). now rewrite IH.
Qed.

Lemma keys_filter_counts (n : nat) (f : atom -> nat) (t : table) :
  (forall k m, In (k, m) t -> m = f k) ->
  keys (filter (fun e => snd e =? n) t) = filter (fun k => f k =? n) (keys t).
Proof.
  unfold keys. induction t as [|[k m] t IH]; intros H; simpl; auto.
  rewrite <- (H k m) by (simpl; auto).
  destruct (m =? n); simpl; rewrite IH; auto; intros; apply H; simpl; auto.
Qed.

(** X2.  Entities with the same count come in the table in the order in
    which they first occur over the records of the map: for every
    count [n], the entities of the table that have the count [n] are
    the first occurrences, in order, of the entities that occur [n]
    times. *)
Theorem frequency_table_ties_first_seen
        (results : results_t) (ent_type : string) (n : nat) :
  In ent_type ["attacks"; "bugs"; "vulnerabilities"] ->
  exists t,
    count_unique_entities results ent_type = Ok t
    /\ keys (filter (fun e => snd e =? n) t)
       = filter (fun k => occurrences k (counted_items results ent_type) =? n)
                (first_seen (counted_items results ent_type)).
Proof.
  intros H. eexists. split; [now apply count_unique_entities_eq|].
  fold (counted_items results ent_type).
  rewrite sorted_keeps_ties.
  destruct (fold_count_counts (counted_items results ent_type) [] [] counts_nil)
    as [_ He _].
  cbn [app] in He.
  rewrite (keys_filter_counts n
             (fun k => occurrences k (counted_items results ent_type)))
    by exact He.
  rewrite fold_count_order. cbn [keys map app].
  f_equal. unfold fresh_for. cbn [keys map forallb]. apply filter_true.
Qed.

(** Two attacks seen once each, [CRIME] first. *)
Definition tied_results : results_t :=
  [ ("10.0.0.1",
     mkHost "Acme" "Box" "443"
            (AsDict [("CRIME", VTrue); ("Heartbleed", VTrue)]) (AsDict [])
            [] None) ].

Lemma frequency_table_ties_first_seen_witness :
  In "attacks" ["attacks"; "bugs"; "vulnerabilities"]
  /\ exists t,
      count_unique_entities tied_results "attacks" = Ok t
      /\ keys (filter (fun e => snd e =? 1) t)
         = filter (fun k => occurrences k (counted_items tied_results "attacks")
                            =? 1)
                  (first_seen (counted_items tied_results "attacks")).
Proof.
  assert (H : In "attacks" ["attacks"; "bugs"; "vulnerabilities"])
    by (simpl; auto).
  split; [exact H|].
  exact (frequency_table_ties_first_seen tied_results "attacks" 1 H).
Defined.

(** ** Counting a field the records do not have *)

Definition RECORD_KEYS : list string :=
  ["vendor"; "product"; "port"; "attacks"; "bugs"; "vulnerabilities"; "ip"].

Lemma host_get_unknown (host : HostRecord) (k : string) :
  ~ In k RECORD_KEYS -> host_get host k = VNone.
Proof.
  unfold RECORD_KEYS, host_get. intros H.
  destruct (String.eqb_spec k "vendor") as [->|_]; [simpl in H; tauto|].
  destruct (String.eqb_spec k "product") as [->|_]; [simpl in H; tauto|].
  destruct (String.eqb_spec k "port") as [->|_]; [simpl in H; tauto|].
  destruct (String.eqb_spec k "attacks") as [->|_]; [simpl in H; tauto|].
  destruct (String.eqb_spec k "bugs") as [->|_]; [simpl in H; tauto|].
  destruct (String.eqb_spec k "vulnerabilities") as [->|_]; [simpl in H; tauto|].
  destruct (String.eqb_spec k "ip") as [->|_]; [simpl in H; tauto|].
  reflexivity.
Qed.

(** X3.  Over an empty map the aggregator returns the empty table for
    any field name.  Over a map with at least one record it raises
    [TypeError] when the records have no such field, since [host.get]
    then gives [None], which cannot be iterated; so it does for ["ip"]
    as long as the first record has no ["ip"] key. *)
Theorem counting_a_missing_field :
  (forall ent_type, count_unique_entities [] ent_type = Ok [])
  /\ (forall results ent_type,
         results <> [] -> ~ In ent_type RECORD_KEYS ->
         count_unique_entities results ent_type = Raise TypeError)
  /\ (forall k host results,
         ip host = None ->
         count_unique_entities ((k, host) :: results) "ip" = Raise TypeError).
Proof.
  split; [reflexivity|]. split.
  - intros [|[k host] results] ent_type Hne Hk; [congruence|].
    unfold count_unique_entities, flatten. cbn [values map mapM snd].
    now rewrite host_get_unknown.
  - intros k host results Hip.
    unfold count_unique_entities, flatten. cbn [values map mapM snd].
    unfold host_get. cbn [String.eqb Ascii.eqb Bool.eqb]. now rewrite Hip.
Qed.

Lemma counting_a_missing_field_witness :
  two_ports_results <> []
  /\ ~ In "versions" RECORD_KEYS
  /\ count_unique_entities two_ports_results "versions" = Raise TypeError.
Proof.
  assert (H1 : two_ports_results <> []) by discriminate.
  assert (H2 : ~ In "versions" RECORD_KEYS)
    by (unfold RECORD_KEYS; simpl; intuition discriminate).
  split; [exact H1|]. split; [exact H2|].
  exact (proj1 (proj2 counting_a_missing_field) two_ports_results "versions"
               H1 H2).
Defined.

(** ** The tables before and after [save_results_csv] *)

Lemma py_list_csv_view (ip_key : string) (host : HostRecord) (ent_type : string) :
  ent_type <> "ip" ->
  py_list (host_get (csv_view ip_key host) ent_type)
  = py_list (host_get host ent_type).
Proof.
  intros Hne. unfold host_get, csv_view.
  cbn [vendor product port attacks bugs vulnerabilities ip].
  destruct (String.eqb ent_type "vendor"); auto.
  destruct (String.eqb ent_type "product"); auto.
  destruct (String.eqb ent_type "port"); auto.
  destruct (String.eqb ent_type "attacks").
  { now rewrite !py_list_names. }
  destruct (String.eqb ent_type "bugs").
  { now rewrite !py_list_names. }
  destruct (String.eqb ent_type "vulnerabilities"); auto.
  destruct (String.eqb_spec ent_type "ip"); [contradiction|reflexivity].
Qed.

Lemma mapM_ext {A B} (f g : A -> result B) (l : list A) :
  (forall x, In x l -> f x = g x) -> mapM f l = mapM g l.
Proof.
  induction l as [|x l IH]; simpl; intros H; auto.
  rewrite (H x), IH; auto.
Qed.

Lemma mapM_map {A B C} (f : B -> result C) (g : A -> B) (l : list A) :
  mapM f (map g l) = mapM (fun x => f (g x)) l.
Proof.
  induction l as [|x l IH]; simpl; auto. now rewrite IH.
Qed.

(** X4.  [save_results_csv] does not change what the aggregator counts:
    on the map as the call leaves it, [count_unique_entities] gives for
    every field but ["ip"] the result it gave before the call. *)
Theorem tables_survive_csv_mutation
        (results results' : results_t) (filename ent_type : string)
        (fs fs' : file_system) :
  NoDup (keys results) ->
  (forall host, In host (values results) -> has_mappings host) ->
  save_results_csv results filename fs = (fs', Ok results') ->
  ent_type <> "ip" ->
  count_unique_entities results' ent_type
  = count_unique_entities results ent_type.
Proof.
  intros Hnd Hm Hsave Hne.
  rewrite save_results_csv_ok in Hsave by assumption.
  injection Hsave as _ <-.
  unfold count_unique_entities, flatten, values, csv_mutated.
  rewrite !map_map, !mapM_map. cbn [snd fst].
  now rewrite (mapM_ext _ (fun x => py_list (host_get (snd x) ent_type)))
    by (intros; now apply py_list_csv_view).
Qed.

Lemma tables_survive_csv_mutation_witness :
  NoDup (keys three_reports_results)
  /\ (forall host, In host (values three_reports_results) -> has_mappings host)
  /\ "attacks" <> "ip"
  /\ count_unique_entities (csv_mutated three_reports_results) "attacks"
     = count_unique_entities three_reports_results "attacks".
Proof.
  assert (H1 : NoDup (keys three_reports_results)).
  { simpl. repeat (constructor; [simpl; intuition discriminate|]). constructor. }
  assert (H2 : forall host, In host (values three_reports_results) ->
                            has_mappings host).
  { intros host [<-|[<-|[<-|[]]]]; unfold has_mappings; simpl; eauto. }
  assert (H3 : "attacks" <> "ip") by discriminate.
  split; [exact H1|]. split; [exact H2|]. split; [exact H3|].
  exact (tables_survive_csv_mutation three_reports_results
           (csv_mutated three_reports_results) FULL_RESULTS_CSV "attacks" [] _
           H1 H2 (save_results_csv_ok three_reports_results FULL_RESULTS_CSV []
                                      H1 H2) H3).
Defined.

(** ** The rows of the full CSV file *)

Definition product_le (a b : string) : Prop := String.leb a b = true.

Lemma ltb_false_le (a b : string) : String.ltb a b = false -> product_le b a.
Proof.
  unfold String.ltb, product_le, String.leb.
  rewrite (String.compare_antisym b a).
  destruct (String.compare a b); simpl; congruence.
Qed.

Lemma ltb_true_le (a b : string) : String.ltb a b = true -> product_le a b.
Proof.
  unfold String.ltb, product_le, String.leb.
  destruct (String.compare a b); congruence.
Qed.

Lemma ltb_irrefl (a : string) : String.ltb a a = false.
Proof.
  unfold String.ltb. pose proof (String.compare_antisym a a) as H.
  destruct (String.compare a a); simpl in H; congruence.
Qed.

Definition by_product_le (a b : string * HostRecord) : Prop :=
  product_le (product (snd a)) (product (snd b)).

Lemma insert_HdRel (x y : string * HostRecord) (l : list (string * HostRecord)) :
  by_product_le y x -> HdRel by_product_le y l ->
  HdRel by_product_le y (insert by_product x l).
Proof.
  intros Hyx Hl. destruct l as [|z l]; simpl.
  - now constructor.
  - destruct (by_product z x); constructor; auto.
    now inversion Hl.
Qed.

Lemma insert_sorted_by_product (x : string * HostRecord)
      (l : list (string * HostRecord)) :
  Sorted by_product_le l -> Sorted by_product_le (insert by_product x l).
Proof.
  induction 1 as [|y l Hs IH Hy]; simpl.
  - repeat constructor.
  - destruct (by_product y x) eqn:E.
    + constructor; auto. apply insert_HdRel; auto.
      now apply ltb_true_le.
    + constructor; [now constructor|].
      constructor. now apply ltb_false_le.
Qed.

Lemma sorted_by_product_sorted (l : list (string * HostRecord)) :
  Sorted by_product_le (sorted by_product l).
Proof.
  induction l as [|x l IH]; simpl; [constructor|].
  now apply insert_sorted_by_product.
Qed.

Definition of_product_name (p : string) (item : string * HostRecord) : bool :=
  String.eqb (product (snd item)) p.

Lemma insert_keeps_products (p : string) (x : string * HostRecord)
      (l : list (string * HostRecord)) :
  filter (of_product_name p) (insert by_product x l)
  = filter (of_product_name p) (x :: l).
Proof.
  induction l as [|y l IH]; auto.
  cbn [insert]. destruct (by_product y x) eqn:E; auto.
  cbn [filter] in *. rewrite IH. unfold of_product_name.
  destruct (String.eqb_spec (product (snd x)) p) as [Hx|];
    destruct (String.eqb_spec (product (snd y)) p) as [Hy|]; auto.
  unfold by_product in E. rewrite Hx, Hy, ltb_irrefl in E. discriminate.
Qed.

Lemma sorted_keeps_products (p : string) (l : list (string * HostRecord)) :
  filter (of_product_name p) (sorted by_product l)
  = filter (of_product_name p) l.
Proof.
  induction l as [|x l IH]; auto.
  cbn [sorted fold_right]. rewrite insert_keeps_products.
  cbn [filter]. fold (sorted by_product l). now rewrite IH.
Qed.

Lemma Sorted_map {A B} (R : A -> A -> Prop) (S : B -> B -> Prop) (f : A -> B)
      (l : list A) :
  (forall a b, R a b -> S (f a) (f b)) -> Sorted R l -> Sorted S (map f l).
Proof.
  intros H. induction 1 as [|x l Hs IH Hx]; simpl; constructor; auto.
  destruct Hx; simpl; constructor; auto.
Qed.

Lemma filter_map_comm {A B} (f : A -> B) (p : B -> bool) (l : list A) :
  filter p (map f l) = map f (filter (fun x => p (f x)) l).
Proof.
  induction l as [|x l IH]; simpl; auto.
  destruct (p (f x)); simpl; now rewrite IH.
Qed.

(** X5.  On a map with distinct ips whose records hold the decoder's
    mappings, the rows [save_results_csv] writes are the records of the
    map, each once (with its ip and its lists of names), in ascending
    order of their product name, vendors playing no part; records of
    the same product keep the order they have in the map. *)
Theorem csv_rows_ordered_by_product
        (results : results_t) (filename : string) (fs : file_system) :
  NoDup (keys results) ->
  (forall host, In host (values results) -> has_mappings host) ->
  exists fs' rows,
    save_results_csv results filename fs = (fs', Ok (csv_mutated results))
    /\ sget fs' (full_path filename) = Some (CsvRecords rows)
    /\ Sorted (fun a b => product_le (product a) (product b)) rows
    /\ Permutation rows (values (csv_mutated results))
    /\ forall p,
        filter (fun row => String.eqb (product row) p) rows
        = filter (fun row => String.eqb (product row) p)
                 (values (csv_mutated results)).
Proof.
  intros Hnd Hm. do 2 eexists.
  split; [now apply save_results_csv_ok|].
  split; [apply sget_sset_same|].
  split; [|split].
  - apply (Sorted_map by_product_le); [|apply sorted_by_product_sorted].
    now intros [k h] [k' h'].
  - unfold values, csv_mutated. rewrite map_map. cbn [snd fst].
    apply Permutation_map, sorted_perm.
  - intros p. unfold values, csv_mutated. rewrite map_map. cbn [snd fst].
    rewrite !filter_map_comm. cbn [csv_view product].
    f_equal. apply (sorted_keeps_products p).
Qed.

(** Two products out of order in the map, the vendors in order. *)
Definition unordered_results : results_t :=
  [ ("10.0.0.1",
     mkHost "Acme" "Zeta" "443" (AsDict [("CRIME", VTrue)]) (AsDict []) [] None);
    ("10.0.0.2",
     mkHost "Bolt" "Alpha" "443" (AsDict []) (AsDict []) [] None) ].

Lemma csv_rows_ordered_by_product_witness :
  NoDup (keys unordered_results)
  /\ (forall host, In host (values unordered_results) -> has_mappings host)
  /\ exists fs' rows,
      save_results_csv unordered_results FULL_RESULTS_CSV []
      = (fs', Ok (csv_mutated unordered_results))
      /\ sget fs' (full_path FULL_RESULTS_CSV) = Some (CsvRecords rows)
      /\ Sorted (fun a b => product_le (product a) (product b)) rows
      /\ Permutation rows (values (csv_mutated unordered_results))
      /\ forall p,
          filter (fun row => String.eqb (product row) p) rows
          = filter (fun row => String.eqb (product row) p)
                   (values (csv_mutated unordered_results)).
Proof.
  assert (H1 : NoDup (keys unordered_results)).
  { simpl. repeat (constructor; [simpl; intuition discriminate|]). constructor. }
  assert (H2 : forall host, In host (values unordered_results) ->
                            has_mappings host).
  { intros host [<-|[<-|[]]]; unfold has_mappings; simpl; eauto. }
  split; [exact H1|]. split; [exact H2|].
  exact (csv_rows_ordered_by_product unordered_results FULL_RESULTS_CSV []
                                     H1 H2).
Defined.

(** X6.  [save_results_csv] cannot be run twice over the same map: on
    the map a first call leaves, where the two fields are lists, a
    second call opens its file and raises [AttributeError] at the first
    record. *)
Theorem csv_second_run_raises
        (results results' : results_t) (filename filename' : string)
        (fs fs' : file_system) :
  NoDup (keys results) ->
  (forall host, In host (values results) -> has_mappings host) ->
  results <> [] ->
  save_results_csv results filename fs = (fs', Ok results') ->
  save_results_csv results' filename' fs'
  = (sset fs' (full_path filename') Opened, Raise AttributeError).
Proof.
  intros Hnd Hm Hne Hsave.
  rewrite save_results_csv_ok in Hsave by assumption.
  injection Hsave as _ <-.
  unfold save_results_csv, io_bind, io_write, io_lift.
  destruct (sorted by_product (csv_mutated results)) as [|[k h] items] eqn:E.
  - exfalso. pose proof (sorted_perm by_product (csv_mutated results)) as Hp.
    rewrite E in Hp. apply Permutation_nil in Hp.
    destruct results; [congruence|discriminate].
  - assert (Hin : In (k, h) (csv_mutated results)).
    { apply (sorted_in by_product). rewrite E. simpl. auto. }
    unfold csv_mutated in Hin. apply in_map_iff in Hin.
    destruct Hin as ([k0 h0] & [= <- <-] & _).
    reflexivity.
Qed.

Lemma csv_second_run_raises_witness :
  NoDup (keys unordered_results)
  /\ (forall host, In host (values unordered_results) -> has_mappings host)
  /\ unordered_results <> []
  /\ let fs' := fst (save_results_csv unordered_results FULL_RESULTS_CSV []) in
     save_results_csv (csv_mutated unordered_results) FULL_RESULTS_CSV fs'
     = (sset fs' (full_path FULL_RESULTS_CSV) Opened, Raise AttributeError).
Proof.
  assert (H1 : NoDup (keys unordered_results)).
  { simpl. repeat (constructor; [simpl; intuition discriminate|]). constructor. }
  assert (H2 : forall host, In host (values unordered_results) ->
                            has_mappings host).
  { intros host [<-|[<-|[]]]; unfold has_mappings; simpl; eauto. }
  assert (H3 : unordered_results <> []) by discriminate.
  split; [exact H1|]. split; [exact H2|]. split; [exact H3|].
  apply (csv_second_run_raises unordered_results (csv_mutated unordered_results)
           FULL_RESULTS_CSV FULL_RESULTS_CSV [] _ H1 H2 H3).
  now rewrite (save_results_csv_ok unordered_results FULL_RESULTS_CSV [] H1 H2).
Defined.

(** ** When the loop raises *)

Lemma resolver_raises_kinds (so : SetOrder) (hosts : hosts_t) (ip : string)
      (e : exn) :
  _search_vulnerabilities so hosts ip = Raise e ->
  e = AttributeError \/ e = TypeError.
Proof.
  unfold _search_vulnerabilities.
  destruct (truthy (hosts_get hosts ip)); cbn [negb]; [|discriminate].
  destruct (hosts_get hosts ip) as [x|l|entry]; cbn [py_get bind];
    try (intros [= <-]; now left).
  destruct (truthy _); cbn [negb]; [|discriminate].
  destruct (match sget entry "vulnerabilities" with
            | Some x => x | None => VNone end) as [x|l|vulns];
    cbn [py_get bind]; try (intros [= <-]; now left).
  destruct (py_add _ _) as [both|e1] eqn:Ea; cbn [bind].
  - destruct (py_list both) as [items|e2] eqn:El; cbn [bind].
    + unfold list_set.
      destruct (mapM hashable items) as [atoms|e3] eqn:Em; cbn [bind];
        [discriminate|].
      intros [= <-]. right. eapply mapM_raises; [|exact Em].
      intros [x|l|d] e'; simpl; congruence.
    + intros [= <-]. right.
      destruct both as [[| | | |]|l|d]; simpl in El; congruence.
  - intros [= <-]. right. unfold py_add in Ea.
    repeat match type of Ea with
           | context [match ?x with _ => _ end] => destruct x
           end; congruence.
Qed.

(** A file from which a record for [ip] is built. *)
Definition decodes_to (file results ip : string) : Prop :=
  (exists a b, _parse_attacks results = Parsed a b)
  /\ exists port vendor product,
      file_key file = Some (ip, port, vendor, product).

Lemma ingest_file_raises (so : SetOrder) (all_results : results_t)
      (hosts : hosts_t) (file results : string) (e : exn) :
  ingest_file so all_results hosts file results = Raise e <->
  exists ip, decodes_to file results ip
             /\ _search_vulnerabilities so hosts ip = Raise e.
Proof.
  rewrite ingest_file_eq. unfold built_record, decodes_to.
  destruct (_parse_attacks results) as [|a b].
  { cbn [bind]. split; [discriminate|].
    intros (ip & ((a & b & H) & _) & _). discriminate. }
  destruct (file_key file) as [[[[ip port] vendor] product]|].
  - destruct (_search_vulnerabilities so hosts ip) as [vs|e'] eqn:Hs;
      cbn [bind].
    + split.
      * destruct (hosts_get hosts ip) as [x|l|[|p d]]; discriminate.
      * intros (ip' & (_ & port' & vendor' & product' & [= <- _ _ _]) & Hr).
        congruence.
    + split.
      * intros [= <-]. exists ip. repeat split; eauto.
      * intros (ip' & (_ & port' & vendor' & product' & [= <- _ _ _]) & Hr).
        congruence.
  - cbn [bind]. split; [discriminate|].
    intros (ip & (_ & port & vendor & product & H) & _). discriminate.
Qed.

Lemma ingest_raises_sound (so : SetOrder) (hosts0 : hosts_t)
      (files : list (string * string)) :
  forall all_results hosts hosts' e,
    same_view hosts hosts0 ->
    ingest so files all_results hosts = (hosts', Raise e) ->
    exists file results ip,
      In (file, results) files /\ decodes_to file results ip
      /\ _search_vulnerabilities so hosts0 ip = Raise e.
Proof.
  induction files as [|[file results] files IH]; simpl;
    intros ar hosts hosts' e Hv H; [discriminate|].
  destruct (ingest_file so ar hosts file results) as [[ar1 hosts1]|e1] eqn:Ef.
  - destruct (IH ar1 hosts1 hosts' e) as (f & r & ip & Hin & Hd & Hr); auto.
    { eapply same_view_trans; [|exact Hv].
      eapply ingest_file_same_view; eauto. }
    exists f, r, ip. auto.
  - injection H as <- <-.
    apply ingest_file_raises in Ef. destruct Ef as (ip & Hd & Hr).
    exists file, results, ip.
    split; [now left|]. split; [exact Hd|].
    now rewrite <- (search_vulnerabilities_same_view so hosts hosts0 ip Hv).
Qed.

Lemma ingest_raises_complete (so : SetOrder) (hosts0 : hosts_t)
      (files : list (string * string)) :
  forall all_results hosts,
    same_view hosts hosts0 ->
    (exists file results ip e,
        In (file, results) files /\ decodes_to file results ip
        /\ _search_vulnerabilities so hosts0 ip = Raise e) ->
    exists hosts' e, ingest so files all_results hosts = (hosts', Raise e).
Proof.
  induction files as [|[file results] files IH]; simpl;
    intros ar hosts Hv (f & r & ip & e & Hin & Hd & Hr); [tauto|].
  destruct (ingest_file so ar hosts file results) as [[ar1 hosts1]|e1] eqn:Ef;
    [|eauto].
  apply IH.
  - eapply same_view_trans; [|exact Hv].
    eapply ingest_file_same_view; eauto.
  - destruct Hin as [[= <- <-]|Hin]; [|exists f, r, ip, e; auto].
    exfalso.
    assert (Hraise : ingest_file so ar hosts file results = Raise e).
    { apply ingest_file_raises. exists ip. split; auto.
      now rewrite (search_vulnerabilities_same_view so hosts hosts0 ip Hv). }
    congruence.
Qed.

(** X7.  The loop of [load_tls_scan_results] raises exactly when the
    resolver raises for the ip of some file that is decoded (a report
    without failure marker under a name the pattern matches), the
    resolver being taken on the dataset as the caller gave it; the
    exception is then the resolver's, an [AttributeError] or a
    [TypeError].  The reports themselves never make the loop raise. *)
Theorem loop_raises_only_through_resolver
        (so : SetOrder) (files : list (string * string)) (hosts : hosts_t) :
  (forall hosts' e,
      ingest so files [] hosts = (hosts', Raise e) ->
      (e = AttributeError \/ e = TypeError)
      /\ exists file results ip,
          In (file, results) files /\ decodes_to file results ip
          /\ _search_vulnerabilities so hosts ip = Raise e)
  /\ ((exists file results ip e,
          In (file, results) files /\ decodes_to file results ip
          /\ _search_vulnerabilities so hosts ip = Raise e) ->
      exists hosts' e, ingest so files [] hosts = (hosts', Raise e)).
Proof.
  split.
  - intros hosts' e H.
    destruct (ingest_raises_sound so hosts files [] hosts hosts' e
                (same_view_refl hosts) H) as (f & r & ip & Hin & Hd & Hr).
    split; [eapply resolver_raises_kinds; eauto|].
    exists f, r, ip. auto.
  - apply ingest_raises_complete, same_view_refl.
Qed.

(** A dataset whose entry for the ip is a list, not a mapping. *)
Definition list_entry_hosts : hosts_t :=
  [ ("10.0.0.1", VList [VStr "CVE-2014-0160"]) ].

Lemma loop_raises_only_through_resolver_witness :
  ingest first_seen_order one_report [] list_entry_hosts
  = (list_entry_hosts, Raise AttributeError)
  /\ exists file results ip,
      In (file, results) one_report /\ decodes_to file results ip
      /\ _search_vulnerabilities first_seen_order list_entry_hosts ip
         = Raise AttributeError.
Proof.
  assert (H : ingest first_seen_order one_report [] list_entry_hosts
              = (list_entry_hosts, Raise AttributeError))
    by (vm_compute; reflexivity).
  split; [exact H|].
  exact (proj2 (proj1 (loop_raises_only_through_resolver first_seen_order
                         one_report list_entry_hosts)
                      list_entry_hosts AttributeError H)).
Defined.

(** ** What a call may change in the caller's dataset *)

(** How a field of an entry may differ after a call: not at all, or it
    now holds a non-empty mapping keyed by names of [catalog]. *)
Definition kept_or_decoded (catalog : list string) (before after : option pyval)
  : Prop :=
  after = before
  \/ exists found, after = Some (VDict found) /\ found <> []
                   /\ incl (keys found) catalog.

Record frame (hosts hosts' : hosts_t) : Prop := {
  frame_keys : keys hosts' = keys hosts;
  frame_other :
    forall ip v, sget hosts ip = Some v -> (forall entry, v <> VDict entry) ->
                 sget hosts' ip = Some v;
  frame_empty :
    forall ip, sget hosts ip = Some (VDict []) -> sget hosts' ip = Some (VDict []);
  frame_entry :
    forall ip entry,
      sget hosts ip = Some (VDict entry) ->
      exists entry',
        sget hosts' ip = Some (VDict entry')
        /\ (forall k, k <> "attacks" -> k <> "bugs" -> sget entry' k = sget entry k)
        /\ kept_or_decoded LIST_OF_ATTACKS (sget entry "attacks")
                           (sget entry' "attacks")
        /\ kept_or_decoded LIST_OF_BUGS (sget entry "bugs") (sget entry' "bugs")
}.

Lemma kept_or_decoded_trans (catalog : list string) (x y z : option pyval) :
  kept_or_decoded catalog x y -> kept_or_decoded catalog y z ->
  kept_or_decoded catalog x z.
Proof.
  intros [->|H1] [->|H2]; [now left|now right|now right|now right].
Qed.

Lemma frame_refl (hosts : hosts_t) : frame hosts hosts.
Proof.
  constructor; auto.
  intros ip entry H. exists entry. repeat split; auto; now left.
Qed.

Lemma frame_trans (h1 h2 h3 : hosts_t) : frame h1 h2 -> frame h2 h3 -> frame h1 h3.
Proof.
  intros [K1 O1 E1 F1] [K2 O2 E2 F2]. constructor.
  - congruence.
  - intros ip v Hv Hn. apply O2; auto.
  - intros ip Hv. auto.
  - intros ip entry Hv.
    destruct (F1 ip entry Hv) as (e2 & Hv2 & Hk2 & Ha2 & Hb2).
    destruct (F2 ip e2 Hv2) as (e3 & Hv3 & Hk3 & Ha3 & Hb3).
    exists e3. split; auto. split.
    + intros k Ha Hb. rewrite Hk3, Hk2; auto.
    + split; eapply kept_or_decoded_trans; eauto.
Qed.

Lemma parse_attacks_catalogs (results : string) (a b : sdict pyval) :
  _parse_attacks results = Parsed a b ->
  incl (keys a) LIST_OF_ATTACKS /\ incl (keys b) LIST_OF_BUGS.
Proof.
  unfold _parse_attacks.
  destruct (contains "Cannot reach the Server" results); [discriminate|].
  destruct (contains "Server does not seem to support SSL" results);
    [discriminate|].
  intros [= <- <-].
  change (scan_catalog ?c results) with (fold_left (scan_step results) c []).
  split; intros name H; apply scan_catalog_keys in H;
    now destruct H as [[]|[H _]].
Qed.

Lemma ingest_file_frame (so : SetOrder) (all_results all_results' : results_t)
      (hosts hosts' : hosts_t) (file results : string) :
  ingest_file so all_results hosts file results = Ok (all_results', hosts') ->
  frame hosts hosts'.
Proof.
  intros H.
  destruct (ingest_file_cases _ _ _ _ _ _ _ H)
    as [(_ & _ & ->)|(ip & record & Hb & _ & Hh)]; [apply frame_refl|].
  destruct Hh as [(entry & a & b & Hg & Hne & Ha & Hbu & ->)|(_ & ->)];
    [|apply frame_refl].
  destruct (built_record_some _ _ _ _ _ _ Hb)
    as (a1 & b1 & p1 & v1 & pr1 & vs & Hp & _ & _ & ->).
  cbn [attacks bugs] in Ha, Hbu. injection Ha as ->. injection Hbu as ->.
  destruct (parse_attacks_catalogs _ _ _ Hp) as [Hca Hcb].
  pose proof (hosts_get_dict _ _ _ Hg) as Hs.
  constructor.
  - apply keys_sset_present. congruence.
  - intros ip' v Hv Hn. destruct (String.eqb_spec ip ip') as [<-|Hd].
    + exfalso. apply (Hn entry). congruence.
    + now rewrite sget_sset_other.
  - intros ip' Hv. destruct (String.eqb_spec ip ip') as [<-|Hd].
    + congruence.
    + now rewrite sget_sset_other.
  - intros ip' entry0 Hv. destruct (String.eqb_spec ip ip') as [<-|Hd].
    + assert (entry0 = entry) by congruence. subst entry0.
      exists (write_fields entry a b). rewrite sget_sset_same.
      split; auto. split; [intros; now apply write_fields_other|].
      rewrite write_fields_attacks, write_fields_bugs. split.
      * destruct a as [|x a]; [now left|]. right.
        exists (x :: a). repeat split; auto. discriminate.
      * destruct b as [|x b]; [now left|]. right.
        exists (x :: b). repeat split; auto. discriminate.
    + exists entry0. rewrite sget_sset_other by assumption.
      repeat split; auto; now left.
Qed.

Lemma ingest_frame (so : SetOrder) (files : list (string * string)) :
  forall all_results hosts, frame hosts (fst (ingest so files all_results hosts)).
Proof.
  induction files as [|[file results] files IH]; intros ar hosts; simpl.
  - apply frame_refl.
  - destruct (ingest_file so ar hosts file results) as [[ar1 hosts1]|e] eqn:E.
    + eapply frame_trans; [|apply IH]. eapply ingest_file_frame; eauto.
    + apply frame_refl.
Qed.

Lemma out_hosts_run (so : SetOrder) (files : list (string * string))
      (hosts : hosts_t) (fs : file_system) :
  out_hosts (load_tls_scan_results so files hosts fs)
  = fst (ingest so files [] hosts).
Proof.
  unfold load_tls_scan_results.
  destruct (ingest so files [] hosts) as [hosts' [ar|e]]; auto.
  now destruct (save_all so ar fs).
Qed.

(** X8.  Whatever the files and however the call ends, the dataset that
    [load_tls_scan_results] leaves has the ips of the dataset it was
    given, in the same order; an entry that is not a mapping, or is an
    empty mapping, is left as it is; in an entry that is a mapping
    every field other than ["attacks"] and ["bugs"] is left as it is,
    and each of these two either is left as it is or holds a non-empty
    mapping whose keys are names of the corresponding catalog. *)
Theorem run_writes_only_attacks_and_bugs
        (so : SetOrder) (files : list (string * string)) (hosts : hosts_t)
        (fs : file_system) :
  let hosts' := out_hosts (load_tls_scan_results so files hosts fs) in
  keys hosts' = keys hosts
  /\ (forall ip v, sget hosts ip = Some v -> (forall entry, v <> VDict entry) ->
                   sget hosts' ip = Some v)
  /\ (forall ip, sget hosts ip = Some (VDict []) ->
                 sget hosts' ip = Some (VDict []))
  /\ (forall ip entry,
         sget hosts ip = Some (VDict entry) ->
         exists entry',
           sget hosts' ip = Some (VDict entry')
           /\ (forall k, k <> "attacks" -> k <> "bugs" ->
                         sget entry' k = sget entry k)
           /\ kept_or_decoded LIST_OF_ATTACKS (sget entry "attacks")
                              (sget entry' "attacks")
           /\ kept_or_decoded LIST_OF_BUGS (sget entry "bugs")
                              (sget entry' "bugs")).
Proof.
  cbv zeta. rewrite out_hosts_run.
  destruct (ingest_frame so files [] hosts) as [K O E F]. auto.
Qed.

Lemma run_writes_only_attacks_and_bugs_witness :
  let hosts' := out_hosts (load_tls_scan_results first_seen_order one_report
                                                 sample_hosts []) in
  sget sample_hosts "10.0.0.1" = Some (VDict sample_entry)
  /\ exists entry',
      sget hosts' "10.0.0.1" = Some (VDict entry')
      /\ (forall k, k <> "attacks" -> k <> "bugs" ->
                    sget entry' k = sget sample_entry k)
      /\ kept_or_decoded LIST_OF_ATTACKS (sget sample_entry "attacks")
                         (sget entry' "attacks")
      /\ kept_or_decoded LIST_OF_BUGS (sget sample_entry "bugs")
                         (sget entry' "bugs").
Proof.
  split; [reflexivity|].
  apply (proj2 (proj2 (proj2 (run_writes_only_attacks_and_bugs
                                first_seen_order one_report sample_hosts [])))).
  reflexivity.
Defined.

(** ** Which file the dataset remembers *)

(** The two mappings decoded from a file, when the file is for [ip]. *)
Definition decoded_fields (file results ip : string)
  : option (sdict pyval * sdict pyval) :=
  match _parse_attacks results, file_key file with
  | Parsed a b, Some (ip', _, _, _) =>
      if String.eqb ip' ip then Some (a, b) else None
  | _, _ => None
  end.

(** A field after the write-back of one file. *)
Definition written (field : option pyval) (found : option (sdict pyval))
  : option pyval :=
  match found with
  | Some ((_ :: _) as d) => Some (VDict d)
  | _ => field
  end.

Definition written_by (ip : string)
           (pick : sdict pyval * sdict pyval -> sdict pyval)
           (field : option pyval) (files : list (string * string))
  : option pyval :=
  fold_left
    (fun fld fr => written fld (option_map pick (decoded_fields (fst fr) (snd fr) ip)))
    files field.

Lemma ingest_file_fields (so : SetOrder) (all_results all_results' : results_t)
      (hosts hosts' : hosts_t) (file results ip : string) (entry : sdict pyval) :
  ingest_file so all_results hosts file results = Ok (all_results', hosts') ->
  sget hosts ip = Some (VDict entry) -> entry <> [] ->
  exists entry',
    sget hosts' ip = Some (VDict entry') /\ entry' <> []
    /\ sget entry' "attacks"
       = written (sget entry "attacks")
                 (option_map fst (decoded_fields file results ip))
    /\ sget entry' "bugs"
       = written (sget entry "bugs")
                 (option_map snd (decoded_fields file results ip)).
Proof.
  intros H Hs Hne. unfold decoded_fields.
  destruct (ingest_file_cases _ _ _ _ _ _ _ H)
    as [(Hb & _ & ->)|(ip0 & record & Hb & _ & Hh)].
  - exists entry. repeat split; auto.
    + unfold built_record in Hb.
      destruct (_parse_attacks results) as [|a b]; auto.
      destruct (file_key file) as [[[[ip1 ?] ?] ?]|]; auto.
      destruct (_search_vulnerabilities so hosts ip1); discriminate.
    + unfold built_record in Hb.
      destruct (_parse_attacks results) as [|a b]; auto.
      destruct (file_key file) as [[[[ip1 ?] ?] ?]|]; auto.
      destruct (_search_vulnerabilities so hosts ip1); discriminate.
  - destruct (built_record_some _ _ _ _ _ _ Hb)
      as (a & b & p1 & v1 & pr1 & vs & Hp & Hk & _ & ->).
    rewrite Hp, Hk. cbn [attacks bugs] in Hh.
    destruct (String.eqb_spec ip0 ip) as [->|Hd].
    + destruct Hh as [(entry0 & a' & b' & Hg & _ & [= <-] & [= <-] & ->)
                     |(Ht & ->)].
      * apply hosts_get_dict in Hg.
        assert (entry0 = entry) by congruence. subst entry0.
        exists (write_fields entry a b). rewrite sget_sset_same.
        split; auto. split; [now apply write_fields_nonempty|].
        rewrite write_fields_attacks, write_fields_bugs.
        cbn [option_map fst snd written]. split.
        -- now destruct a.
        -- now destruct b.
      * exfalso. unfold hosts_get in Ht. rewrite Hs in Ht.
        rewrite truthy_dict_nonempty in Ht; [discriminate|assumption].
    + exists entry. cbn [option_map written].
      destruct Hh as [(entry0 & a' & b' & _ & _ & _ & _ & ->)|(_ & ->)].
      * rewrite sget_sset_other by assumption. auto.
      * auto.
Qed.

Lemma ingest_fields (so : SetOrder) (ip : string)
      (files : list (string * string)) :
  forall all_results all_results' hosts hosts' entry,
    ingest so files all_results hosts = (hosts', Ok all_results') ->
    sget hosts ip = Some (VDict entry) -> entry <> [] ->
    exists entry',
      sget hosts' ip = Some (VDict entry') /\ entry' <> []
      /\ sget entry' "attacks" = written_by ip fst (sget entry "attacks") files
      /\ sget entry' "bugs" = written_by ip snd (sget entry "bugs") files.
Proof.
  unfold written_by.
  induction files as [|[file results] files IH]; simpl;
    intros ar ar' hosts hosts' entry H Hs Hne.
  - injection H as <- <-. eauto.
  - destruct (ingest_file so ar hosts file results) as [[ar1 hosts1]|e] eqn:Ef;
      [|discriminate].
    destruct (ingest_file_fields _ _ _ _ _ _ _ ip entry Ef Hs Hne)
      as (e1 & Hs1 & Hne1 & Ha1 & Hb1).
    destruct (IH _ _ _ _ e1 H Hs1 Hne1) as (e2 & Hs2 & Hne2 & Ha2 & Hb2).
    exists e2. rewrite Ha2, Hb2, Ha1, Hb1. auto.
Qed.

Lemma written_by_none (ip : string)
      (pick : sdict pyval * sdict pyval -> sdict pyval)
      (files : list (string * string)) :
  (forall f r ab, In (f, r) files -> decoded_fields f r ip = Some ab ->
                  pick ab = []) ->
  forall field, written_by ip pick field files = field.
Proof.
  unfold written_by.
  induction files as [|[f r] files IH]; simpl; intros H field; auto.
  rewrite IH by (intros; eapply H; eauto).
  destruct (decoded_fields f r ip) as [ab|] eqn:E; auto.
  cbn [option_map]. now rewrite (H f r ab) by auto.
Qed.

Lemma written_by_last (ip : string)
      (pick : sdict pyval * sdict pyval -> sdict pyval)
      (pre post : list (string * string)) (file results : string)
      (ab : sdict pyval * sdict pyval) (field : option pyval) :
  decoded_fields file results ip = Some ab -> pick ab <> [] ->
  (forall f r ab', In (f, r) post -> decoded_fields f r ip = Some ab' ->
                   pick ab' = []) ->
  written_by ip pick field (pre ++ (file, results) :: post)
  = Some (VDict (pick ab)).
Proof.
  intros Hd Hne Hpost.
  assert (Happ : written_by ip pick field (pre ++ (file, results) :: post)
                 = written_by ip pick
                     (written (written_by ip pick field pre)
                              (option_map pick (decoded_fields file results ip)))
                     post).
  { unfold written_by. now rewrite fold_left_app. }
  rewrite Happ, written_by_none by assumption.
  rewrite Hd. cbn [option_map written]. now destruct (pick ab).
Qed.

(** X9.  The dataset remembers the last file, where the result map
    keeps the first: when the loop ends normally and the entry of [ip]
    is a non-empty mapping, its ["attacks"] field holds the attacks of
    the last file of the listing that is decoded to [ip] with at least
    one attack, and its ["bugs"] field the bugs of the last such file
    with at least one bug. *)
Theorem dataset_keeps_last_decoded
        (so : SetOrder) (pre post : list (string * string))
        (file results ip : string) (hosts hosts' : hosts_t)
        (all_results : results_t) (entry a b : sdict pyval) :
  ingest so (pre ++ (file, results) :: post) [] hosts = (hosts', Ok all_results) ->
  sget hosts ip = Some (VDict entry) -> entry <> [] ->
  decoded_fields file results ip = Some (a, b) ->
  exists entry',
    sget hosts' ip = Some (VDict entry')
    /\ (a <> [] ->
        (forall f r a' b', In (f, r) post ->
                           decoded_fields f r ip = Some (a', b') -> a' = []) ->
        sget entry' "attacks" = Some (VDict a))
    /\ (b <> [] ->
        (forall f r a' b', In (f, r) post ->
                           decoded_fields f r ip = Some (a', b') -> b' = []) ->
        sget entry' "bugs" = Some (VDict b)).
Proof.
  intros H Hs Hne Hd.
  destruct (ingest_fields so ip _ _ _ _ _ entry H Hs Hne)
    as (entry' & Hs' & _ & Ha & Hb).
  exists entry'. split; auto. split.
  - intros Hna Hpost. rewrite Ha.
    apply (written_by_last ip fst pre post file results (a, b)); auto.
    intros f r [a' b'] Hin Hd'. simpl. eauto.
  - intros Hnb Hpost. rewrite Hb.
    apply (written_by_last ip snd pre post file results (a, b)); auto.
    intros f r [a' b'] Hin Hd'. simpl. eauto.
Qed.

Lemma dataset_keeps_last_decoded_witness :
  ingest first_seen_order
         ([("10.0.0.1-443-Acme-Box.txt", "Heartbleed : true")]
            ++ ("10.0.0.1-8443-Acme-Box.txt", "CRIME : true") :: [])
         [] sample_hosts
  = (sset sample_hosts "10.0.0.1"
          (VDict (sset sample_entry "attacks" (VDict [("CRIME", VTrue)]))),
     Ok sample_results)
  /\ sget sample_hosts "10.0.0.1" = Some (VDict sample_entry)
  /\ sample_entry <> []
  /\ decoded_fields "10.0.0.1-8443-Acme-Box.txt" "CRIME : true" "10.0.0.1"
     = Some ([("CRIME", VTrue)], [])
  /\ exists entry',
      sget (sset sample_hosts "10.0.0.1"
                 (VDict (sset sample_entry "attacks" (VDict [("CRIME", VTrue)]))))
           "10.0.0.1" = Some (VDict entry')
      /\ sget entry' "attacks" = Some (VDict [("CRIME", VTrue)]).
Proof.
  assert (H1 : ingest first_seen_order
                 ([("10.0.0.1-443-Acme-Box.txt", "Heartbleed : true")]
                    ++ ("10.0.0.1-8443-Acme-Box.txt", "CRIME : true") :: [])
                 [] sample_hosts
               = (sset sample_hosts "10.0.0.1"
                       (VDict (sset sample_entry "attacks"
                                    (VDict [("CRIME", VTrue)]))),
                  Ok sample_results)) by (vm_compute; reflexivity).
  assert (H2 : sget sample_hosts "10.0.0.1" = Some (VDict sample_entry))
    by reflexivity.
  assert (H3 : sample_entry <> []) by discriminate.
  assert (H4 : decoded_fields "10.0.0.1-8443-Acme-Box.txt" "CRIME : true"
                              "10.0.0.1" = Some ([("CRIME", VTrue)], []))
    by (vm_compute; reflexivity).
  split; [exact H1|]. split; [exact H2|]. split; [exact H3|]. split; [exact H4|].
  destruct (dataset_keeps_last_decoded first_seen_order _ _ _ _ _ _ _ _ _ _ _
              H1 H2 H3 H4) as (entry' & Hs & Ha & _).
  exists entry'. split; [exact Hs|]. apply Ha; [discriminate|].
  intros f r a' b' [].
Defined.

(** ** The order of the result map *)

(** The ip a file is decoded to, if it is decoded. *)
Definition decoded_ip (file results : string) : option string :=
  match _parse_attacks results, file_key file with
  | Parsed _ _, Some (ip, _, _, _) => Some ip
  | _, _ => None
  end.

Definition decoded_ips (files : list (string * string)) : list string :=
  flat_map (fun fr => match decoded_ip (fst fr) (snd fr) with
                      | Some ip => [ip]
                      | None => []
                      end) files.

(** The first occurrences of the names of a list, in order. *)
Fixpoint first_names (l : list string) : list string :=
  match l with
  | [] => []
  | x :: r => x :: filter (fun y => negb (String.eqb x y)) (first_names r)
  end.

Definition unseen (seen : list string) (y : string) : bool :=
  negb (existsb (String.eqb y) seen).

Lemma unseen_sget {V} (d : sdict V) (k : string) :
  unseen (keys d) k = match sget d k with Some _ => false | None => true end.
Proof.
  unfold unseen, keys, sget. induction d as [|[k' v] d IH]; simpl; auto.
  rewrite String.eqb_sym. destruct (String.eqb k' k); simpl; auto.
Qed.

Lemma built_record_decoded_ip (so : SetOrder) (hosts : hosts_t)
      (file results : string) (built : option (string * HostRecord)) :
  built_record so hosts file results = Ok built ->
  decoded_ip file results = option_map fst built.
Proof.
  unfold built_record, decoded_ip.
  destruct (_parse_attacks results) as [|a b]; [now intros [= <-]|].
  destruct (file_key file) as [[[[ip ?] ?] ?]|]; [|now intros [= <-]].
  destruct (_search_vulnerabilities so hosts ip); cbn [bind];
    [now intros [= <-]|discriminate].
Qed.

Lemma ingest_keys (so : SetOrder) (files : list (string * string)) :
  forall all_results all_results' hosts hosts',
    ingest so files all_results hosts = (hosts', Ok all_results') ->
    keys all_results'
    = keys all_results
        ++ filter (unseen (keys all_results)) (first_names (decoded_ips files)).
Proof.
  induction files as [|[file results] files IH]; simpl;
    intros ar ar' hosts hosts' H.
  - injection H as _ <-. now rewrite app_nil_r.
  - destruct (ingest_file so ar hosts file results) as [[ar1 hosts1]|e] eqn:Ef;
      [|discriminate].
    rewrite (IH _ _ _ _ H). unfold decoded_ips at 2. cbn [flat_map fst snd].
    fold (decoded_ips files).
    destruct (ingest_file_cases _ _ _ _ _ _ _ Ef)
      as [(Hb & -> & _)|(ip0 & record & Hb & -> & _)];
      rewrite (built_record_decoded_ip _ _ _ _ _ Hb); cbn [option_map fst app];
      auto.
    cbn [first_names filter]. rewrite (unseen_sget ar ip0).
    destruct (sget ar ip0) as [r0|] eqn:Es.
    + f_equal. rewrite filter_filter. apply filter_ext_in_bool. intros y _.
      destruct (String.eqb_spec ip0 y) as [<-|]; cbn [negb andb]; auto.
      rewrite unseen_sget, Es. reflexivity.
    + rewrite keys_app. cbn [keys map fst]. rewrite <- app_assoc. cbn [app].
      do 2 f_equal. rewrite filter_filter. apply filter_ext_in_bool.
      intros y _. unfold unseen. rewrite existsb_app. cbn [existsb].
      rewrite orb_false_r, negb_orb, (String.eqb_sym y ip0). apply andb_comm.
Qed.

(** X10.  When the loop ends normally, the ips of the result map are the
    ips of the decoded files, each once, in the order in which they
    first appear in the directory listing. *)
Theorem result_map_order_is_first_appearance
        (so : SetOrder) (files : list (string * string))
        (hosts hosts' : hosts_t) (all_results : results_t) :
  ingest so files [] hosts = (hosts', Ok all_results) ->
  keys all_results = first_names (decoded_ips files).
Proof.
  intros H. rewrite (ingest_keys so files _ _ _ _ H). cbn [keys map app].
  unfold unseen. cbn [existsb negb]. apply filter_true.
Qed.

Definition interleaved_reports : list (string * string) :=
  [ ("10.0.0.2-443-Acme-Box2.txt", "Heartbleed : true");
    ("10.0.0.1-443-Acme-Box1.txt", "Heartbleed : true");
    ("10.0.0.9-443-Acme-Box1.txt", "Cannot reach the Server");
    ("10.0.0.2-8443-Acme-Box2.txt", "CRIME : true") ].

Definition interleaved_results : results_t :=
  [ ("10.0.0.2",
     mkHost "Acme" "Box2" "443" (AsDict [("Heartbleed", VTrue)]) (AsDict [])
            [] None);
    ("10.0.0.1",
     mkHost "Acme" "Box1" "443" (AsDict [("Heartbleed", VTrue)]) (AsDict [])
            [] None) ].

Lemma result_map_order_is_first_appearance_witness :
  ingest first_seen_order interleaved_reports [] [] = ([], Ok interleaved_results)
  /\ keys interleaved_results = first_names (decoded_ips interleaved_reports).
Proof.
  assert (H : ingest first_seen_order interleaved_reports [] []
              = ([], Ok interleaved_results)) by (vm_compute; reflexivity).
  split; [exact H|].
  exact (result_map_order_is_first_appearance first_seen_order
           interleaved_reports [] [] interleaved_results H).
Defined.

(** ** When the resolver raises *)

Definition is_mapping (v : pyval) : bool :=
  match v with
  | VDict _ => true
  | _ => false
  end.

Lemma resolver_on_mapping (so : SetOrder) (hosts : hosts_t) (ip : string)
      (entry vulns : sdict pyval) (e : exn) :
  hosts_get hosts ip = VDict entry ->
  py_get (VDict entry) "vulnerabilities" = Ok (VDict vulns) ->
  _search_vulnerabilities so hosts ip = Raise e -> e = TypeError.
Proof.
  intros Hg Hv H.
  destruct (resolver_raises_kinds so hosts ip e H) as [->|]; auto.
  exfalso. revert H. unfold _search_vulnerabilities. rewrite Hg, Hv.
  destruct (truthy (VDict entry)); cbn [negb bind]; [|discriminate].
  destruct (truthy (VDict vulns)); cbn [negb py_get bind]; [|discriminate].
  destruct (py_add _ _) as [both|e1] eqn:Ea; cbn [bind].
  - destruct (py_list both) as [items|e2] eqn:El; cbn [bind].
    + unfold list_set.
      destruct (mapM hashable items) as [atoms|e3] eqn:Em; cbn [bind];
        [discriminate|].
      intros [= ->].
      assert (AttributeError = TypeError); [|discriminate].
      eapply mapM_raises; [|exact Em].
      intros [x|l|d] e'; simpl; congruence.
    + destruct both as [[| | | |]|l|d]; simpl in El; congruence.
  - unfold py_add in Ea.
    repeat match type of Ea with
           | context [match ?x with _ => _ end] => destruct x
           end; congruence.
Qed.

(** X11.  The resolver raises [AttributeError] exactly when the entry
    of the ip is truthy without being a mapping, or is a mapping whose
    ["vulnerabilities"] field is truthy without being a mapping; any
    other exception it raises is a [TypeError]. *)
Theorem resolver_attribute_error
        (so : SetOrder) (hosts : hosts_t) (host_ip : string) :
  (_search_vulnerabilities so hosts host_ip = Raise AttributeError
   <-> (truthy (hosts_get hosts host_ip) = true
        /\ is_mapping (hosts_get hosts host_ip) = false)
       \/ exists entry field,
            hosts_get hosts host_ip = VDict entry
            /\ sget entry "vulnerabilities" = Some field
            /\ truthy field = true /\ is_mapping field = false)
  /\ forall e, _search_vulnerabilities so hosts host_ip = Raise e ->
               e = AttributeError \/ e = TypeError.
Proof.
  split; [|apply resolver_raises_kinds].
  split.
  - intros H.
    destruct (hosts_get hosts host_ip) as [x|l|entry] eqn:Hg.
    + left. split; auto. revert H. unfold _search_vulnerabilities. rewrite Hg.
      destruct (truthy (VAtom x)); [auto|discriminate].
    + left. split; auto. revert H. unfold _search_vulnerabilities. rewrite Hg.
      destruct (truthy (VList l)); [auto|discriminate].
    + right. exists entry.
      destruct (sget entry "vulnerabilities") as [field|] eqn:Hf.
      * exists field. split; auto. split; auto.
        destruct field as [x|l|vulns].
        -- split; auto. revert H. unfold _search_vulnerabilities.
           rewrite Hg. cbn [py_get]. rewrite Hf.
           destruct (truthy (VDict entry)); cbn [negb bind]; [|discriminate].
           destruct (truthy (VAtom x)); [auto|discriminate].
        -- split; auto. revert H. unfold _search_vulnerabilities.
           rewrite Hg. cbn [py_get]. rewrite Hf.
           destruct (truthy (VDict entry)); cbn [negb bind]; [|discriminate].
           destruct (truthy (VList l)); [auto|discriminate].
        -- exfalso.
           assert (AttributeError = TypeError); [|discriminate].
           apply (resolver_on_mapping so hosts host_ip entry vulns); auto.
           cbn [py_get]. now rewrite Hf.
      * exfalso. revert H. unfold _search_vulnerabilities.
        rewrite Hg. cbn [py_get]. rewrite Hf.
        destruct (truthy (VDict entry)); cbn [negb bind truthy atom_truthy];
          discriminate.
  - unfold _search_vulnerabilities.
    intros [[Ht Hm]|(entry & field & Hg & Hf & Ht & Hm)].
    + rewrite Ht. cbn [negb].
      now destruct (hosts_get hosts host_ip) as [x|l|d].
    + rewrite Hg. cbn [py_get]. rewrite Hf.
      assert (He : truthy (VDict entry) = true).
      { destruct entry; [discriminate|reflexivity]. }
      rewrite He. cbn [negb bind]. rewrite Ht. cbn [negb bind].
      now destruct field as [x|l|d].
Qed.

Lemma resolver_attribute_error_witness :
  truthy (hosts_get list_entry_hosts "10.0.0.1") = true
  /\ is_mapping (hosts_get list_entry_hosts "10.0.0.1") = false
  /\ _search_vulnerabilities first_seen_order list_entry_hosts "10.0.0.1"
     = Raise AttributeError.
Proof.
  split; [reflexivity|]. split; [reflexivity|].
  apply (proj2 (proj1 (resolver_attribute_error first_seen_order
                         list_entry_hosts "10.0.0.1"))).
  left. split; reflexivity.
Defined.

(** ** The decoder's two outcomes *)

(** [needle] occurs in [hay] as a run of consecutive characters. *)
Definition occurs_in (needle hay : string) : Prop :=
  exists before after, hay = (before ++ needle ++ after)%string.

Lemma prefix_iff (needle hay : string) :
  String.prefix needle hay = true <-> exists after, hay = (needle ++ after)%string.
Proof.
  revert hay. induction needle as [|a needle IH]; intros hay.
  - destruct hay; simpl; split; eauto.
  - destruct hay as [|b hay]; simpl; [split; [discriminate|intros [? [=]]]|].
    destruct (ascii_dec a b) as [<-|Hd].
    + rewrite IH. split; intros [after H]; exists after; congruence.
    + split; [discriminate|]. intros [after H]. simpl in H. congruence.
Qed.

Lemma contains_iff (needle hay : string) :
  contains needle hay = true <-> occurs_in needle hay.
Proof.
  unfold occurs_in. induction hay as [|c hay IH]; cbn [contains].
  - rewrite orb_false_r, prefix_iff. split.
    + intros [after H]. exists "", after. exact H.
    + intros ([|b before] & after & H); [eauto|discriminate].
  - rewrite orb_true_iff, prefix_iff, IH. split.
    + intros [[after H]|(before & after & H)].
      * exists "", after. exact H.
      * exists (String c before), after. simpl. now rewrite H.
    + intros ([|b before] & after & H).
      * left. eauto.
      * right. injection H as _ H. eauto.
Qed.

(** X12.  The decoder gives the error pair exactly when one of the two
    marker sentences occurs somewhere in the report, whatever else the
    report holds; on every other report it gives the two mappings. *)
Theorem decoder_error_iff_marker (results : string) :
  (_parse_attacks results = ParseError
   <-> occurs_in "Cannot reach the Server" results
       \/ occurs_in "Server does not seem to support SSL" results)
  /\ (_parse_attacks results <> ParseError ->
      exists attacks bugs, _parse_attacks results = Parsed attacks bugs).
Proof.
  split.
  - rewrite <- !contains_iff. unfold _parse_attacks.
    destruct (contains "Cannot reach the Server" results);
      [split; auto|].
    destruct (contains "Server does not seem to support SSL" results);
      [split; auto|].
    split; [discriminate|]. intros [H|H]; discriminate.
  - destruct (_parse_attacks results) as [|a b]; [congruence|eauto].
Qed.

Lemma decoder_error_iff_marker_witness :
  occurs_in "Cannot reach the Server"
            "Heartbleed : true
Cannot reach the Server, scan aborted"
  /\ _parse_attacks "Heartbleed : true
Cannot reach the Server, scan aborted" = ParseError.
Proof.
  assert (H : occurs_in "Cannot reach the Server"
                        "Heartbleed : true
Cannot reach the Server, scan aborted").
  { exists "Heartbleed : true
", ", scan aborted". reflexivity. }
  split; [exact H|].
  apply (proj2 (proj1 (decoder_error_iff_marker _))). now left.
Defined.

(** ** The shape of the decoded mappings *)

(** The first value reported for the entry is ["true"]. *)
Definition reported_true (results entry : string) : bool :=
  match first_capture entry results with
  | Some v => String.eqb v "true"
  | None => false
  end.

Lemma scan_step_append (results : string) (found : sdict pyval) (entry : string) :
  ~ In entry (keys found) ->
  scan_step results found entry
  = found ++ (if reported_true results entry then [(entry, VTrue)] else []).
Proof.
  intros Hnew. unfold scan_step, reported_true, first_capture.
  destruct (findall1 (entry_pattern entry) results) as [|first l];
    cbn [hd_error]; [now rewrite app_nil_r|].
  destruct (String.eqb first "true"); [|now rewrite app_nil_r].
  rewrite supdate_one. apply sset_absent. now apply sget_none_iff.
Qed.

Lemma scan_catalog_append (results : string) (catalog : list string) :
  NoDup catalog ->
  forall found,
    (forall e, In e catalog -> ~ In e (keys found)) ->
    fold_left (scan_step results) catalog found
    = found ++ map (fun e => (e, VTrue)) (filter (reported_true results) catalog).
Proof.
  induction 1 as [|entry catalog Hentry Hnd IH]; intros found Hnew; simpl.
  - now rewrite app_nil_r.
  - rewrite scan_step_append by (apply Hnew; simpl; auto).
    rewrite IH.
    + rewrite <- app_assoc. f_equal.
      now destruct (reported_true results entry).
    + intros e He Hin. rewrite keys_app in Hin. apply in_app_or in Hin.
      destruct Hin as [Hin|Hin]; [apply (Hnew e); simpl; auto|].
      destruct (reported_true results entry); [|contradiction].
      destruct Hin as [<-|[]]. contradiction.
Qed.

Lemma bugs_catalog_nodup : NoDup LIST_OF_BUGS.
Proof.
  unfold LIST_OF_BUGS.
  repeat (constructor; [simpl; intuition discriminate|]). constructor.
Qed.

(** X13.  On a report without failure marker, each of the two mappings
    lists the entries of its catalog whose first reported value is
    ["true"], in the order of the catalog, each once and each with the
    value [True]. *)
Theorem decoded_mappings_follow_catalog (results : string) (a b : sdict pyval) :
  _parse_attacks results = Parsed a b ->
  a = map (fun e => (e, VTrue)) (filter (reported_true results) LIST_OF_ATTACKS)
  /\ b = map (fun e => (e, VTrue)) (filter (reported_true results) LIST_OF_BUGS).
Proof.
  unfold _parse_attacks.
  destruct (contains "Cannot reach the Server" results); [discriminate|].
  destruct (contains "Server does not seem to support SSL" results);
    [discriminate|].
  intros [= <- <-].
  change (scan_catalog ?c results) with (fold_left (scan_step results) c []).
  split.
  - now rewrite (scan_catalog_append results _ attacks_catalog_nodup []).
  - now rewrite (scan_catalog_append results _ bugs_catalog_nodup []).
Qed.

Lemma decoded_mappings_follow_catalog_witness :
  _parse_attacks "Heartbleed : true
CRIME : true
Logjam : false"
  = Parsed [("CRIME", VTrue); ("Heartbleed", VTrue)] []
  /\ [("CRIME", VTrue); ("Heartbleed", VTrue)]
     = map (fun e => (e, VTrue))
           (filter (reported_true "Heartbleed : true
CRIME : true
Logjam : false") LIST_OF_ATTACKS).
Proof.
  assert (H : _parse_attacks "Heartbleed : true
CRIME : true
Logjam : false"
              = Parsed [("CRIME", VTrue); ("Heartbleed", VTrue)] [])
    by (vm_compute; reflexivity).
  split; [exact H|].
  exact (proj1 (decoded_mappings_follow_catalog _ _ _ H)).
Defined.

(** ** How a call may end, and the files it leaves *)

(** The nine files of a call, in the order they are written. *)
Definition ARTIFACTS : list string :=
  [ FULL_RESULTS_JSON; UNIQUE_ATTACKS_JSON; UNIQUE_BUGS_JSON;
    UNIQUE_VULNERABILITIES_JSON; FULL_RESULTS_CSV; UNIQUE_ATTACKS_CSV;
    UNIQUE_BUGS_CSV; UNIQUE_VULNERABILITIES_CSV;
    UNIQUE_GROUPPED_PRODUCTS_RESULTS_CSV ].

Definition field_table (results : results_t) (ent_type : string) : table :=
  sorted by_count_desc (fold_left count_one (counted_items results ent_type) []).

(** The files after a call that ends normally. *)
Definition files_of_run (so : SetOrder) (all_results : results_t)
           (fs : file_system) : file_system :=
  let write name c fs := sset (sset fs (full_path name) Opened) (full_path name) c in
  write UNIQUE_GROUPPED_PRODUCTS_RESULTS_CSV
    (CsvGrouped (grouped_rows (grouped_of so (csv_mutated all_results)
                                          (keys (attack_table all_results)))))
  (write UNIQUE_VULNERABILITIES_CSV
     (CsvCounts (field_table all_results "vulnerabilities"))
  (write UNIQUE_BUGS_CSV (CsvCounts (field_table all_results "bugs"))
  (write UNIQUE_ATTACKS_CSV (CsvCounts (field_table all_results "attacks"))
  (write FULL_RESULTS_CSV
     (CsvRecords (map (fun item => csv_view (fst item) (snd item))
                      (sorted by_product all_results)))
  (write UNIQUE_VULNERABILITIES_JSON
     (Json (JTable (field_table all_results "vulnerabilities")))
  (write UNIQUE_BUGS_JSON (Json (JTable (field_table all_results "bugs")))
  (write UNIQUE_ATTACKS_JSON (Json (JTable (field_table all_results "attacks")))
  (write FULL_RESULTS_JSON (Json (JResults all_results)) fs)))))))).

Lemma save_all_ok (so : SetOrder) (files : list (string * string))
      (hosts hosts' : hosts_t) (all_results : results_t) (fs : file_system) :
  ingest so files [] hosts = (hosts', Ok all_results) ->
  json_data_ok (JResults all_results) = true ->
  save_all so all_results fs = (files_of_run so all_results fs, Ok tt).
Proof.
  intros Hi Hj. destruct (ingest_records so files _ _ _ Hi) as [Hnd Hrec].
  unfold save_all.
  unfold io_bind at 1, io_lift at 1.
  rewrite count_unique_entities_eq by (simpl; auto).
  unfold io_bind at 1, io_lift at 1.
  rewrite count_unique_entities_eq by (simpl; auto).
  unfold io_bind at 1, io_lift at 1.
  rewrite count_unique_entities_eq by (simpl; auto).
  fold (counted_items all_results "attacks").
  fold (counted_items all_results "bugs").
  fold (counted_items all_results "vulnerabilities").
  fold (field_table all_results "attacks").
  fold (field_table all_results "bugs").
  fold (field_table all_results "vulnerabilities").
  assert (Ha : json_data_ok (JTable (field_table all_results "attacks")) = true).
  { apply table_json_ok. apply forallb_concat. intros. apply names_json_ok. auto. }
  assert (Hb : json_data_ok (JTable (field_table all_results "bugs")) = true).
  { apply table_json_ok. apply forallb_concat. intros. apply names_json_ok. auto. }
  assert (Hv : json_data_ok (JTable (field_table all_results "vulnerabilities"))
               = true).
  { apply table_json_ok. apply forallb_concat. intros host Hin.
    cbn [json_data_ok] in Hj. rewrite forallb_forall in Hj.
    specialize (Hj host Hin). unfold record_json_ok in Hj.
    apply andb_true_iff in Hj. apply Hj. }
  unfold save_results_json, save_unique_results_csv,
    save_unique_groupped_results_csv.
  unfold io_bind, io_write, io_lift. rewrite Hj, Ha, Hb, Hv.
  rewrite save_results_csv_ok
    by (auto; intros host Hin; apply (Hrec host Hin)).
  rewrite group_results_ok.
  - rewrite attack_table_csv_mutated. reflexivity.
  - intros host Hin _. apply values_csv_mutated in Hin.
    destruct Hin as (k & h & _ & ->). discriminate.
Qed.

Lemma files_of_run_written (so : SetOrder) (all_results : results_t)
      (fs : file_system) (name : string) :
  In name ARTIFACTS ->
  exists c, sget (files_of_run so all_results fs) (full_path name) = Some c
            /\ c <> Opened.
Proof.
  unfold ARTIFACTS, files_of_run. cbv beta zeta. intros H. simpl in H.
  repeat (destruct H as [<-|H];
          [eexists; split;
           [rewrite ?sget_sset_other by (vm_compute; discriminate);
            apply sget_sset_same
           |discriminate]|]).
  contradiction.
Qed.

Lemma files_of_run_frame (so : SetOrder) (all_results : results_t)
      (fs : file_system) (path : string) :
  ~ In path (map full_path ARTIFACTS) ->
  sget (files_of_run so all_results fs) path = sget fs path.
Proof.
  unfold ARTIFACTS, files_of_run. cbv beta zeta. intros H.
  rewrite !sget_sset_other; auto;
    intros <-; apply H; simpl; tauto.
Qed.

(** X14.  A call of [load_tls_scan_results] ends in one of three ways.
    The loop raises an [AttributeError] or a [TypeError]: no file is
    touched.  Or the result map cannot be encoded: the full-results JSON
    file is left opened, nothing else is touched, and the exception is
    the one of [save_results_json].  Or the call ends normally: each of
    the nine files holds its document, and no other file is touched.
    No CSV stage fails in a call. *)
Theorem run_ends_in_one_of_three_ways
        (so : SetOrder) (files : list (string * string)) (hosts : hosts_t)
        (fs : file_system) :
  let run := load_tls_scan_results so files hosts fs in
  (exists e, (e = AttributeError \/ e = TypeError)
             /\ out_status run = Raise e /\ out_files run = fs)
  \/ (out_status run = Raise CAN_NOT_SAVE
      /\ out_files run = sset fs (full_path FULL_RESULTS_JSON) Opened)
  \/ (out_status run = Ok tt
      /\ (forall name, In name ARTIFACTS ->
            exists c, sget (out_files run) (full_path name) = Some c
                      /\ c <> Opened)
      /\ (forall path, ~ In path (map full_path ARTIFACTS) ->
                       sget (out_files run) path = sget fs path)).
Proof.
  cbv zeta. unfold load_tls_scan_results.
  destruct (ingest so files [] hosts) as [hosts' [all_results|e]] eqn:Hi.
  - destruct (json_data_ok (JResults all_results)) eqn:Hj.
    + right. right. rewrite (save_all_ok so files hosts hosts' _ fs Hi Hj).
      cbn [out_status out_files]. split; auto. split.
      * intros name. apply files_of_run_written.
      * intros path. apply files_of_run_frame.
    + right. left.
      assert (Hs : save_all so all_results fs
                   = (sset fs (full_path FULL_RESULTS_JSON) Opened,
                      Raise CAN_NOT_SAVE)).
      { unfold save_all.
        unfold io_bind at 1, io_lift at 1.
        rewrite count_unique_entities_eq by (simpl; auto).
        unfold io_bind at 1, io_lift at 1.
        rewrite count_unique_entities_eq by (simpl; auto).
        unfold io_bind at 1, io_lift at 1.
        rewrite count_unique_entities_eq by (simpl; auto).
        now rewrite save_results_json_fails. }
      rewrite Hs. cbn [out_status out_files]. auto.
  - left. exists e. cbn [out_status out_files]. split; auto.
    destruct (ingest_raises_sound so hosts files [] hosts hosts' e
                (same_view_refl hosts) Hi) as (f & r & ip & _ & _ & Hr).
    eapply resolver_raises_kinds; eauto.
Qed.

(** ** The rows of the grouped file *)

Lemma filter_nonempty {A} (f : A -> bool) (l : list A) (x : A) :
  In x l -> f x = true -> 1 <= List.length (filter f l).
Proof.
  intros Hin Hf.
  assert (H : In x (filter f l)) by (apply filter_In; auto).
  destruct (filter f l); [destruct H|simpl; lia].
Qed.

Lemma vendor_rows_counted (so : SetOrder) (with_attack : list HostRecord)
      (attack : atom) (v : string) (row : grouped_row) :
  In v (list_set_str so (map vendor with_attack)) ->
  In row (vendor_rows attack v (products_of so with_attack v)) ->
  row_quantity row = List.length (row_ips row) /\ 1 <= row_quantity row.
Proof.
  intros Hv [<-|Hrow].
  - cbn [vendor_total_row row_quantity row_ips].
    rewrite products_of_total.
    rewrite (Permutation_length (products_of_ips so with_attack v)).
    rewrite length_map. split; auto.
    apply list_set_str_in in Hv. apply in_map_iff in Hv.
    destruct Hv as (host & Hvh & Hin).
    apply (filter_nonempty _ _ host); auto.
    unfold of_vendor. rewrite Hvh. apply String.eqb_refl.
  - apply in_map_iff in Hrow. destruct Hrow as ([p info] & <- & Hp).
    cbn [row_quantity row_ips fst snd].
    unfold products_of in Hp. apply in_map_iff in Hp.
    destruct Hp as (p' & [= -> <-] & Hp').
    cbn [ips quantity]. rewrite length_map. split; auto.
    apply list_set_str_in in Hp'. apply in_map_iff in Hp'.
    destruct Hp' as (host & Hph & Hin). apply filter_In in Hin.
    destruct Hin as [Hin Hvh].
    apply (filter_nonempty _ _ host); auto.
    unfold of_product. unfold of_vendor in Hvh. rewrite Hvh, Hph.
    now rewrite String.eqb_refl.
Qed.

(** X15.  Whenever the grouped report is built, none of its rows is
    empty: every row, a vendor's total or a product's, lists at least
    one ["ip:port"] string, its quantity is the number of the strings
    it lists, and its ["versions"] cell is [None]. *)
Theorem grouped_rows_count_their_ips
        (so : SetOrder) (results : results_t) (groupped_results : grouped_t)
        (row : grouped_row) :
  group_results so results = Ok groupped_results ->
  In row (grouped_rows groupped_results) ->
  row_quantity row = List.length (row_ips row)
  /\ 1 <= row_quantity row
  /\ row_versions row = VNone.
Proof.
  intros Hok Hrow.
  rewrite group_results_ok in Hok by (eapply group_results_needs_ip; eauto).
  injection Hok as <-.
  unfold grouped_rows in Hrow. apply in_flat_map in Hrow.
  destruct Hrow as ([attack vendors] & Ha & Hrow).
  apply in_flat_map in Hrow. destruct Hrow as ([v products] & Hv & Hrow).
  cbn [fst snd] in Hrow.
  unfold grouped_of in Ha. apply in_map_iff in Ha.
  destruct Ha as (a & [= -> <-] & _).
  unfold vendors_of in Hv. apply in_map_iff in Hv.
  destruct Hv as (v' & [= -> <-] & Hv').
  destruct (vendor_rows_counted so _ attack v row Hv' Hrow) as [Hq Hone].
  repeat split; auto.
  destruct Hrow as [<-|Hrow]; [reflexivity|].
  apply in_map_iff in Hrow. now destruct Hrow as (e & <- & _).
Qed.

Lemma grouped_rows_count_their_ips_witness :
  group_results first_seen_order (csv_mutated three_reports_results)
  = Ok [(AStr "Heartbleed",
         [("Acme",
           [("Box1", mkInfo ["10.0.0.1:443"] 1);
            ("Box2", mkInfo ["10.0.0.2:443"; "10.0.0.3:443"] 2)])])]
  /\ In (mkRow (AStr "Heartbleed") "Acme (total)" "" VNone
               ["10.0.0.1:443"; "10.0.0.2:443"; "10.0.0.3:443"] 3)
        three_reports_grouped
  /\ 3 = List.length ["10.0.0.1:443"; "10.0.0.2:443"; "10.0.0.3:443"]
  /\ 1 <= 3.
Proof.
  assert (H1 : group_results first_seen_order (csv_mutated three_reports_results)
               = Ok [(AStr "Heartbleed",
                      [("Acme",
                        [("Box1", mkInfo ["10.0.0.1:443"] 1);
                         ("Box2", mkInfo ["10.0.0.2:443"; "10.0.0.3:443"] 2)])])])
    by (vm_compute; reflexivity).
  assert (H2 : In (mkRow (AStr "Heartbleed") "Acme (total)" "" VNone
                         ["10.0.0.1:443"; "10.0.0.2:443"; "10.0.0.3:443"] 3)
                  three_reports_grouped) by (simpl; auto).
  split; [exact H1|]. split; [exact H2|].
  destruct (grouped_rows_count_their_ips first_seen_order _ _ _ H1 H2)
    as (Hq & Hone & _).
  split; [exact Hq|exact Hone].
Defined.

(** X16.  On a map none of whose records carries an attack (the empty
    map among them) the grouped serializer writes a file without rows
    and ends normally, whether or not the records have an ["ip"] key. *)
Theorem grouped_report_without_attacks
        (so : SetOrder) (results : results_t) (filename : string)
        (fs : file_system) :
  (forall host, In host (values results) -> names_items (attacks host) = []) ->
  save_unique_groupped_results_csv so results filename fs
  = (sset (sset fs (full_path filename) Opened) (full_path filename)
          (CsvGrouped []),
     Ok tt).
Proof.
  intros Hnone.
  unfold save_unique_groupped_results_csv, io_bind, io_lift, io_write.
  rewrite group_results_ok.
  - assert (Hitems : List.concat (map (fun host => field_items host "attacks")
                                      (values results)) = []).
    { induction (values results) as [|host hosts IH]; simpl; auto.
      rewrite IH by (intros; apply Hnone; simpl; auto).
      unfold field_items. cbn [String.eqb Ascii.eqb Bool.eqb].
      rewrite (Hnone host) by (simpl; auto). reflexivity. }
    unfold attack_table. rewrite Hitems. reflexivity.
  - intros host Hin Hne. now rewrite (Hnone host Hin) in Hne.
Qed.

(** A record without attacks, as the loop leaves it (no ["ip"] key). *)
Definition quiet_results : results_t :=
  [ ("10.0.0.1",
     mkHost "Acme" "Box" "443" (AsDict []) (AsDict [("ALPN Intolerant", VTrue)])
            [] None) ].

Lemma grouped_report_without_attacks_witness :
  (forall host, In host (values quiet_results) ->
                names_items (attacks host) = [])
  /\ save_unique_groupped_results_csv first_seen_order quiet_results
       UNIQUE_GROUPPED_PRODUCTS_RESULTS_CSV []
     = (sset (sset [] (full_path UNIQUE_GROUPPED_PRODUCTS_RESULTS_CSV) Opened)
             (full_path UNIQUE_GROUPPED_PRODUCTS_RESULTS_CSV) (CsvGrouped []),
        Ok tt).
Proof.
  assert (H : forall host, In host (values quiet_results) ->
                           names_items (attacks host) = []).
  { intros host [<-|[]]. reflexivity. }
  split; [exact H|].
  exact (grouped_report_without_attacks first_seen_order quiet_results
           UNIQUE_GROUPPED_PRODUCTS_RESULTS_CSV [] H).
Defined.

(** ** The file-name pattern *)

Definition FILENAME_TOKENS : list Re.tok :=
  [ Re.GOpen; Re.Many1 Re.CDigit; Re.One Re.CAny; Re.Many1 Re.CDigit;
    Re.One Re.CAny; Re.Many1 Re.CDigit; Re.One Re.CAny; Re.Many1 Re.CDigit;
    Re.GClose; Re.One (Re.CLit "-");
    Re.GOpen; Re.Many1 Re.CDigit; Re.GClose; Re.One (Re.CLit "-");
    Re.GOpen; Re.Many1 Re.CWord; Re.GClose; Re.One (Re.CLit "-");
    Re.GOpen; Re.Many1 Re.CAny; Re.GClose;
    Re.One Re.CAny; Re.One (Re.CLit "t"); Re.One (Re.CLit "x");
    Re.One (Re.CLit "t") ].

Lemma compile_filename : Re.compile FILENAME_PATTERN = FILENAME_TOKENS.
Proof. vm_compute. reflexivity. Qed.

(** A non-empty run of characters of one class. *)
Definition run_of (k : Re.cclass) (a : list ascii) : Prop :=
  a <> [] /\ Forall (fun c => Re.accepts k c = true) a.

(** *** What a match spells

    [spells ts w cur caps out]: the tokens [ts] can consume exactly [w],
    taking the groups [caps] (latest first) to [out]. *)
Inductive spells
  : list Re.tok -> list ascii -> list ascii -> list (list ascii)
    -> list (list ascii) -> Prop :=
| spells_nil cur caps : spells [] [] cur caps caps
| spells_open r w cur caps out :
    spells r w [] caps out -> spells (Re.GOpen :: r) w cur caps out
| spells_close r w cur caps out :
    spells r w [] (rev cur :: caps) out -> spells (Re.GClose :: r) w cur caps out
| spells_one k c r w cur caps out :
    Re.accepts k c = true -> spells r w (c :: cur) caps out ->
    spells (Re.One k :: r) (c :: w) cur caps out
| spells_many k a r w cur caps out :
    run_of k a -> spells r w (rev a ++ cur) caps out ->
    spells (Re.Many1 k :: r) (a ++ w) cur caps out.

Lemma try_down_some {A} (n : nat) (f : nat -> option A) (r : A) :
  Re.try_down n f = Some r -> exists j, 1 <= j <= n /\ f j = Some r.
Proof.
  induction n as [|n IH]; simpl; [discriminate|].
  destruct (f (S n)) as [r'|] eqn:E.
  - intros [= <-]. exists (S n). split; [lia|exact E].
  - intros H. destruct (IH H) as (j & Hj & Hf). exists j. split; [lia|exact Hf].
Qed.

Lemma run_prefix (k : Re.cclass) (s : list ascii) (j : nat) :
  1 <= j <= Re.run k s -> run_of k (firstn j s).
Proof.
  revert j. induction s as [|c s IH]; simpl; intros j Hj; [lia|].
  destruct (Re.accepts k c) eqn:E; [|lia].
  destruct j as [|j]; [lia|]. simpl. split; [discriminate|].
  constructor; auto.
  destruct j as [|j]; [simpl; constructor|]. apply IH. lia.
Qed.

Lemma rmatch_spells (ts : list Re.tok) :
  forall s cur caps out rest,
    Re.rmatch ts s cur caps = Some (out, rest) ->
    exists w, s = w ++ rest /\ spells ts w cur caps (rev out).
Proof.
  induction ts as [|[k|k| |] ts IH]; intros s cur caps out rest; cbn [Re.rmatch].
  - intros [= <- <-]. exists []. rewrite rev_involutive.
    split; [reflexivity|constructor].
  - destruct s as [|c s]; [discriminate|].
    destruct (Re.accepts k c) eqn:E; [|discriminate].
    intros H. destruct (IH _ _ _ _ _ H) as (w & -> & Hw).
    exists (c :: w). split; [reflexivity|now constructor].
  - intros H. apply try_down_some in H. destruct H as (j & Hj & H).
    destruct (IH _ _ _ _ _ H) as (w & Hs & Hw).
    exists (firstn j s ++ w). split.
    + rewrite <- app_assoc, <- Hs. symmetry. apply firstn_skipn.
    + constructor; auto. now apply run_prefix.
  - intros H. destruct (IH _ _ _ _ _ H) as (w & -> & Hw).
    exists w. split; [reflexivity|now constructor].
  - intros H. destruct (IH _ _ _ _ _ H) as (w & -> & Hw).
    exists w. split; [reflexivity|now constructor].
Qed.

Lemma first_hit_some (ts : list Re.tok) (s : list ascii)
      (caps : list (list ascii)) :
  first_hit ts s = Some caps ->
  exists before suf rest,
    s = before ++ suf /\ Re.match_here ts suf = Some (caps, rest).
Proof.
  induction s as [|c s IH]; simpl; [discriminate|].
  destruct (Re.match_here ts (c :: s)) as [[caps' rest]|] eqn:E.
  - intros [= <-]. exists [], (c :: s), rest. auto.
  - intros H. destruct (IH H) as (before & suf & rest & -> & Hm).
    exists (c :: before), suf, rest. auto.
Qed.

Ltac spell_out :=
  repeat match goal with
         | H : spells (_ :: _) _ _ _ _ |- _ => inversion H; subst; clear H
         | H : spells [] _ _ _ _ |- _ => inversion H; subst; clear H
         end.

(** What the four groups of a match of the pattern are. *)
Lemma filename_spelling (w : list ascii) (out : list (list ascii)) :
  spells FILENAME_TOKENS w [] [] out ->
  exists d1 c1 d2 c2 d3 c3 d4 p v pr c4,
    w = (d1 ++ c1 :: d2 ++ c2 :: d3 ++ c3 :: d4)
          ++ "-"%char :: p ++ "-"%char :: v ++ "-"%char :: pr
          ++ c4 :: chars "txt"
    /\ out = [pr; v; p; d1 ++ c1 :: d2 ++ c2 :: d3 ++ c3 :: d4]
    /\ run_of Re.CDigit d1 /\ run_of Re.CDigit d2 /\ run_of Re.CDigit d3
    /\ run_of Re.CDigit d4 /\ run_of Re.CDigit p /\ run_of Re.CWord v
    /\ run_of Re.CAny pr
    /\ Forall (fun c => Re.accepts Re.CAny c = true) [c1; c2; c3; c4].
Proof.
  unfold FILENAME_TOKENS. intros H. spell_out.
  repeat match goal with
         | H : Re.accepts (Re.CLit _) _ = true |- _ =>
             cbn [Re.accepts] in H; apply Ascii.eqb_eq in H; subst
         end.
  match goal with
  | |- context [?d1 ++ ?c1 :: ?d2 ++ ?c2 :: ?d3 ++ ?c3 :: ?d4 ++ "-"%char :: ?p
                ++ "-"%char :: ?v ++ "-"%char :: ?pr ++ ?c4 :: _] =>
      exists d1, c1, d2, c2, d3, c3, d4, p, v, pr, c4
  end.
  repeat (progress (cbn [rev app];
                    rewrite ?rev_app_distr, ?rev_involutive, <- ?app_assoc,
                      ?app_nil_r)).
  repeat match goal with H : run_of _ _ |- _ => destruct H end.
  repeat split; auto.
Qed.

Lemma chars_text (l : list ascii) : chars (text l) = l.
Proof. apply list_ascii_of_string_of_list_ascii. Qed.

Lemma text_chars (s : string) : text (chars s) = s.
Proof. apply string_of_list_ascii_of_string. Qed.

Lemma underscores_to_spaces_clean (s : string) :
  ~ In "_"%char (chars (underscores_to_spaces s)).
Proof.
  unfold underscores_to_spaces. rewrite chars_text. intros H.
  apply in_map_iff in H. destruct H as (c & Hc & _).
  destruct (Ascii.eqb c "_"%char) eqn:E; [discriminate|].
  subst c. rewrite Ascii.eqb_refl in E. discriminate.
Qed.

Lemma file_key_some (file ip port vendor product : string) :
  file_key file = Some (ip, port, vendor, product) ->
  exists caps before suf rest,
    chars file = before ++ suf
    /\ Re.match_here FILENAME_TOKENS suf = Some (caps, rest)
    /\ ip = nth 0 (map text caps) ""
    /\ port = nth 1 (map text caps) ""
    /\ vendor = underscores_to_spaces (nth 2 (map text caps) "")
    /\ product = underscores_to_spaces (nth 3 (map text caps) "").
Proof.
  unfold file_key, Re.findall. rewrite compile_filename.
  destruct (Re.findall_from FILENAME_TOKENS (chars file) 0) as [|caps l] eqn:E;
    [discriminate|].
  cbn [map]. intros [= <- <- <- <-].
  assert (Hh : first_hit FILENAME_TOKENS (chars file) = Some caps).
  { rewrite <- findall_from_head, E. reflexivity. }
  destruct (first_hit_some _ _ _ Hh) as (before & suf & rest & Hs & Hm).
  exists caps, before, suf, rest. repeat split; auto.
Qed.

(** X17.  Whatever name the loop decodes has the shape the pattern
    asks for, somewhere in it: four runs of digits separated by three
    characters of any kind (the dots of the pattern are not escaped), a
    hyphen, a run of digits, a hyphen, a run of word characters, a
    hyphen, a non-empty text, one more character of any kind and
    [txt]; the ip is the first part with its separators, the port the
    second, the vendor and the product the third and the fourth with
    every underscore turned into a space.  So the port is a non-empty
    string of digits, and neither vendor nor product holds an
    underscore. *)
Theorem decoded_name_has_the_pattern_shape
        (file ip port vendor product : string) :
  file_key file = Some (ip, port, vendor, product) ->
  (exists d1 c1 d2 c2 d3 c3 d4 p v pr c4 before after,
      chars file
      = before ++ (d1 ++ c1 :: d2 ++ c2 :: d3 ++ c3 :: d4)
               ++ "-"%char :: p ++ "-"%char :: v ++ "-"%char :: pr
               ++ c4 :: chars "txt" ++ after
      /\ ip = text (d1 ++ c1 :: d2 ++ c2 :: d3 ++ c3 :: d4)
      /\ port = text p
      /\ vendor = underscores_to_spaces (text v)
      /\ product = underscores_to_spaces (text pr)
      /\ run_of Re.CDigit d1 /\ run_of Re.CDigit d2 /\ run_of Re.CDigit d3
      /\ run_of Re.CDigit d4 /\ run_of Re.CDigit p /\ run_of Re.CWord v
      /\ run_of Re.CAny pr
      /\ Forall (fun c => Re.accepts Re.CAny c = true) [c1; c2; c3; c4])
  /\ run_of Re.CDigit (chars port)
  /\ ~ In "_"%char (chars vendor)
  /\ ~ In "_"%char (chars product).
Proof.
  intros H.
  destruct (file_key_some _ _ _ _ _ H)
    as (caps & before & suf & rest & Hf & Hm & -> & -> & -> & ->).
  apply rmatch_spells in Hm. destruct Hm as (w & -> & Hw).
  apply filename_spelling in Hw.
  destruct Hw as (d1 & c1 & d2 & c2 & d3 & c3 & d4 & p & v & pr & c4
                  & -> & Hout & H1 & H2 & H3 & H4 & Hp & Hv & Hpr & Hc).
  apply (f_equal (@rev (list ascii))) in Hout.
  rewrite rev_involutive in Hout. subst caps. cbn [rev app map nth].
  split; [|split; [|split]].
  - exists d1, c1, d2, c2, d3, c3, d4, p, v, pr, c4, before, rest.
    repeat split; try apply H1; try apply H2; try apply H3; try apply H4;
      try apply Hp; try apply Hv; try apply Hpr; auto.
    rewrite Hf. repeat (rewrite <- ?app_assoc; cbn [app]). reflexivity.
  - now rewrite chars_text.
  - apply underscores_to_spaces_clean.
  - apply underscores_to_spaces_clean.
Qed.

Lemma decoded_name_has_the_pattern_shape_witness :
  file_key "scan 1a2b3c4-5-v_w-p_q.txt.old"
  = Some ("1a2b3c4", "5", "v w", "p q")
  /\ run_of Re.CDigit (chars "5")
  /\ ~ In "_"%char (chars "v w")
  /\ ~ In "_"%char (chars "p q").
Proof.
  assert (H : file_key "scan 1a2b3c4-5-v_w-p_q.txt.old"
              = Some ("1a2b3c4", "5", "v w", "p q"))
    by (vm_compute; reflexivity).
  split; [exact H|].
  exact (proj2 (decoded_name_has_the_pattern_shape _ _ _ _ _ H)).
Defined.

(** *** A name of the documented form *)

Lemma rmatch_many_all (k : Re.cclass) (a w : list ascii) (r : list Re.tok)
      (cur : list ascii) (caps : list (list ascii))
      (res : list (list ascii) * list ascii) :
  run_of k a ->
  match w with [] => True | c :: _ => Re.accepts k c = false end ->
  Re.rmatch r w (rev a ++ cur) caps = Some res ->
  Re.rmatch (Re.Many1 k :: r) (a ++ w) cur caps = Some res.
Proof.
  intros [Hne Ha] Hw Hr. cbn [Re.rmatch]. rewrite run_app by assumption.
  destruct a as [|c a]; [congruence|].
  cbn [List.length Re.try_down].
  change (S (List.length a)) with (List.length (c :: a)).
  now rewrite skipn_length_app, firstn_length_app, Hr.
Qed.

Lemma try_down_skip {A} (n m : nat) (f : nat -> option A) :
  (forall j, n < j <= n + m -> f j = None) ->
  Re.try_down (n + m) f = Re.try_down n f.
Proof.
  induction m as [|m IH]; intros H.
  - now rewrite Nat.add_0_r.
  - rewrite Nat.add_succ_r. cbn [Re.try_down].
    rewrite (H (S (n + m))) by lia. apply IH. intros j Hj. apply H. lia.
Qed.

Lemma skipn_add_app {A} (a b : list A) (i : nat) :
  skipn (List.length a + i) (a ++ b) = skipn i b.
Proof. induction a as [|x a IH]; simpl; auto. Qed.

(** The last group gives back the four characters of the extension. *)
Lemma rmatch_product (pr cur : list ascii) (caps : list (list ascii)) :
  run_of Re.CAny pr ->
  Re.rmatch [ Re.Many1 Re.CAny; Re.GClose; Re.One Re.CAny;
              Re.One (Re.CLit "t"); Re.One (Re.CLit "x"); Re.One (Re.CLit "t") ]
            (pr ++ chars ".txt") cur caps
  = Some (rev (rev (rev pr ++ cur) :: caps), []).
Proof.
  intros [Hne Hpr]. cbn [Re.rmatch].
  assert (Hrun : Re.run Re.CAny (pr ++ chars ".txt") = List.length pr + 4).
  { rewrite <- (app_nil_r (pr ++ chars ".txt")).
    rewrite run_app; [now rewrite length_app|
                      apply Forall_app; split; auto;
                      repeat constructor|exact I]. }
  rewrite Hrun, try_down_skip.
  - destruct pr as [|c pr]; [congruence|].
    cbn [List.length Re.try_down].
    change (S (List.length pr)) with (List.length (c :: pr)).
    rewrite skipn_length_app, firstn_length_app. reflexivity.
  - intros j Hj.
    assert (Hcase : j = List.length pr + 1 \/ j = List.length pr + 2
                    \/ j = List.length pr + 3 \/ j = List.length pr + 4) by lia.
    destruct Hcase as [ -> | [ -> | [ -> | -> ] ] ];
      rewrite skipn_add_app; reflexivity.
Qed.

Lemma rmatch_open (r : list Re.tok) (s cur : list ascii)
      (caps : list (list ascii)) :
  Re.rmatch (Re.GOpen :: r) s cur caps = Re.rmatch r s [] caps.
Proof. reflexivity. Qed.

Lemma rmatch_close (r : list Re.tok) (s cur : list ascii)
      (caps : list (list ascii)) :
  Re.rmatch (Re.GClose :: r) s cur caps = Re.rmatch r s [] (rev cur :: caps).
Proof. reflexivity. Qed.

Lemma rmatch_one (k : Re.cclass) (c : ascii) (r : list Re.tok)
      (s cur : list ascii) (caps : list (list ascii)) :
  Re.accepts k c = true ->
  Re.rmatch (Re.One k :: r) (c :: s) cur caps = Re.rmatch r s (c :: cur) caps.
Proof. intros H. cbn [Re.rmatch]. now rewrite H. Qed.

Definition dotted (d1 d2 d3 d4 : list ascii) : list ascii :=
  d1 ++ "."%char :: d2 ++ "."%char :: d3 ++ "."%char :: d4.

Lemma match_documented_name (d1 d2 d3 d4 p v pr : list ascii) :
  run_of Re.CDigit d1 -> run_of Re.CDigit d2 -> run_of Re.CDigit d3 ->
  run_of Re.CDigit d4 -> run_of Re.CDigit p -> run_of Re.CWord v ->
  run_of Re.CAny pr ->
  Re.match_here FILENAME_TOKENS
    (d1 ++ "."%char :: d2 ++ "."%char :: d3 ++ "."%char :: d4
        ++ "-"%char :: p ++ "-"%char :: v ++ "-"%char :: pr ++ chars ".txt")
  = Some ([dotted d1 d2 d3 d4; p; v; pr], []).
Proof.
  intros H1 H2 H3 H4 Hp Hv Hpr.
  unfold Re.match_here, FILENAME_TOKENS. rewrite rmatch_open.
  apply rmatch_many_all; [assumption|reflexivity|].
  rewrite rmatch_one by reflexivity.
  apply rmatch_many_all; [assumption|reflexivity|].
  rewrite rmatch_one by reflexivity.
  apply rmatch_many_all; [assumption|reflexivity|].
  rewrite rmatch_one by reflexivity.
  apply rmatch_many_all; [assumption|reflexivity|].
  rewrite rmatch_close, rmatch_one, rmatch_open by reflexivity.
  apply rmatch_many_all; [assumption|reflexivity|].
  rewrite rmatch_close, rmatch_one, rmatch_open by reflexivity.
  apply rmatch_many_all; [assumption|reflexivity|].
  rewrite rmatch_close, rmatch_one, rmatch_open by reflexivity.
  rewrite rmatch_product by assumption.
  unfold dotted.
  repeat (progress (cbn [rev app];
                    rewrite ?rev_app_distr, ?rev_involutive, <- ?app_assoc,
                      ?app_nil_r)).
  reflexivity.
Qed.

Lemma chars_app (s1 s2 : string) : chars (s1 ++ s2) = chars s1 ++ chars s2.
Proof.
  unfold chars. induction s1 as [|c s1 IH]; simpl; auto. now rewrite IH.
Qed.

Lemma findall_from_hit (ts : list Re.tok) (s rest : list ascii)
      (caps : list (list ascii)) :
  s <> [] -> Re.match_here ts s = Some (caps, rest) ->
  exists more, Re.findall_from ts s 0 = caps :: more.
Proof.
  intros Hne Hm. destruct s as [|c s]; [congruence|].
  cbn [Re.findall_from]. rewrite Hm. eauto.
Qed.

(** X18.  A name of the documented form is decoded to its parts: for
    four runs of digits joined by dots, a port of digits, a vendor of
    word characters and a non-empty product without line break, the
    name [<ip>-<port>-<vendor>-<product>.txt] gives the ip, the port,
    and the vendor and the product with their underscores turned into
    spaces.  The product may itself hold hyphens, dots or [.txt]. *)
Theorem documented_name_is_decoded
        (a b c d port vendor product : string) :
  run_of Re.CDigit (chars a) -> run_of Re.CDigit (chars b) ->
  run_of Re.CDigit (chars c) -> run_of Re.CDigit (chars d) ->
  run_of Re.CDigit (chars port) -> run_of Re.CWord (chars vendor) ->
  run_of Re.CAny (chars product) ->
  file_key (a ++ "." ++ b ++ "." ++ c ++ "." ++ d ++ "-" ++ port ++ "-"
              ++ vendor ++ "-" ++ product ++ ".txt")
  = Some ((a ++ "." ++ b ++ "." ++ c ++ "." ++ d)%string, port,
          underscores_to_spaces vendor, underscores_to_spaces product).
Proof.
  intros Ha Hb Hc Hd Hp Hv Hpr.
  pose proof (match_documented_name _ _ _ _ _ _ _ Ha Hb Hc Hd Hp Hv Hpr) as Hm.
  unfold file_key, Re.findall. rewrite compile_filename.
  repeat (rewrite chars_app; cbn [chars list_ascii_of_string app]).
  fold (chars a) (chars b) (chars c) (chars d) (chars port) (chars vendor)
       (chars product).
  change ["."%char; "t"%char; "x"%char; "t"%char] with (chars ".txt").
  match type of Hm with
  | Re.match_here _ ?s = _ => assert (Hne : s <> [])
  end.
  { destruct Ha as [Hne _]. destruct (chars a); [congruence|discriminate]. }
  destruct (findall_from_hit _ _ _ _ Hne Hm) as [more ->].
  cbn [map nth]. unfold dotted. rewrite !text_chars.
  rewrite <- (text_chars (a ++ "." ++ b ++ "." ++ c ++ "." ++ d)).
  repeat (rewrite chars_app; cbn [chars list_ascii_of_string app]).
  reflexivity.
Qed.

Lemma documented_name_is_decoded_witness :
  file_key "10.0.0.1-443-Acme_Corp-Edge-Router_X.2.txt"
  = Some ("10.0.0.1", "443", "Acme Corp", "Edge-Router X.2").
Proof.
  apply (documented_name_is_decoded "10" "0" "0" "1" "443" "Acme_Corp"
                                    "Edge-Router_X.2");
    (split; [discriminate|repeat constructor]).
Defined.

(** ** A second call over the same files *)

(** The entry of [ip] after the write-back of one file. *)
Definition entry_step (ip : string) (entry : sdict pyval)
           (fr : string * string) : sdict pyval :=
  match decoded_fields (fst fr) (snd fr) ip with
  | Some (a, b) => write_fields entry a b
  | None => entry
  end.

(** The entry of [ip] after the loop over [files]. *)
Definition entry_after (ip : string) (files : list (string * string))
           (entry : sdict pyval) : sdict pyval :=
  fold_left (entry_step ip) files entry.

Lemma ingest_file_entry (so : SetOrder) (all_results all_results' : results_t)
      (hosts hosts' : hosts_t) (file results ip : string) (entry : sdict pyval) :
  ingest_file so all_results hosts file results = Ok (all_results', hosts') ->
  sget hosts ip = Some (VDict entry) -> entry <> [] ->
  sget hosts' ip = Some (VDict (entry_step ip entry (file, results))).
Proof.
  intros H Hs Hne. unfold entry_step, decoded_fields. cbn [fst snd].
  destruct (ingest_file_cases _ _ _ _ _ _ _ H)
    as [(Hb & _ & ->)|(ip0 & record & Hb & _ & Hh)].
  - unfold built_record in Hb.
    destruct (_parse_attacks results) as [|a b]; auto.
    destruct (file_key file) as [[[[ip1 ?] ?] ?]|]; auto.
    destruct (_search_vulnerabilities so hosts ip1); discriminate.
  - destruct (built_record_some _ _ _ _ _ _ Hb)
      as (a & b & p1 & v1 & pr1 & vs & Hp & Hk & _ & ->).
    rewrite Hp, Hk. cbn [attacks bugs] in Hh.
    destruct (String.eqb_spec ip0 ip) as [->|Hd].
    + destruct Hh as [(entry0 & a' & b' & Hg & _ & [= <-] & [= <-] & ->)
                     |(Ht & ->)].
      * apply hosts_get_dict in Hg.
        assert (entry0 = entry) by congruence. subst entry0.
        apply sget_sset_same.
      * exfalso. unfold hosts_get in Ht. rewrite Hs in Ht.
        rewrite truthy_dict_nonempty in Ht; [discriminate|assumption].
    + destruct Hh as [(entry0 & a' & b' & _ & _ & _ & _ & ->)|(_ & ->)]; auto.
      now rewrite sget_sset_other.
Qed.

Lemma entry_step_nonempty (ip : string) (entry : sdict pyval)
      (fr : string * string) :
  entry <> [] -> entry_step ip entry fr <> [].
Proof.
  intros H. unfold entry_step.
  destruct (decoded_fields (fst fr) (snd fr) ip) as [[a b]|]; auto.
  now apply write_fields_nonempty.
Qed.

Lemma ingest_entry (so : SetOrder) (ip : string)
      (files : list (string * string)) :
  forall all_results all_results' hosts hosts' entry,
    ingest so files all_results hosts = (hosts', Ok all_results') ->
    sget hosts ip = Some (VDict entry) -> entry <> [] ->
    sget hosts' ip = Some (VDict (entry_after ip files entry)).
Proof.
  unfold entry_after.
  induction files as [|[file results] files IH]; simpl;
    intros ar ar' hosts hosts' entry H Hs Hne.
  - now injection H as <- <-.
  - destruct (ingest_file so ar hosts file results) as [[ar1 hosts1]|e] eqn:Ef;
      [|discriminate].
    eapply IH; eauto.
    + eapply ingest_file_entry; eauto.
    + now apply entry_step_nonempty.
Qed.

(** *** Writing the same fields again *)

Lemma keys_sset_cases {V} (d : sdict V) (k : string) (v : V) :
  keys (sset d k v) = if existsb (String.eqb k) (keys d) then keys d
                      else keys d ++ [k].
Proof.
  unfold keys, sset. induction d as [|[k' v'] d IH]; simpl; auto.
  rewrite (String.eqb_sym k k').
  destruct (String.eqb k' k); simpl; auto. rewrite IH.
  now destruct (existsb (String.eqb k) (map fst d)).
Qed.

Lemma existsb_eqb_in (k : string) (l : list string) :
  existsb (String.eqb k) l = true <-> In k l.
Proof.
  rewrite existsb_exists. split.
  - intros (x & Hx & He). apply String.eqb_eq in He. now subst.
  - intros H. exists k. split; auto. apply String.eqb_refl.
Qed.

Lemma sset_nodup {V} (d : sdict V) (k : string) (v : V) :
  NoDup (keys d) -> NoDup (keys (sset d k v)).
Proof.
  intros H. rewrite keys_sset_cases.
  destruct (existsb (String.eqb k) (keys d)) eqn:E; auto.
  apply NoDup_app; auto.
  - repeat constructor. simpl. tauto.
  - intros x Hx [<-|[]].
    apply existsb_eqb_in in Hx. congruence.
Qed.

Lemma sget_some_in_keys {V} (d : sdict V) (k : string) :
  sget d k <> None <-> In k (keys d).
Proof.
  rewrite sget_none_iff. split.
  - intros H. destruct (in_dec string_dec k (keys d)); tauto.
  - tauto.
Qed.

Lemma write_fields_nodup (entry a b : sdict pyval) :
  NoDup (keys entry) -> NoDup (keys (write_fields entry a b)).
Proof.
  intros H. unfold write_fields.
  destruct (truthy (VDict a)), (truthy (VDict b)); auto using sset_nodup.
Qed.

Lemma write_fields_keys (entry a b : sdict pyval) :
  (a <> [] -> In "attacks" (keys entry)) ->
  (b <> [] -> In "bugs" (keys entry)) ->
  keys (write_fields entry a b) = keys entry.
Proof.
  intros Ha Hb. unfold write_fields.
  assert (Hset : forall (e : sdict pyval) k v,
             In k (keys e) -> keys (sset e k v) = keys e).
  { intros e k v Hin. rewrite keys_sset_cases.
    now rewrite (proj2 (existsb_eqb_in k (keys e)) Hin). }
  destruct a as [|x a], b as [|y b]; cbn [truthy]; auto.
  - apply Hset, Hb. discriminate.
  - apply Hset, Ha. discriminate.
  - rewrite Hset.
    + apply Hset, Ha. discriminate.
    + rewrite Hset by (apply Ha; discriminate). apply Hb. discriminate.
Qed.

Lemma entry_after_other (ip : string) (files : list (string * string))
      (k : string) :
  k <> "attacks" -> k <> "bugs" ->
  forall entry, sget (entry_after ip files entry) k = sget entry k.
Proof.
  intros Ha Hb. unfold entry_after.
  induction files as [|fr files IH]; intros entry; simpl; auto.
  rewrite IH. unfold entry_step.
  destruct (decoded_fields (fst fr) (snd fr) ip) as [[a b]|]; auto.
  now apply write_fields_other.
Qed.

Lemma entry_after_fields (ip : string) (files : list (string * string)) :
  forall entry,
    sget (entry_after ip files entry) "attacks"
    = written_by ip fst (sget entry "attacks") files
    /\ sget (entry_after ip files entry) "bugs"
       = written_by ip snd (sget entry "bugs") files.
Proof.
  unfold entry_after, written_by.
  induction files as [|fr files IH]; intros entry; simpl; auto.
  destruct (IH (entry_step ip entry fr)) as [-> ->].
  unfold entry_step.
  destruct (decoded_fields (fst fr) (snd fr) ip) as [[a b]|];
    cbn [option_map fst snd written]; auto.
  rewrite write_fields_attacks, write_fields_bugs.
  split; f_equal; [now destruct a|now destruct b].
Qed.

Lemma entry_after_nodup (ip : string) (files : list (string * string)) :
  forall entry, NoDup (keys entry) -> NoDup (keys (entry_after ip files entry)).
Proof.
  unfold entry_after.
  induction files as [|fr files IH]; intros entry H; simpl; auto.
  apply IH. unfold entry_step.
  destruct (decoded_fields (fst fr) (snd fr) ip) as [[a b]|]; auto.
  now apply write_fields_nodup.
Qed.

(** A field written by some file of the listing is bound afterwards. *)
Lemma written_by_bound (ip : string)
      (pick : sdict pyval * sdict pyval -> sdict pyval)
      (files : list (string * string)) (f r : string)
      (ab : sdict pyval * sdict pyval) :
  In (f, r) files -> decoded_fields f r ip = Some ab -> pick ab <> [] ->
  forall field, written_by ip pick field files <> None.
Proof.
  unfold written_by.
  induction files as [|[f' r'] files IH]; intros Hin Hd Hne field;
    [destruct Hin|].
  cbn [fold_left fst snd].
  destruct Hin as [[= -> ->]|Hin]; [|now apply IH].
  rewrite Hd. cbn [option_map].
  assert (Hkeep : forall files' x,
             x <> None ->
             fold_left
               (fun fld fr =>
                  written fld (option_map pick
                                 (decoded_fields (fst fr) (snd fr) ip)))
               files' x <> None).
  { induction files' as [|fr files' IH']; intros x Hx; simpl; auto.
    apply IH'. destruct (decoded_fields (fst fr) (snd fr) ip) as [ab'|];
      cbn [option_map written]; auto.
    destruct (pick ab'); auto. discriminate. }
  apply Hkeep. unfold written. destruct (pick ab); [congruence|discriminate].
Qed.

(** Writing the fields of a sub-listing again keeps the keys. *)
Lemma entry_after_keys (ip : string) (all rest : list (string * string))
      (base : sdict pyval) :
  incl rest all ->
  forall entry,
    keys entry = keys (entry_after ip all base) ->
    keys (entry_after ip rest entry) = keys (entry_after ip all base).
Proof.
  remember (entry_after ip all base) as target eqn:Ht.
  unfold entry_after.
  induction rest as [|[f r] rest IH]; intros Hincl entry Hk; simpl; auto.
  apply IH; [intros x Hx; apply Hincl; simpl; auto|].
  unfold entry_step. cbn [fst snd].
  destruct (decoded_fields f r ip) as [[a b]|] eqn:Hd; auto.
  rewrite <- Hk. apply write_fields_keys; intros Hne; rewrite Hk;
    apply sget_some_in_keys; rewrite Ht.
  - rewrite (proj1 (entry_after_fields ip all base)).
    apply (written_by_bound ip fst all f r (a, b)); auto.
    apply Hincl. simpl. auto.
  - rewrite (proj2 (entry_after_fields ip all base)).
    apply (written_by_bound ip snd all f r (a, b)); auto.
    apply Hincl. simpl. auto.
Qed.

Lemma written_by_twice (ip : string)
      (pick : sdict pyval * sdict pyval -> sdict pyval)
      (files : list (string * string)) (field : option pyval) :
  written_by ip pick (written_by ip pick field files) files
  = written_by ip pick field files.
Proof.
  (* either no file writes the field, or the last one that does decides *)
  assert (Hcases :
            (forall x, written_by ip pick x files = x)
            \/ exists d, forall x, written_by ip pick x files = Some (VDict d)).
  { unfold written_by. induction files as [|fr files IH]; [now left|].
    cbn [fold_left].
    destruct IH as [IH|[d IH]]; [|right; exists d; intros; apply IH].
    destruct (decoded_fields (fst fr) (snd fr) ip) as [ab|];
      cbn [option_map written]; [|left; intros; apply IH].
    destruct (pick ab) as [|e l]; [left; intros; apply IH|].
    right. exists (e :: l). intros x. apply IH. }
  destruct Hcases as [H|[d H]]; now rewrite !H.
Qed.

Lemma entry_after_twice (ip : string) (files : list (string * string))
      (entry : sdict pyval) :
  NoDup (keys entry) ->
  entry_after ip files (entry_after ip files entry)
  = entry_after ip files entry.
Proof.
  intros Hnd. apply assoc_ext.
  - now apply entry_after_nodup, entry_after_nodup.
  - apply (entry_after_keys ip files files entry (incl_refl _)). reflexivity.
  - intros k.
    destruct (String.eqb_spec k "attacks") as [->|Ha].
    + rewrite !(proj1 (entry_after_fields ip files _)). apply written_by_twice.
    + destruct (String.eqb_spec k "bugs") as [->|Hb].
      * rewrite !(proj2 (entry_after_fields ip files _)).
        apply written_by_twice.
      * now rewrite !entry_after_other.
Qed.

Lemma same_view_sym (h1 h2 : hosts_t) : same_view h1 h2 -> same_view h2 h1.
Proof. intros H ip. destruct (H ip). split; congruence. Qed.

(** How the loop ends depends on the dataset only through what the
    resolver reads of it. *)
Lemma ingest_result_same_view (so : SetOrder) (files : list (string * string)) :
  forall all_results h1 h2,
    same_view h1 h2 ->
    snd (ingest so files all_results h1) = snd (ingest so files all_results h2).
Proof.
  induction files as [|[file results] files IH]; intros ar h1 h2 Hv; simpl; auto.
  destruct (ingest_file so ar h1 file results) as [[ar1 h1']|e1] eqn:E1;
    destruct (ingest_file so ar h2 file results) as [[ar2 h2']|e2] eqn:E2.
  - assert (ar1 = ar2).
    { destruct (ingest_file_cases _ _ _ _ _ _ _ E1)
        as [(Hb1 & -> & _)|(ip1 & rec1 & Hb1 & -> & _)];
        destruct (ingest_file_cases _ _ _ _ _ _ _ E2)
        as [(Hb2 & -> & _)|(ip2 & rec2 & Hb2 & -> & _)];
        rewrite (built_record_same_view so h1 h2 file results Hv) in Hb1;
        rewrite Hb2 in Hb1; try discriminate; auto.
      now injection Hb1 as <- <-. }
    subst ar2. apply IH.
    apply same_view_trans with h1; [eapply ingest_file_same_view; eauto|].
    apply same_view_trans with h2; auto.
    apply same_view_sym. eapply ingest_file_same_view; eauto.
  - exfalso. rewrite ingest_file_eq in E1, E2.
    rewrite (built_record_same_view so h1 h2 file results Hv) in E1.
    destruct (built_record so h2 file results) as [[[ip record]|]|e];
      cbn [bind] in E1, E2; try discriminate.
    destruct (hosts_get h2 ip) as [x|l|[|p d]], (attacks record), (bugs record);
      discriminate.
  - exfalso. rewrite ingest_file_eq in E1, E2.
    rewrite (built_record_same_view so h1 h2 file results Hv) in E1.
    destruct (built_record so h2 file results) as [[[ip record]|]|e];
      cbn [bind] in E1, E2; try discriminate.
    destruct (hosts_get h1 ip) as [x|l|[|p d]], (attacks record), (bugs record);
      discriminate.
  - cbn [snd]. rewrite ingest_file_eq in E1, E2.
    rewrite (built_record_same_view so h1 h2 file results Hv) in E1.
    destruct (built_record so h2 file results) as [[[ip record]|]|e];
      cbn [bind] in E1, E2; try congruence.
    destruct (hosts_get h1 ip) as [x|l|[|p d]], (attacks record),
      (bugs record); discriminate.
Qed.

(** A dataset as a [dict] of [dict]s has it: no key twice. *)
Definition well_formed (hosts : hosts_t) : Prop :=
  NoDup (keys hosts)
  /\ forall ip entry, sget hosts ip = Some (VDict entry) -> NoDup (keys entry).

Lemma entry_after_nonempty (ip : string) (files : list (string * string)) :
  forall entry, entry <> [] -> entry_after ip files entry <> [].
Proof.
  unfold entry_after.
  induction files as [|fr files IH]; intros entry H; simpl; auto.
  now apply IH, entry_step_nonempty.
Qed.

Lemma ingest_again (so : SetOrder) (files : list (string * string))
      (hosts hosts1 : hosts_t) (all_results : results_t) :
  well_formed hosts ->
  ingest so files [] hosts = (hosts1, Ok all_results) ->
  ingest so files [] hosts1 = (hosts1, Ok all_results).
Proof.
  intros [Hnd Hent] H1.
  destruct (ingest so files [] hosts1) as [hosts2 r2] eqn:H2.
  assert (Hv : same_view hosts1 hosts).
  { destruct (ingest_keeps_first so files _ _ _ _ H1) as (_ & Hv & _);
      [constructor|exact Hv]. }
  assert (Hr : r2 = Ok all_results).
  { pose proof (ingest_result_same_view so files [] hosts1 hosts Hv) as Hs.
    rewrite H1, H2 in Hs. exact Hs. }
  subst r2. f_equal.
  pose proof (ingest_frame so files [] hosts) as F1. rewrite H1 in F1.
  pose proof (ingest_frame so files [] hosts1) as F2. rewrite H2 in F2.
  cbn [fst] in F1, F2.
  destruct F1 as [K1 O1 E1 _], F2 as [K2 O2 E2 _].
  apply assoc_ext.
  - now rewrite K2, K1.
  - exact K2.
  - intros ip. destruct (sget hosts ip) as [[x|l|[|p entry]]|] eqn:Hs.
    + assert (G1 : sget hosts1 ip = Some (VAtom x))
        by (apply O1; auto; intros; discriminate).
      assert (G2 : sget hosts2 ip = Some (VAtom x))
        by (apply O2; auto; intros; discriminate).
      congruence.
    + assert (G1 : sget hosts1 ip = Some (VList l))
        by (apply O1; auto; intros; discriminate).
      assert (G2 : sget hosts2 ip = Some (VList l))
        by (apply O2; auto; intros; discriminate).
      congruence.
    + assert (G1 : sget hosts1 ip = Some (VDict [])) by now apply E1.
      assert (G2 : sget hosts2 ip = Some (VDict [])) by now apply E2.
      congruence.
    + assert (Hne : p :: entry <> []) by discriminate.
      pose proof (ingest_entry so ip files _ _ _ _ _ H1 Hs Hne) as G1.
      pose proof (ingest_entry so ip files _ _ _ _ _ H2 G1
                    (entry_after_nonempty ip files _ Hne)) as G2.
      rewrite G2, G1. do 2 f_equal.
      apply entry_after_twice. now apply (Hent ip).
    + assert (Hn1 : sget hosts1 ip = None).
      { apply sget_none_iff. rewrite K1. now apply sget_none_iff. }
      rewrite Hn1. apply sget_none_iff. rewrite K2. now apply sget_none_iff.
Qed.

Lemma write_again (fs : file_system) (path : string) (c : content) :
  sget fs path = Some c -> sset (sset fs path Opened) path c = fs.
Proof. intros H. rewrite sset_sset_same. now apply sset_id. Qed.

Lemma files_of_run_twice (so : SetOrder) (all_results : results_t)
      (fs : file_system) :
  files_of_run so all_results (files_of_run so all_results fs)
  = files_of_run so all_results fs.
Proof.
  remember (files_of_run so all_results fs) as done eqn:Hd.
  unfold files_of_run at 1. cbv beta zeta.
  repeat (rewrite (write_again done);
          [|rewrite Hd; unfold files_of_run; cbv beta zeta;
            rewrite ?sget_sset_other by (vm_compute; discriminate);
            apply sget_sset_same]).
  reflexivity.
Qed.

(** X19.  A second call changes nothing: when a call on a dataset
    without repeated keys ends normally, calling again with the same
    files, on the dataset and the files the first call left, ends
    normally too and leaves the dataset and every file exactly as they
    were. *)
Theorem second_call_changes_nothing
        (so : SetOrder) (files : list (string * string)) (hosts : hosts_t)
        (fs : file_system) :
  well_formed hosts ->
  out_status (load_tls_scan_results so files hosts fs) = Ok tt ->
  load_tls_scan_results so files
    (out_hosts (load_tls_scan_results so files hosts fs))
    (out_files (load_tls_scan_results so files hosts fs))
  = load_tls_scan_results so files hosts fs.
Proof.
  intros Hwf. unfold load_tls_scan_results at 1 3 4 5.
  destruct (ingest so files [] hosts) as [hosts1 [all_results|e]] eqn:H1;
    [|discriminate].
  destruct (json_data_ok (JResults all_results)) eqn:Hj.
  - rewrite (save_all_ok so files hosts hosts1 _ fs H1 Hj).
    cbn [out_status out_hosts out_files]. intros _.
    unfold load_tls_scan_results.
    rewrite (ingest_again so files hosts hosts1 all_results Hwf H1).
    rewrite (save_all_ok so files hosts1 hosts1 _ _
               (ingest_again so files hosts hosts1 all_results Hwf H1) Hj).
    now rewrite files_of_run_twice.
  - assert (Hs : save_all so all_results fs
                 = (sset fs (full_path FULL_RESULTS_JSON) Opened,
                    Raise CAN_NOT_SAVE)).
    { unfold save_all.
      unfold io_bind at 1, io_lift at 1.
      rewrite count_unique_entities_eq by (simpl; auto).
      unfold io_bind at 1, io_lift at 1.
      rewrite count_unique_entities_eq by (simpl; auto).
      unfold io_bind at 1, io_lift at 1.
      rewrite count_unique_entities_eq by (simpl; auto).
      now rewrite save_results_json_fails. }
    rewrite Hs. discriminate.
Qed.

Lemma second_call_changes_nothing_witness :
  let run := load_tls_scan_results first_seen_order one_report sample_hosts [] in
  well_formed sample_hosts
  /\ out_status run = Ok tt
  /\ load_tls_scan_results first_seen_order one_report
       (out_hosts run) (out_files run) = run.
Proof.
  assert (H1 : well_formed sample_hosts).
  { split.
    - simpl. repeat constructor. simpl. tauto.
    - intros ip entry. unfold sample_hosts, sget. cbn [dict_get].
      destruct (String.eqb "10.0.0.1" ip); [|discriminate].
      intros [= <-]. simpl.
      repeat (constructor; [simpl; intuition discriminate|]). constructor. }
  assert (H2 : out_status (load_tls_scan_results first_seen_order one_report
                                                 sample_hosts []) = Ok tt)
    by (vm_compute; reflexivity).
  split; [exact H1|]. split; [exact H2|].
  exact (second_call_changes_nothing first_seen_order one_report sample_hosts []
                                     H1 H2).
Defined.

(** ** What the files of a call hold *)

(** The three counted fields with their two files. *)
Definition TABLE_FILES : list (string * string * string) :=
  [ ("attacks", UNIQUE_ATTACKS_JSON, UNIQUE_ATTACKS_CSV);
    ("bugs", UNIQUE_BUGS_JSON, UNIQUE_BUGS_CSV);
    ("vulnerabilities", UNIQUE_VULNERABILITIES_JSON,
     UNIQUE_VULNERABILITIES_CSV) ].

Lemma run_ok_inv (so : SetOrder) (files : list (string * string))
      (hosts : hosts_t) (fs : file_system) :
  out_status (load_tls_scan_results so files hosts fs) = Ok tt ->
  exists hosts' all_results,
    ingest so files [] hosts = (hosts', Ok all_results)
    /\ load_tls_scan_results so files hosts fs
       = mkOutcome hosts' (files_of_run so all_results fs) (Ok tt).
Proof.
  unfold load_tls_scan_results.
  destruct (ingest so files [] hosts) as [hosts1 [all_results|e]] eqn:H1;
    [|discriminate].
  destruct (json_data_ok (JResults all_results)) eqn:Hj.
  - rewrite (save_all_ok so files hosts hosts1 _ fs H1 Hj). eauto.
  - assert (Hs : save_all so all_results fs
                 = (sset fs (full_path FULL_RESULTS_JSON) Opened,
                    Raise CAN_NOT_SAVE)).
    { unfold save_all.
      unfold io_bind at 1, io_lift at 1.
      rewrite count_unique_entities_eq by (simpl; auto).
      unfold io_bind at 1, io_lift at 1.
      rewrite count_unique_entities_eq by (simpl; auto).
      unfold io_bind at 1, io_lift at 1.
      rewrite count_unique_entities_eq by (simpl; auto).
      now rewrite save_results_json_fails. }
    rewrite Hs. discriminate.
Qed.

(** X20.  When a call ends normally, the full JSON file holds the
    result map as the loop left it (every record with its two mappings
    and without an ["ip"] key), while the full CSV file holds the same
    records as [save_results_csv] rewrote them, ordered by product;
    and for each counted field the JSON table file and the CSV table
    file hold one and the same table, the one [count_unique_entities]
    gives on the result map. *)
Theorem run_files_agree
        (so : SetOrder) (files : list (string * string)) (hosts : hosts_t)
        (fs : file_system) :
  out_status (load_tls_scan_results so files hosts fs) = Ok tt ->
  exists all_results,
    snd (ingest so files [] hosts) = Ok all_results
    /\ (forall host, In host (values all_results) ->
                     has_mappings host /\ ip host = None)
    /\ sget (out_files (load_tls_scan_results so files hosts fs))
            (full_path FULL_RESULTS_JSON)
       = Some (Json (JResults all_results))
    /\ sget (out_files (load_tls_scan_results so files hosts fs))
            (full_path FULL_RESULTS_CSV)
       = Some (CsvRecords (map (fun item => csv_view (fst item) (snd item))
                               (sorted by_product all_results)))
    /\ forall ent_type json csv,
        In (ent_type, json, csv) TABLE_FILES ->
        exists t,
          count_unique_entities all_results ent_type = Ok t
          /\ sget (out_files (load_tls_scan_results so files hosts fs))
                  (full_path json) = Some (Json (JTable t))
          /\ sget (out_files (load_tls_scan_results so files hosts fs))
                  (full_path csv) = Some (CsvCounts t).
Proof.
  intros Hok.
  destruct (run_ok_inv so files hosts fs Hok) as (hosts' & all_results & Hi & ->).
  exists all_results. rewrite Hi. cbn [snd out_files].
  split; [reflexivity|]. split.
  { intros host Hin.
    destruct (ingest_records so files _ _ _ Hi) as [_ Hrec].
    destruct (Hrec host Hin) as (Hm & _ & Hip). auto. }
  unfold files_of_run. cbv beta zeta.
  split; [|split].
  - rewrite ?sget_sset_other by (vm_compute; discriminate).
    apply sget_sset_same.
  - rewrite ?sget_sset_other by (vm_compute; discriminate).
    apply sget_sset_same.
  - intros ent_type json csv Hin. unfold TABLE_FILES in Hin. simpl in Hin.
    destruct Hin as [[= <- <- <-]|[[= <- <- <-]|[[= <- <- <-]|[]]]];
      eexists; (split; [apply count_unique_entities_eq; simpl; auto|]);
      fold (counted_items all_results "attacks");
      fold (counted_items all_results "bugs");
      fold (counted_items all_results "vulnerabilities");
      fold (field_table all_results "attacks");
      fold (field_table all_results "bugs");
      fold (field_table all_results "vulnerabilities");
      split; rewrite ?sget_sset_other by (vm_compute; discriminate);
      apply sget_sset_same.
Qed.

Lemma run_files_agree_witness :
  out_status (load_tls_scan_results first_seen_order three_reports [] [])
  = Ok tt
  /\ exists all_results,
      snd (ingest first_seen_order three_reports [] []) = Ok all_results
      /\ sget (out_files (load_tls_scan_results first_seen_order
                                                three_reports [] []))
              (full_path FULL_RESULTS_JSON)
         = Some (Json (JResults all_results)).
Proof.
  assert (H : out_status (load_tls_scan_results first_seen_order three_reports
                                                [] []) = Ok tt)
    by (vm_compute; reflexivity).
  split; [exact H|].
  destruct (run_files_agree first_seen_order three_reports [] [] H)
    as (all_results & H1 & _ & H2 & _).
  exists all_results. split; [exact H1|exact H2].
Defined.

(** ** Sub-sources that are not lists *)

Lemma mapM_hashable_singletons (s : string) :
  mapM hashable (singletons s)
  = Ok (map (fun c => AStr (String c EmptyString)) (chars s)).
Proof.
  unfold singletons. induction (chars s) as [|c l IH]; simpl; auto.
  now rewrite IH.
Qed.

Lemma resolver_string_source (so : SetOrder) (hosts : hosts_t)
      (host_ip : string) (entry vulns : sdict pyval) (shodan : string) :
  sget hosts host_ip = Some (VDict entry) ->
  sget entry "vulnerabilities" = Some (VDict vulns) ->
  sget vulns "shodan_vulnerabilities" = Some (VStr shodan) ->
  shodan <> "" ->
  _search_vulnerabilities so hosts host_ip
  = (vulners <- py_get (VDict vulns) "vulners_vulnerabilities" ;;
     both <- py_add (VStr shodan) (keys_if_dict (py_or vulners (VList []))) ;;
     items <- py_list both ;; list_set so items).
Proof.
  intros Hs He Hsh Hne.
  assert (Hentry : truthy (VDict entry) = true).
  { destruct entry; [discriminate|reflexivity]. }
  assert (Hvulns : truthy (VDict vulns) = true).
  { destruct vulns; [discriminate|reflexivity]. }
  assert (Hshodan : truthy (VStr shodan) = true).
  { cbn. destruct (String.eqb_spec shodan ""); [contradiction|reflexivity]. }
  unfold _search_vulnerabilities, hosts_get.
  rewrite Hs, Hentry. cbn [negb py_get bind]. rewrite He, Hvulns.
  cbn [negb py_get bind]. rewrite Hsh. unfold py_or at 1. rewrite Hshodan.
  reflexivity.
Qed.

(** X21.  A sub-source given as a non-empty string is not taken as one
    identifier.  Beside another non-empty string it is concatenated
    with it and the resolver returns the distinct characters of the
    two; beside a list, a mapping or a missing sub-source the resolver
    raises [TypeError]. *)
Theorem resolver_on_a_string_source
        (so : SetOrder) (hosts : hosts_t) (host_ip : string)
        (entry vulns : sdict pyval) (shodan : string) :
  sget hosts host_ip = Some (VDict entry) ->
  sget entry "vulnerabilities" = Some (VDict vulns) ->
  sget vulns "shodan_vulnerabilities" = Some (VStr shodan) ->
  shodan <> "" ->
  (forall vulners,
      sget vulns "vulners_vulnerabilities" = Some (VStr vulners) ->
      vulners <> "" ->
      _search_vulnerabilities so hosts host_ip
      = Ok (set_iter so (map (fun c => AStr (String c EmptyString))
                             (chars (shodan ++ vulners)))))
  /\ (sget vulns "vulners_vulnerabilities" = None
      \/ (exists l, sget vulns "vulners_vulnerabilities" = Some (VList l))
      \/ (exists d, sget vulns "vulners_vulnerabilities" = Some (VDict d)) ->
      _search_vulnerabilities so hosts host_ip = Raise TypeError).
Proof.
  intros Hs He Hsh Hne.
  rewrite (resolver_string_source so hosts host_ip entry vulns shodan)
    by assumption.
  split.
  - intros vulners Hv Hnv. cbn [py_get bind]. rewrite Hv.
    assert (Hvt : truthy (VStr vulners) = true).
    { cbn. destruct (String.eqb_spec vulners ""); [contradiction|reflexivity]. }
    unfold py_or. rewrite Hvt. cbn [keys_if_dict VStr py_add bind py_list].
    unfold list_set. now rewrite mapM_hashable_singletons.
  - intros [Hv|[(l & Hv)|(d & Hv)]]; cbn [py_get bind]; rewrite Hv.
    + reflexivity.
    + unfold py_or. now destruct l.
    + unfold py_or. now destruct d.
Qed.

(** A dataset whose two sub-sources are strings. *)
Definition string_sources_hosts : hosts_t :=
  [ ("10.0.0.1",
     VDict [ ("vulnerabilities",
              VDict [ ("shodan_vulnerabilities", VStr "ab");
                      ("vulners_vulnerabilities", VStr "bc") ]) ]) ].

Lemma resolver_on_a_string_source_witness :
  _search_vulnerabilities first_seen_order string_sources_hosts "10.0.0.1"
  = Ok [AStr "a"; AStr "b"; AStr "c"].
Proof.
  apply (proj1 (resolver_on_a_string_source first_seen_order
                  string_sources_hosts "10.0.0.1" _ _ "ab"
                  eq_refl eq_refl eq_refl ltac:(discriminate)) "bc" eq_refl).
  discriminate.
Defined.

(** * Entries the loop cannot use (C3) *)

(** On files that can all be read the loop over the entries is the loop
    over the texts, and so is the call. *)
Lemma ingest_entries_readable (so : SetOrder) (files : list (string * string)) :
  forall (all_results : results_t) (hosts : hosts_t),
    ingest_entries so (readable files) all_results hosts
    = ingest so files all_results hosts.
Proof.
  induction files as [|[file results] files IH]; intros; simpl; auto.
  destruct (ingest_file so all_results hosts file results) as [[ar h]|e]; auto.
Qed.

Lemma load_entries_readable (so : SetOrder) (files : list (string * string))
      (hosts : hosts_t) (fs : file_system) :
  load_tls_scan_results_entries so (readable files) hosts fs
  = load_tls_scan_results so files hosts fs.
Proof.
  unfold load_tls_scan_results_entries, load_tls_scan_results.
  now rewrite ingest_entries_readable.
Qed.

Lemma ingest_entries_app (so : SetOrder) (entries1 entries2 : listing)
      (all_results : results_t) (hosts : hosts_t) :
  ingest_entries so (entries1 ++ entries2) all_results hosts =
  match ingest_entries so entries1 all_results hosts with
  | (hosts', Ok all_results') => ingest_entries so entries2 all_results' hosts'
  | (hosts', Raise e) => (hosts', Raise e)
  end.
Proof.
  revert all_results hosts.
  induction entries1 as [|[file [results|e]] entries1 IH]; intros; simpl; auto.
  destruct (ingest_file so all_results hosts file results) as [[ar h]|e]; auto.
Qed.

(** The documented form of a name,
    [<ipv4>-<port>-<vendor>-<product>.txt], read as liberally as the
    words allow: four runs of digits joined by dots, a run of digits
    for the port, any non-empty vendor and product. *)
Definition documented_form (file : string) : Prop :=
  exists a b c d port vendor product,
    run_of Re.CDigit (chars a) /\ run_of Re.CDigit (chars b)
    /\ run_of Re.CDigit (chars c) /\ run_of Re.CDigit (chars d)
    /\ run_of Re.CDigit (chars port) /\ vendor <> "" /\ product <> ""
    /\ file = (a ++ "." ++ b ++ "." ++ c ++ "." ++ d ++ "-" ++ port ++ "-"
                  ++ vendor ++ "-" ++ product ++ ".txt")%string.

Lemma documented_form_starts_with_digit (file : string) :
  documented_form file ->
  match chars file with
  | [] => False
  | c :: _ => Re.accepts Re.CDigit c = true
  end.
Proof.
  intros (a & b & c & d & port & vendor & product & [Hne Ha] & _ & _ & _ & _
          & _ & _ & ->).
  rewrite chars_app. destruct (chars a) as [|x l]; [congruence|].
  now inversion Ha.
Qed.

(** What the pattern of the loop asks of a name: somewhere in it, four
    runs of digits separated by three characters of any kind, a hyphen,
    a run of digits, a hyphen, a run of word characters, a hyphen, a
    non-empty text, one more character of any kind and [txt]. *)
Definition pattern_shape (file : string) : Prop :=
  exists d1 c1 d2 c2 d3 c3 d4 p v pr c4 before after,
    chars file
    = before ++ (d1 ++ c1 :: d2 ++ c2 :: d3 ++ c3 :: d4)
             ++ "-"%char :: p ++ "-"%char :: v ++ "-"%char :: pr
             ++ c4 :: chars "txt" ++ after
    /\ run_of Re.CDigit d1 /\ run_of Re.CDigit d2 /\ run_of Re.CDigit d3
    /\ run_of Re.CDigit d4 /\ run_of Re.CDigit p /\ run_of Re.CWord v
    /\ run_of Re.CAny pr
    /\ Forall (fun c => Re.accepts Re.CAny c = true) [c1; c2; c3; c4].

Lemma file_key_shape (file ip port vendor product : string) :
  file_key file = Some (ip, port, vendor, product) -> pattern_shape file.
Proof.
  intros H.
  destruct (file_key_some _ _ _ _ _ H)
    as (caps & before & suf & rest & Hf & Hm & _).
  apply rmatch_spells in Hm. destruct Hm as (w & -> & Hw).
  apply filename_spelling in Hw.
  destruct Hw as (d1 & c1 & d2 & c2 & d3 & c3 & d4 & p & v & pr & c4
                  & -> & _ & H1 & H2 & H3 & H4 & Hp & Hv & Hpr & Hc).
  exists d1, c1, d2, c2, d3, c3, d4, p, v, pr, c4, before, rest.
  repeat split; try apply H1; try apply H2; try apply H3; try apply H4;
    try apply Hp; try apply Hv; try apply Hpr; auto.
  rewrite Hf. repeat (rewrite <- ?app_assoc; cbn [app]). reflexivity.
Qed.

Lemma no_shape_no_match (file : string) :
  ~ pattern_shape file -> Re.findall FILENAME_PATTERN file = [].
Proof.
  intros H. destruct (Re.findall FILENAME_PATTERN file) as [|found l] eqn:E;
    [reflexivity|].
  exfalso. apply H.
  apply (file_key_shape file (nth 0 found "") (nth 1 found "")
                        (underscores_to_spaces (nth 2 found ""))
                        (underscores_to_spaces (nth 3 found ""))).
  unfold file_key. now rewrite E.
Qed.

(** C3, as the code has it.  An entry that can be read and whose text
    holds one of the two failure markers, or in whose name the pattern
    of the loop finds no match (so every name that lacks the shape the
    pattern asks for), is skipped without an exception: the loop body
    returns the result map and the dataset as they were, and the whole
    call (dataset left behind, files written, way of ending) is the one
    of the same entries without it.  An entry that cannot be opened or
    read, whatever its name, ends the call with the exception raised as
    soon as the loop reaches it: the dataset is left as the entries
    before it made it, and no file is written. *)
Theorem unusable_entry_is_skipped
        (so : SetOrder) (entries1 entries2 : listing) (file : string)
        (hosts : hosts_t) (fs : file_system) :
  (forall results all_results dataset,
      contains "Cannot reach the Server" results = true
      \/ contains "Server does not seem to support SSL" results = true
      \/ Re.findall FILENAME_PATTERN file = []
      \/ ~ pattern_shape file ->
      ingest_file so all_results dataset file results
      = Ok (all_results, dataset)
      /\ load_tls_scan_results_entries
           so (entries1 ++ (file, Ok results) :: entries2) hosts fs
         = load_tls_scan_results_entries so (entries1 ++ entries2) hosts fs)
  /\ (forall e hosts1 all_results1,
         ingest_entries so entries1 [] hosts = (hosts1, Ok all_results1) ->
         load_tls_scan_results_entries
           so (entries1 ++ (file, Raise e) :: entries2) hosts fs
         = mkOutcome hosts1 fs (Raise e)).
Proof.
  split.
  - intros results all_results dataset H.
    assert (Hs : forall ar h, ingest_file so ar h file results = Ok (ar, h)).
    { intros ar h. apply ingest_file_skips.
      destruct H as [H|[H|[H|H]]]; auto using no_shape_no_match. }
    split; [apply Hs|].
    unfold load_tls_scan_results_entries. rewrite !ingest_entries_app.
    destruct (ingest_entries so entries1 [] hosts) as [hosts1 [ar1|e]]; auto.
    simpl. now rewrite Hs.
  - intros e hosts1 all_results1 H.
    unfold load_tls_scan_results_entries. rewrite ingest_entries_app, H.
    reflexivity.
Qed.

Lemma unusable_entry_is_skipped_witness :
  (contains "Cannot reach the Server" "Cannot reach the Server: timeout" = true
   /\ load_tls_scan_results_entries first_seen_order
        (readable one_report
           ++ ("10.0.0.1-8443-Acme-Box.txt", Ok "Cannot reach the Server: timeout")
           :: readable two_ports) sample_hosts []
      = load_tls_scan_results_entries first_seen_order
          (readable one_report ++ readable two_ports) sample_hosts [])
  /\ (contains "Server does not seem to support SSL"
               "CRIME : true. Server does not seem to support SSL" = true
      /\ ingest_file first_seen_order sample_results sample_hosts
                     "10.0.0.1-8443-Acme-Box.txt"
                     "CRIME : true. Server does not seem to support SSL"
         = Ok (sample_results, sample_hosts))
  /\ (Re.findall FILENAME_PATTERN "10.0.0.1-443-Acme.txt" = []
      /\ ingest_file first_seen_order sample_results sample_hosts
                     "10.0.0.1-443-Acme.txt" "CRIME : true"
         = Ok (sample_results, sample_hosts)
      /\ load_tls_scan_results_entries first_seen_order
           (readable one_report
              ++ ("10.0.0.1-443-Acme.txt", Ok "CRIME : true")
              :: readable two_ports) sample_hosts []
         = load_tls_scan_results_entries first_seen_order
             (readable one_report ++ readable two_ports) sample_hosts [])
  /\ (~ pattern_shape "notes.txt"
      /\ ingest_file first_seen_order sample_results sample_hosts
                     "notes.txt" "CRIME : true"
         = Ok (sample_results, sample_hosts))
  /\ (ingest_entries first_seen_order (readable one_report) [] sample_hosts
      = (sample_hosts_after, Ok sample_results)
      /\ load_tls_scan_results_entries first_seen_order
           (readable one_report
              ++ ("10.0.0.1-8443-Acme-Box.txt", Raise ValueError)
              :: readable two_ports) sample_hosts []
         = mkOutcome sample_hosts_after [] (Raise ValueError)).
Proof.
  assert (H1 : contains "Cannot reach the Server"
                        "Cannot reach the Server: timeout" = true)
    by (vm_compute; reflexivity).
  assert (H2 : contains "Server does not seem to support SSL"
                        "CRIME : true. Server does not seem to support SSL"
               = true)
    by (vm_compute; reflexivity).
  assert (H3 : Re.findall FILENAME_PATTERN "10.0.0.1-443-Acme.txt" = [])
    by (vm_compute; reflexivity).
  assert (H4 : ~ pattern_shape "notes.txt").
  { intros (d1 & c1 & d2 & c2 & d3 & c3 & d4 & p & v & pr & c4 & before
            & after & H & _).
    assert (Hin : In "-"%char (chars "notes.txt")).
    { rewrite H. apply in_or_app. right. apply in_or_app. right. now left. }
    vm_compute in Hin. intuition discriminate. }
  assert (H5 : ingest_entries first_seen_order (readable one_report) []
                              sample_hosts
               = (sample_hosts_after, Ok sample_results))
    by (vm_compute; reflexivity).
  split; [split; [exact H1|]|].
  { exact (proj2 (proj1 (unusable_entry_is_skipped
                           first_seen_order (readable one_report)
                           (readable two_ports) "10.0.0.1-8443-Acme-Box.txt"
                           sample_hosts [])
                        "Cannot reach the Server: timeout" [] []
                        (or_introl H1))). }
  split; [split; [exact H2|]|].
  { exact (proj1 (proj1 (unusable_entry_is_skipped
                           first_seen_order [] [] "10.0.0.1-8443-Acme-Box.txt"
                           sample_hosts [])
                        "CRIME : true. Server does not seem to support SSL"
                        sample_results sample_hosts
                        (or_intror (or_introl H2)))). }
  split; [split; [exact H3|]|].
  { exact (proj1 (unusable_entry_is_skipped
                    first_seen_order (readable one_report)
                    (readable two_ports) "10.0.0.1-443-Acme.txt"
                    sample_hosts [])
                 "CRIME : true" sample_results sample_hosts
                 (or_intror (or_intror (or_introl H3)))). }
  split; [split; [exact H4|]|split; [exact H5|]].
  - exact (proj1 (proj1 (unusable_entry_is_skipped
                           first_seen_order [] [] "notes.txt" sample_hosts [])
                        "CRIME : true" sample_results sample_hosts
                        (or_intror (or_intror (or_intror H4))))).
  - exact (proj2 (unusable_entry_is_skipped
                    first_seen_order (readable one_report)
                    (readable two_ports) "10.0.0.1-8443-Acme-Box.txt"
                    sample_hosts [])
                 ValueError sample_hosts_after sample_results H5).
Defined.

(** C3 as the claim words it does not hold.  A name that is not of the
    documented form, even read liberally, is decoded and its file gives
    a record, so that the call differs from the one without the file;
    and an entry with such a name that cannot be read as text ends the
    call with the exception of [read] ([UnicodeDecodeError], a
    [ValueError]), where the same entries without it end normally. *)
Lemma unusable_entry_counterexample :
  (~ documented_form "scan 1a2b3c4-5-v-pxtxt"
   /\ ingest_file first_seen_order [] [] "scan 1a2b3c4-5-v-pxtxt"
                  "Heartbleed : true"
      = Ok ([("1a2b3c4",
              mkHost "v" "p" "5" (AsDict [("Heartbleed", VTrue)]) (AsDict [])
                     [] None)], [])
   /\ load_tls_scan_results_entries first_seen_order
        [("scan 1a2b3c4-5-v-pxtxt", Ok "Heartbleed : true")] [] []
      <> load_tls_scan_results_entries first_seen_order [] [] [])
  /\ (~ documented_form "notes.bin"
      /\ Re.findall FILENAME_PATTERN "notes.bin" = []
      /\ load_tls_scan_results_entries first_seen_order
           (("notes.bin", Raise ValueError) :: readable one_report) [] []
         = mkOutcome [] [] (Raise ValueError)
      /\ out_status (load_tls_scan_results_entries first_seen_order
                       (readable one_report) [] [])
         = Ok tt).
Proof.
  split; [split; [|split]|split; [|split; [|split]]].
  - intros H. apply documented_form_starts_with_digit in H.
    vm_compute in H. discriminate.
  - vm_compute. reflexivity.
  - vm_compute. discriminate.
  - intros H. apply documented_form_starts_with_digit in H.
    vm_compute in H. discriminate.
  - vm_compute. reflexivity.
  - vm_compute. reflexivity.
  - vm_compute. reflexivity.
Qed.

(** * The rows of the grouped file and the table of the attacks (C5) *)

(** Among the rows written, those of the vendors' totals under an
    attack, whose product cell is empty, and those of its products. *)
Definition total_rows (attack : atom) (rows : list grouped_row)
  : list grouped_row :=
  filter (fun row => atom_eqb (row_attack row) attack
                     && String.eqb (row_product row) "") rows.

Definition product_rows (attack : atom) (rows : list grouped_row)
  : list grouped_row :=
  filter (fun row => atom_eqb (row_attack row) attack
                     && negb (String.eqb (row_product row) "")) rows.

(** What the rows [rows] and the table [unique_attacks] say of [attack]
    on the map [results]: the table counts the hosts that have the
    attack; so do the quantities of the total rows, and those of the
    product rows; either kind lists the ["ip:port"] of each such host
    once; no two product rows have the same vendor and product, each
    lists the hosts of the attack with its vendor and product and
    counts them, and every host of the attack has its row. *)
Definition attributed_once (results : results_t) (unique_attacks : table)
           (rows : list grouped_row) (attack : atom) : Prop :=
  let with_attack := filter (has_attack attack) (values results) in
  dict_get atom_eqb unique_attacks attack = Some (List.length with_attack)
  /\ list_sum (map row_quantity (total_rows attack rows))
     = List.length with_attack
  /\ Permutation (List.concat (map row_ips (total_rows attack rows)))
                 (map ip_port_text with_attack)
  /\ list_sum (map row_quantity (product_rows attack rows))
     = List.length with_attack
  /\ Permutation (List.concat (map row_ips (product_rows attack rows)))
                 (map ip_port_text with_attack)
  /\ NoDup (map (fun row => (row_vendor row, row_product row))
                (product_rows attack rows))
  /\ (forall row,
         In row (product_rows attack rows) ->
         row_ips row
         = map ip_port_text
               (filter (of_product (row_vendor row) (row_product row))
                       with_attack)
         /\ row_quantity row = List.length (row_ips row))
  /\ (forall host,
         In host with_attack ->
         exists row, In row (product_rows attack rows)
                     /\ row_vendor row = vendor host
                     /\ row_product row = product host).

Lemma filter_flat_map_each {A B} (f : B -> bool) (g : A -> list B)
      (l : list A) :
  filter f (flat_map g l) = flat_map (fun x => filter f (g x)) l.
Proof.
  induction l as [|x l IH]; simpl; auto. now rewrite filter_app, IH.
Qed.

Lemma filter_none {A} (f : A -> bool) (l : list A) :
  (forall x, In x l -> f x = false) -> filter f l = [].
Proof.
  induction l as [|x l IH]; simpl; intros H; auto.
  rewrite (H x) by auto. auto.
Qed.

(** The rows of one attack of the report. *)
Definition attack_rows (attack : atom) (vendors : sdict (sdict product_info))
  : list grouped_row :=
  flat_map (fun by_vendor =>
              vendor_rows attack (fst by_vendor) (snd by_vendor)) vendors.

Lemma attack_rows_attack (attack : atom) (vendors : sdict (sdict product_info))
      (row : grouped_row) :
  In row (attack_rows attack vendors) -> row_attack row = attack.
Proof.
  unfold attack_rows. intros H. apply in_flat_map in H.
  destruct H as (by_vendor & _ & [<-|H]); [reflexivity|].
  apply in_map_iff in H. now destruct H as (entry & <- & _).
Qed.

Lemma grouped_rows_cons (so : SetOrder) (results : results_t)
      (attack : atom) (attack_names : list atom) :
  grouped_rows (grouped_of so results (attack :: attack_names))
  = attack_rows attack
      (vendors_of so (filter (has_attack attack) (values results)))
    ++ grouped_rows (grouped_of so results attack_names).
Proof. reflexivity. Qed.

Lemma rows_of_other_attacks (so : SetOrder) (results : results_t)
      (attack : atom) (f : grouped_row -> bool) (attack_names : list atom) :
  (forall y, In y attack_names -> atom_eqb y attack = false) ->
  filter (fun row => atom_eqb (row_attack row) attack && f row)
         (grouped_rows (grouped_of so results attack_names)) = [].
Proof.
  induction attack_names as [|x l IH]; intros H; [reflexivity|].
  rewrite grouped_rows_cons, filter_app, IH by (intros; apply H; simpl; auto).
  rewrite app_nil_r. apply filter_none. intros row Hrow.
  rewrite (attack_rows_attack _ _ _ Hrow), (H x) by (simpl; auto).
  reflexivity.
Qed.

(** The rows of an attack of the report, among all the rows. *)
Lemma rows_of_attack (so : SetOrder) (results : results_t) (attack : atom)
      (f : grouped_row -> bool) (attack_names : list atom) :
  distinct attack_names -> In attack attack_names ->
  filter (fun row => atom_eqb (row_attack row) attack && f row)
         (grouped_rows (grouped_of so results attack_names))
  = filter f (attack_rows attack
                (vendors_of so (filter (has_attack attack) (values results)))).
Proof.
  induction 1 as [|x l Hx Hd IH]; intros Hin; [destruct Hin|].
  rewrite grouped_rows_cons, filter_app.
  destruct Hin as [->|Hin].
  - rewrite rows_of_other_attacks.
    + rewrite app_nil_r. apply filter_ext_in. intros row Hrow.
      now rewrite (attack_rows_attack _ _ _ Hrow), atom_eqb_refl.
    + intros y Hy. rewrite atom_eqb_sym. now apply Hx.
  - rewrite IH by assumption.
    rewrite filter_none; [reflexivity|]. intros row Hrow.
    now rewrite (attack_rows_attack _ _ _ Hrow), (Hx attack Hin).
Qed.

Lemma products_of_named (so : SetOrder) (with_attack : list HostRecord)
      (v : string) (entry : string * product_info) :
  (forall host, In host with_attack -> product host <> "") ->
  In entry (products_of so with_attack v) ->
  String.eqb (fst entry) "" = false.
Proof.
  intros Hp H. unfold products_of in H. apply in_map_iff in H.
  destruct H as (p & <- & Hin). cbn [product_entry fst].
  apply list_set_str_in in Hin. apply in_map_iff in Hin.
  destruct Hin as (host & <- & Hin). apply filter_In in Hin.
  apply String.eqb_neq. apply Hp, Hin.
Qed.

(** The row of a product under an attack and a vendor. *)
Definition product_row (attack : atom) (v : string)
           (entry : string * product_info) : grouped_row :=
  mkRow attack v (fst entry) VNone (ips (snd entry)) (quantity (snd entry)).

Lemma vendor_rows_eq (attack : atom) (v : string)
      (products : sdict product_info) :
  vendor_rows attack v products
  = vendor_total_row attack v products :: map (product_row attack v) products.
Proof. reflexivity. Qed.

Lemma total_row_product (attack : atom) (v : string)
      (products : sdict product_info) :
  row_product (vendor_total_row attack v products) = "".
Proof. reflexivity. Qed.

Lemma totals_of_vendors (so : SetOrder) (with_attack : list HostRecord)
      (attack : atom) (vs : list string) :
  (forall host, In host with_attack -> product host <> "") ->
  filter (fun row => String.eqb (row_product row) "")
         (attack_rows attack
            (map (fun v => (v, products_of so with_attack v)) vs))
  = map (fun v => vendor_total_row attack v (products_of so with_attack v)) vs.
Proof.
  intros Hp. induction vs as [|v vs IH]; [reflexivity|].
  unfold attack_rows in *. cbn [map flat_map fst snd].
  rewrite filter_app, IH, vendor_rows_eq. cbn [filter].
  rewrite total_row_product. cbn [String.eqb].
  rewrite filter_none; [reflexivity|].
  intros row Hrow. apply in_map_iff in Hrow.
  destruct Hrow as (entry & <- & Hin). cbn [product_row row_product].
  eapply products_of_named; eauto.
Qed.

Lemma details_of_vendors (so : SetOrder) (with_attack : list HostRecord)
      (attack : atom) (vs : list string) :
  (forall host, In host with_attack -> product host <> "") ->
  filter (fun row => negb (String.eqb (row_product row) ""))
         (attack_rows attack
            (map (fun v => (v, products_of so with_attack v)) vs))
  = flat_map (fun v => map (product_row attack v)
                           (products_of so with_attack v)) vs.
Proof.
  intros Hp. induction vs as [|v vs IH]; [reflexivity|].
  unfold attack_rows in *. cbn [map flat_map fst snd].
  rewrite filter_app, IH, vendor_rows_eq. cbn [filter].
  rewrite total_row_product. cbn [String.eqb negb]. f_equal.
  transitivity (filter (fun _ : grouped_row => true)
                       (map (product_row attack v)
                            (products_of so with_attack v))).
  - apply filter_ext_in. intros row Hrow. apply in_map_iff in Hrow.
    destruct Hrow as (entry & <- & Hin). cbn [product_row row_product].
    now rewrite (products_of_named so with_attack v entry Hp Hin).
  - apply filter_true.
Qed.

Lemma list_sum_flat_map {A B} (f : B -> nat) (g : A -> list B) (l : list A) :
  list_sum (map f (flat_map g l))
  = list_sum (map (fun x => list_sum (map f (g x))) l).
Proof.
  induction l as [|x l IH]; simpl; auto.
  now rewrite map_app, list_sum_app, IH.
Qed.

Lemma concat_flat_map {A B C} (f : B -> list C) (g : A -> list B)
      (l : list A) :
  List.concat (map f (flat_map g l))
  = List.concat (map (fun x => List.concat (map f (g x))) l).
Proof.
  induction l as [|x l IH]; simpl; auto.
  now rewrite map_app, concat_app, IH.
Qed.

Lemma nodup_pairs {A B} (g : A -> list B) (l : list A) :
  NoDup l -> (forall x, NoDup (g x)) ->
  NoDup (flat_map (fun x => map (pair x) (g x)) l).
Proof.
  intros Hl Hg. induction Hl as [|x l Hx Hl IH]; simpl; [constructor|].
  apply NoDup_app; auto.
  - specialize (Hg x). induction Hg as [|b bs Hb Hbs IHb]; simpl; constructor; auto.
    intros H. apply in_map_iff in H. now destruct H as (b' & [= <-] & H).
  - intros [a b] H1 H2. apply in_map_iff in H1. destruct H1 as (b' & [= <- <-] & _).
    apply in_flat_map in H2. destruct H2 as (y & Hy & H2).
    apply in_map_iff in H2. destruct H2 as (b'' & [= -> _] & _). auto.
Qed.

Lemma products_of_keys (so : SetOrder) (with_attack : list HostRecord)
      (v : string) :
  keys (products_of so with_attack v)
  = list_set_str so (map product (filter (of_vendor v) with_attack)).
Proof.
  unfold products_of, keys. rewrite map_map. cbn [product_entry fst].
  apply map_id.
Qed.

(** In a table the count found under a key is the one entered with it. *)
Lemma dict_get_distinct (c : table) (k : atom) (n : nat) :
  distinct (keys c) -> In (k, n) c -> dict_get atom_eqb c k = Some n.
Proof.
  induction c as [|[k' n'] c IH]; intros Hd Hin; [destruct Hin|].
  cbn [keys map fst] in Hd. inversion Hd as [|x l Hx Hd']; subst.
  cbn [dict_get]. destruct Hin as [[= -> ->]|Hin].
  - now rewrite atom_eqb_refl.
  - rewrite Hx; [now apply IH|].
    unfold keys. apply in_map_iff. now exists (k, n).
Qed.

Lemma table_count_of_name (items : list atom) (name : string) :
  In (AStr name) items ->
  dict_get atom_eqb (sorted by_count_desc (fold_left count_one items []))
           (AStr name)
  = Some (occurrences (AStr name) items).
Proof.
  intros Hin. destruct (frequency_table_counts items) as [Hd He Hc].
  destruct (Hc _ Hin) as (k & Hk & Hkx).
  assert (k = AStr name) as ->.
  { destruct k; cbn in Hkx; try discriminate.
    now apply String.eqb_eq in Hkx; subst. }
  unfold keys in Hk. apply in_map_iff in Hk.
  destruct Hk as ([k n] & Hkn & Hin'). cbn [fst] in Hkn. subst k.
  rewrite (dict_get_distinct _ _ _ Hd Hin'). f_equal. now apply He.
Qed.

Lemma attack_counted (results : results_t) (host : HostRecord)
      (name : string) :
  In host (values results) -> In name (names_items (attacks host)) ->
  In (AStr name)
     (List.concat (map (fun host => field_items host "attacks")
                       (values results))).
Proof.
  intros Hh Hn. apply in_concat. exists (field_items host "attacks").
  split; [exact (in_map (fun h => field_items h "attacks") _ _ Hh)|].
  unfold field_items. cbn [String.eqb Ascii.eqb Bool.eqb]. now apply in_map.
Qed.

Lemma has_attack_name (host : HostRecord) (name : string) :
  In name (names_items (attacks host)) -> has_attack (AStr name) host = true.
Proof.
  intros H. unfold has_attack. apply existsb_exists. exists name.
  split; auto. apply atom_eqb_refl.
Qed.

(** The rows of the report of a map, attack by attack. *)
Lemma grouped_of_attributed (so : SetOrder) (results : results_t)
      (host : HostRecord) (name : string) :
  (forall host, In host (values results) ->
                NoDup (names_items (attacks host))) ->
  (forall host, In host (values results) ->
                names_items (attacks host) <> [] -> product host <> "") ->
  In host (values results) -> In name (names_items (attacks host)) ->
  attributed_once results (attack_table results)
    (grouped_rows (grouped_of so results (keys (attack_table results))))
    (AStr name).
Proof.
  intros Hnd Hpr Hh Hn.
  pose proof (attack_counted results host name Hh Hn) as Hc.
  set (attack := AStr name).
  set (with_attack := filter (has_attack attack) (values results)).
  assert (Hp : forall h, In h with_attack -> product h <> "").
  { intros h Hin. apply filter_In in Hin. destruct Hin as [Hin Ha].
    apply Hpr; auto. unfold has_attack in Ha.
    destruct (names_items (attacks h)); [discriminate|discriminate]. }
  assert (Hkeys : distinct (keys (attack_table results))).
  { apply (counts_distinct _ _ (frequency_table_counts _)). }
  assert (Hkey : In attack (keys (attack_table results))).
  { destruct (counts_cover _ _ (frequency_table_counts _) _ Hc)
      as (k & Hk & Hkx).
    destruct k; cbn in Hkx; try discriminate.
    apply String.eqb_eq in Hkx. now subst. }
  unfold attributed_once, total_rows, product_rows. cbv zeta.
  fold attack. fold with_attack.
  rewrite !(rows_of_attack so results attack _ _ Hkeys Hkey).
  fold with_attack. unfold vendors_of.
  rewrite (totals_of_vendors so with_attack attack _ Hp).
  rewrite (details_of_vendors so with_attack attack _ Hp).
  split; [|split; [|split; [|split; [|split; [|split; [|split]]]]]].
  - subst with_attack attack. unfold attack_table.
    rewrite table_count_of_name by assumption.
    f_equal. now apply attack_occurrences.
  - rewrite map_map. cbn [vendor_total_row row_quantity].
    rewrite <- (vendors_of_total so with_attack). unfold vendors_of.
    now rewrite map_map.
  - rewrite map_map. cbn [vendor_total_row row_ips].
    eapply Permutation_trans; [|apply (vendors_of_ips so with_attack)].
    unfold vendors_of. now rewrite map_map.
  - rewrite list_sum_flat_map.
    rewrite <- (vendors_of_total so with_attack). unfold vendors_of.
    rewrite map_map. cbn [snd]. f_equal. apply map_ext. intros v.
    unfold values. now rewrite !map_map.
  - rewrite concat_flat_map.
    eapply Permutation_trans; [|apply (vendors_of_ips so with_attack)].
    unfold vendors_of. rewrite map_map. cbn [snd].
    apply Permutation_refl'. f_equal. apply map_ext. intros v.
    unfold values. now rewrite !map_map.
  - rewrite flat_map_concat_map, concat_map, map_map, <- flat_map_concat_map.
    erewrite flat_map_ext.
    + apply (nodup_pairs
               (fun v => list_set_str so
                           (map product (filter (of_vendor v) with_attack)))).
      * apply list_set_str_nodup.
      * intros v. apply list_set_str_nodup.
    + intros v. rewrite map_map. cbn [product_row row_vendor row_product].
      rewrite <- (map_map fst (pair v)). f_equal.
      apply (products_of_keys so with_attack v).
  - intros row Hrow. apply in_flat_map in Hrow.
    destruct Hrow as (v & _ & Hrow). apply in_map_iff in Hrow.
    destruct Hrow as (entry & <- & Hin). unfold products_of in Hin.
    apply in_map_iff in Hin. destruct Hin as (p & <- & _).
    cbn [product_row product_entry row_ips row_quantity row_vendor
                     row_product fst snd ips quantity].
    split; [reflexivity|]. now rewrite length_map.
  - intros h Hin.
    exists (product_row attack (vendor h)
              (product_entry with_attack (vendor h) (product h))).
    split; [|split; reflexivity].
    apply in_flat_map. exists (vendor h). split.
    + apply list_set_str_in. now apply in_map.
    + apply in_map. unfold products_of. apply in_map.
      apply list_set_str_in. apply in_map. apply filter_In. split; auto.
      unfold of_vendor. apply String.eqb_refl.
Qed.

Lemma text_nil (l : list ascii) : text l = "" -> l = [].
Proof.
  intros H. apply (f_equal chars) in H. now rewrite chars_text in H.
Qed.

(** The product decoded from a name is never empty. *)
Lemma file_key_product (file ip port vendor product : string) :
  file_key file = Some (ip, port, vendor, product) -> product <> "".
Proof.
  intros H.
  destruct (file_key_some _ _ _ _ _ H)
    as (caps & before & suf & rest & Hf & Hm & -> & -> & -> & ->).
  apply rmatch_spells in Hm. destruct Hm as (w & -> & Hw).
  apply filename_spelling in Hw.
  destruct Hw as (d1 & c1 & d2 & c2 & d3 & c3 & d4 & p & v & pr & c4
                  & -> & Hout & _ & _ & _ & _ & _ & _ & Hpr & _).
  apply (f_equal (@rev (list ascii))) in Hout.
  rewrite rev_involutive in Hout. subst caps. cbn [rev app map nth].
  unfold underscores_to_spaces. intros E. apply text_nil in E.
  apply map_eq_nil in E. rewrite chars_text in E.
  destruct Hpr as [Hne _]. contradiction.
Qed.

Lemma ingest_products (so : SetOrder) (files : list (string * string))
      (hosts hosts' : hosts_t) (all_results : results_t) :
  ingest so files [] hosts = (hosts', Ok all_results) ->
  forall host, In host (values all_results) -> product host <> "".
Proof.
  intros H.
  destruct (ingest_keeps_first so files _ _ _ _ H) as (Hnd & _ & Hget);
    [constructor|].
  intros host Hin. unfold values in Hin. apply in_map_iff in Hin.
  destruct Hin as ([k h] & <- & Hin). cbn [snd].
  apply in_sget in Hin; auto. rewrite Hget in Hin. cbn in Hin.
  destruct (first_record_built _ _ _ _ _ Hin) as (file & results & _ & Hb).
  destruct (built_record_some _ _ _ _ _ _ Hb)
    as (a & b & port & vendor & product & vs & _ & Hk & _ & ->).
  cbn. eapply file_key_product; eauto.
Qed.

(** The hosts of an attack after [save_results_csv] are the records that
    have it, each as [save_results_csv] left it. *)
Lemma with_attack_csv_mutated (results : results_t) (attack : atom) :
  filter (has_attack attack) (values (csv_mutated results))
  = map (fun item => csv_view (fst item) (snd item))
        (filter (fun item => has_attack attack (snd item)) results).
Proof.
  unfold values, csv_mutated.
  induction results as [|[k h] results IH]; [reflexivity|].
  cbn [map filter fst snd]. rewrite IH.
  change (has_attack attack (csv_view k h)) with (has_attack attack h).
  now destruct (has_attack attack h).
Qed.

(** C5.  Take a result map whose records have distinct attack names
    and, where they have an attack, an ["ip"] key and a non-empty
    product (an empty one would make the row of the product look like
    the row of a total).  The grouped report is built; pairing each of
    its attacks with the sum, over the vendors, of the quantity of the
    vendor's total row gives the frequency table of the attacks, entry
    for entry; and for every attack [A] that a record of the map has,
    among the rows written: the table's count for [A] is the number of
    hosts having [A]; the quantities of the total rows of [A] add up to
    it, and so do those of its product rows; the ["ip:port"] strings of
    the total rows, and those of the product rows, are those of the
    hosts having [A], each host once; no two product rows of [A] have
    the same vendor and product, each lists exactly the hosts having
    [A] with its vendor and product, and each host having [A] is in
    the row of its vendor and product.  So it is, without any
    assumption, for every result map the loop leaves: the table is
    counted on that map, the rows are built from the same records after
    [save_results_csv] has rewritten them, and when the call ends
    normally the attacks file holds that table and the grouped file
    those rows. *)
Theorem grouped_rows_attribute_each_host_once (so : SetOrder) :
  (forall results,
      (forall host, In host (values results) ->
                    NoDup (names_items (attacks host))) ->
      (forall host, In host (values results) ->
                    names_items (attacks host) <> [] ->
                    ip host <> None /\ product host <> "") ->
      exists groupped_results unique_attacks,
        group_results so results = Ok groupped_results
        /\ count_unique_entities results "attacks" = Ok unique_attacks
        /\ map attack_total groupped_results = unique_attacks
        /\ forall host name,
            In host (values results) ->
            In name (names_items (attacks host)) ->
            attributed_once results unique_attacks
                            (grouped_rows groupped_results) (AStr name))
  /\ (forall files hosts hosts' all_results fs,
         ingest so files [] hosts = (hosts', Ok all_results) ->
         exists groupped_results unique_attacks,
           count_unique_entities all_results "attacks" = Ok unique_attacks
           /\ group_results so (csv_mutated all_results) = Ok groupped_results
           /\ map attack_total groupped_results = unique_attacks
           /\ (forall host name,
                  In host (values all_results) ->
                  In name (names_items (attacks host)) ->
                  filter (has_attack (AStr name))
                         (values (csv_mutated all_results))
                  = map (fun item => csv_view (fst item) (snd item))
                        (filter (fun item => has_attack (AStr name) (snd item))
                                all_results)
                  /\ attributed_once (csv_mutated all_results) unique_attacks
                                     (grouped_rows groupped_results)
                                     (AStr name))
           /\ (out_status (load_tls_scan_results so files hosts fs) = Ok tt ->
               sget (out_files (load_tls_scan_results so files hosts fs))
                    (full_path UNIQUE_ATTACKS_CSV)
               = Some (CsvCounts unique_attacks)
               /\ sget (out_files (load_tls_scan_results so files hosts fs))
                       (full_path UNIQUE_GROUPPED_PRODUCTS_RESULTS_CSV)
                  = Some (CsvGrouped (grouped_rows groupped_results)))).
Proof.
  split.
  - intros results Hnd Hip.
    exists (grouped_of so results (keys (attack_table results))),
           (attack_table results).
    split; [apply group_results_ok; intros; now apply Hip|].
    split; [apply count_unique_entities_eq; simpl; auto|].
    split; [now apply grouped_totals|].
    intros host name Hh Hn.
    apply (grouped_of_attributed so results host name); auto.
    intros h Hin Hne. now apply Hip.
  - intros files hosts hosts' all_results fs Hi.
    destruct (ingest_records so files _ _ _ Hi) as [_ Hrec].
    assert (Hnd : forall h, In h (values (csv_mutated all_results)) ->
                            NoDup (names_items (attacks h))).
    { intros h Hin. apply values_csv_mutated in Hin.
      destruct Hin as (k & h' & Hin & ->).
      cbn [csv_view attacks names_items].
      apply (Hrec h'). unfold values. apply in_map_iff. now exists (k, h'). }
    exists (grouped_of so (csv_mutated all_results)
                       (keys (attack_table (csv_mutated all_results)))),
           (attack_table all_results).
    split; [apply count_unique_entities_eq; simpl; auto|].
    split.
    { apply group_results_ok. intros h Hin _.
      apply values_csv_mutated in Hin. destruct Hin as (k & h' & _ & ->).
      discriminate. }
    split.
    { rewrite <- (attack_table_csv_mutated all_results).
      now apply grouped_totals. }
    split.
    + intros host name Hh Hn.
      split; [apply with_attack_csv_mutated|].
      unfold values in Hh. apply in_map_iff in Hh.
      destruct Hh as ([k h] & <- & Hin). cbn [snd] in Hn.
      rewrite <- (attack_table_csv_mutated all_results).
      apply (grouped_of_attributed so (csv_mutated all_results)
                                   (csv_view k h) name).
      * exact Hnd.
      * intros h' Hin' _. apply values_csv_mutated in Hin'.
        destruct Hin' as (k' & h'' & Hin' & ->). cbn [csv_view product].
        apply (ingest_products so files _ _ _ Hi).
        unfold values. apply in_map_iff. now exists (k', h'').
      * unfold values, csv_mutated. rewrite map_map. cbn [fst snd].
        apply in_map_iff. now exists (k, h).
      * exact Hn.
    + intros Hok.
      destruct (run_ok_inv so files hosts fs Hok)
        as (hosts1 & all_results1 & Hi1 & ->).
      rewrite Hi in Hi1. injection Hi1 as <- <-.
      cbn [out_files]. rewrite attack_table_csv_mutated.
      unfold files_of_run. cbv beta zeta. split.
      * rewrite ?sget_sset_other by (vm_compute; discriminate).
        apply sget_sset_same.
      * apply sget_sset_same.
Qed.

Lemma grouped_rows_attribute_each_host_once_witness :
  ((forall host, In host (values listed_results) ->
                 NoDup (names_items (attacks host)))
   /\ (forall host, In host (values listed_results) ->
                    names_items (attacks host) <> [] ->
                    ip host <> None /\ product host <> "")
   /\ exists groupped_results unique_attacks,
       group_results first_seen_order listed_results = Ok groupped_results
       /\ count_unique_entities listed_results "attacks" = Ok unique_attacks
       /\ attributed_once listed_results unique_attacks
                          (grouped_rows groupped_results) (AStr "Heartbleed"))
  /\ ingest first_seen_order two_vendors [] [] = ([], Ok two_vendors_results)
  /\ out_status (load_tls_scan_results first_seen_order two_vendors [] [])
     = Ok tt
  /\ exists groupped_results unique_attacks,
      count_unique_entities two_vendors_results "attacks" = Ok unique_attacks
      /\ group_results first_seen_order (csv_mutated two_vendors_results)
         = Ok groupped_results
      /\ attributed_once (csv_mutated two_vendors_results) unique_attacks
                         (grouped_rows groupped_results) (AStr "CRIME")
      /\ sget (out_files (load_tls_scan_results first_seen_order two_vendors
                                                [] []))
              (full_path UNIQUE_ATTACKS_CSV)
         = Some (CsvCounts unique_attacks)
      /\ sget (out_files (load_tls_scan_results first_seen_order two_vendors
                                                [] []))
              (full_path UNIQUE_GROUPPED_PRODUCTS_RESULTS_CSV)
         = Some (CsvGrouped (grouped_rows groupped_results)).
Proof.
  assert (H1 : forall host, In host (values listed_results) ->
                            NoDup (names_items (attacks host))).
  { intros host [<-|[<-|[<-|[]]]]; cbn; repeat constructor;
      simpl; intuition discriminate. }
  assert (H2 : forall host, In host (values listed_results) ->
                            names_items (attacks host) <> [] ->
                            ip host <> None /\ product host <> "").
  { intros host [<-|[<-|[<-|[]]]]; cbn; intros H;
      [split; discriminate|split; discriminate|congruence]. }
  assert (H3 : ingest first_seen_order two_vendors [] []
               = ([], Ok two_vendors_results))
    by (vm_compute; reflexivity).
  assert (H4 : out_status (load_tls_scan_results first_seen_order two_vendors
                                                 [] []) = Ok tt)
    by (vm_compute; reflexivity).
  split; [split; [exact H1|split; [exact H2|]]
         |split; [exact H3|split; [exact H4|]]].
  - destruct (proj1 (grouped_rows_attribute_each_host_once first_seen_order)
                    listed_results H1 H2)
      as (groupped_results & unique_attacks & Hg & Hc & _ & Hall).
    exists groupped_results, unique_attacks.
    split; [exact Hg|]. split; [exact Hc|].
    apply (Hall (mkHost "Acme" "Box1" "443" (AsList ["Heartbleed"]) (AsList [])
                        [] (Some "10.0.0.1"))); simpl; auto.
  - destruct (proj2 (grouped_rows_attribute_each_host_once first_seen_order)
                    two_vendors [] [] two_vendors_results [] H3)
      as (groupped_results & unique_attacks & Hc & Hg & _ & Hall & Hfiles).
    exists groupped_results, unique_attacks.
    split; [exact Hc|]. split; [exact Hg|].
    split; [|exact (Hfiles H4)].
    apply (Hall (mkHost "Bolt Inc" "Hub" "8443"
                        (AsDict [("CRIME", VTrue); ("Heartbleed", VTrue)])
                        (AsDict []) [] None) "CRIME"); simpl; auto.
Defined.
